(** * LinkUp: calendar normalisation and group availability

    A shallow embedding of

    - [src/lib/calendar/parse-ics.ts] (ICS events to weekday busy blocks), and
    - the availability route whose text follows the leave route in
      [src/app/api/groups/[groupId]/leave/route.ts] (interval merging, the
      [time] query parameter and the free / busy / unknown classification),

    together with the properties the specification states about them; and
    of the leave route of that file and the button that calls it
    ([LeaveGroupButton]), with further properties of all of these.

    Conventions of the embedding.

    - A JavaScript string is the [string] of its UTF-8 bytes.
    - A [number] is a binary64 value: a finite one is given by the rational
      it denotes, the others are the two infinities and NaN ([JS.number]).
      Arithmetic rounds to nearest, ties to even, and overflows to an
      infinity ([JS.round64]).  [-0] is not told apart from [0]: the sources
      print and compare both alike and never divide by a computed value.  A
      field that has passed [Number.isFinite] is kept as a [Q].
    - A [Map] is an association list in insertion order; [Map.set] on a key
      that is already present keeps its position.
    - A [Date] is the number of milliseconds since the epoch, as a [Z].
    - The time-zone database behind [Intl.DateTimeFormat] is not part of the
      repository: the UTC offset of the civil zone is a parameter. *)

From Stdlib Require Import Bool List ZArith QArith Qround Lia Lqa.
From Stdlib Require Import Permutation.
From Stdlib Require Import Ascii String.
Import ListNotations.

Local Open Scope string_scope.
Local Open Scope list_scope.
Local Open Scope Z_scope.

(* ================================================================== *)
(** * JavaScript primitives used by the sources *)
(* ================================================================== *)

Module JS.

(** ** Strings *)

(** [s.split(sep)] for a one-character separator: always at least one piece. *)
Fixpoint split (sep : ascii) (s : string) : list string :=
  match s with
  | EmptyString => [EmptyString]
  | String c rest =>
      if Ascii.eqb c sep then EmptyString :: split sep rest
      else match split sep rest with
           | piece :: pieces => String c piece :: pieces
           | [] => [String c EmptyString]
           end
  end.

Fixpoint repeat_string (n : nat) (s : string) : string :=
  match n with
  | O => EmptyString
  | S k => (s ++ repeat_string k s)%string
  end.

(** [s.padStart(n, "0")]. *)
Definition padStart0 (n : nat) (s : string) : string :=
  (repeat_string (n - String.length s) "0" ++ s)%string.

(** Length in bytes of the white-space or line-terminator character the bytes
    start with, and [0] when they start with none.  These are the characters
    [trim] and [Number] strip: U+0009 to U+000D, U+0020, U+00A0, U+1680,
    U+2000 to U+200A, U+2028, U+2029, U+202F, U+205F, U+3000 and U+FEFF. *)
Definition white_space_prefix (l : list ascii) : nat :=
  match map N_of_ascii (firstn 3 l) with
  | (9 | 10 | 11 | 12 | 13 | 32)%N :: _ => 1
  | 194%N :: 160%N :: _ => 2
  | 225%N :: 154%N :: 128%N :: _ => 3
  | 226%N :: 128%N :: c :: _ =>
      if ((128 <=? c) && (c <=? 138) || (c =? 168) || (c =? 169)
          || (c =? 175))%N then 3 else 0
  | 226%N :: 129%N :: 159%N :: _ => 3
  | 227%N :: 128%N :: 128%N :: _ => 3
  | 239%N :: 187%N :: 191%N :: _ => 3
  | _ => 0
  end%nat.

(** The same at the end of a string, given back to front: in UTF-8 a
    character ends where its bytes end. *)
Definition white_space_suffix (reversed : list ascii) : nat :=
  match firstn 3 reversed with
  | [c3; c2; c1] =>
      match white_space_prefix [c1; c2; c3] with
      | 3%nat => 3
      | _ => match white_space_prefix [c2; c3] with
             | 2%nat => 2
             | _ => white_space_prefix [c3]
             end
      end
  | [c2; c1] =>
      match white_space_prefix [c1; c2] with
      | 2%nat => 2
      | _ => white_space_prefix [c2]
      end
  | [c1] => white_space_prefix [c1]
  | _ => 0
  end%nat.

(** Drop characters as long as [width] finds one. *)
Fixpoint strip (width : list ascii -> nat) (fuel : nat) (l : list ascii)
    : list ascii :=
  match fuel with
  | O => l
  | S f =>
      match width l with
      | O => l
      | k => strip width f (skipn k l)
      end
  end.

(** [s.trim()] *)
Definition trim (l : list ascii) : list ascii :=
  let l := strip white_space_prefix (List.length l) l in
  rev (strip white_space_suffix (List.length l) (rev l)).

(** ** Numbers *)

(** A [number]: a finite binary64 value, given by the rational it denotes, or
    one of the two infinities, or NaN. *)
Inductive number : Type :=
| Num (q : Q)
| PosInf
| NegInf
| NaN.

Definition Number_isFinite (n : number) : bool :=
  match n with
  | Num _ => true
  | _ => false
  end.

(** *** Rounding to binary64 *)

(** [n / d] rounded to the nearest integer, ties to even ([0 <= n], [0 < d]). *)
Definition round_half_even (n d : Z) : Z :=
  let q := n / d in
  match 2 * (n mod d) ?= d with
  | Lt => q
  | Gt => q + 1
  | Eq => if Z.even q then q else q + 1
  end.

(** [2^e <= a / d] *)
Definition ge_pow2 (a d e : Z) : bool :=
  d * 2 ^ Z.max 0 e <=? a * 2 ^ Z.max 0 (- e).

(** The binary exponent of [a / d]: [2^e <= a / d < 2^(e+1)] ([0 < a, d]). *)
Definition log2_floor (a d : Z) : Z :=
  let e := Z.log2 a - Z.log2 d in
  if ge_pow2 a d e then e else e - 1.

(** The binary64 value nearest to [a / d] ([0 < a, d]), [None] when that is
    beyond the largest finite one: 53 bits of precision down to the exponent
    -1022, and the fixed spacing [2^-1074] below. *)
Definition round64_pos (a d : Z) : option Q :=
  let e := log2_floor a d in
  if 1024 <=? e then None
  else
    let x := Z.max (e - 52) (-1074) in
    let m := round_half_even (a * 2 ^ Z.max 0 (- x)) (d * 2 ^ Z.max 0 x) in
    if 0 <=? x then
      if 2 ^ 1024 <=? m * 2 ^ x then None else Some (inject_Z (m * 2 ^ x))
    else Some (Qred (m # Z.to_pos (2 ^ (- x)))).

(** The binary64 value of a real: round to nearest, ties to even.  The result
    is in lowest terms, so equal values are equal terms. *)
Definition round64 (q : Q) : number :=
  match Qnum q with
  | Z0 => Num 0
  | Zpos a =>
      match round64_pos (Zpos a) (Zpos (Qden q)) with
      | Some v => Num v
      | None => PosInf
      end
  | Zneg a =>
      match round64_pos (Zpos a) (Zpos (Qden q)) with
      | Some v => Num (- v)
      | None => NegInf
      end
  end.

(** *** Arithmetic and comparison *)

(** [a + b] *)
Definition add (a b : number) : number :=
  match a, b with
  | NaN, _ | _, NaN => NaN
  | PosInf, NegInf | NegInf, PosInf => NaN
  | PosInf, _ | _, PosInf => PosInf
  | NegInf, _ | _, NegInf => NegInf
  | Num x, Num y => round64 (x + y)
  end.

Definition negative (q : Q) : bool := Qnum q <? 0.

Definition infinity (neg : bool) : number := if neg then NegInf else PosInf.

(** [a * b] *)
Definition mul (a b : number) : number :=
  match a, b with
  | NaN, _ | _, NaN => NaN
  | Num x, Num y => round64 (x * y)
  | Num x, PosInf | PosInf, Num x =>
      if Qnum x =? 0 then NaN else infinity (negative x)
  | Num x, NegInf | NegInf, Num x =>
      if Qnum x =? 0 then NaN else infinity (negb (negative x))
  | PosInf, PosInf | NegInf, NegInf => PosInf
  | PosInf, NegInf | NegInf, PosInf => NegInf
  end.

(** [a / d] for a positive integer constant [d]. *)
Definition div (a : number) (d : positive) : number :=
  match a with
  | Num x => round64 (x / inject_Z (Zpos d))
  | other => other
  end.

(** Truncation towards zero and the remainder built on it. *)
Definition Qtrunc (q : Q) : Z := Z.quot (Qnum q) (Zpos (Qden q)).

Definition Qrem (a b : Q) : Q := (a - b * inject_Z (Qtrunc (a / b)))%Q.

(** [a % d] for a positive integer constant [d]: the remainder of two
    binary64 values is one, so nothing is rounded. *)
Definition rem (a : number) (d : positive) : number :=
  match a with
  | Num x => Num (Qred (Qrem x (inject_Z (Zpos d))))
  | _ => NaN
  end.

(** [a <= b] *)
Definition le (a b : number) : bool :=
  match a, b with
  | NaN, _ | _, NaN => false
  | Num x, Num y => Qle_bool x y
  | NegInf, _ | _, PosInf => true
  | _, _ => false
  end.

(** [a < b] *)
Definition lt (a b : number) : bool :=
  match a, b with
  | NaN, _ | _, NaN => false
  | Num x, Num y => negb (Qle_bool y x)
  | PosInf, _ | _, NegInf => false
  | _, _ => true
  end.

(** *** Strings to numbers *)

Definition in_range (lo hi : nat) (c : ascii) : bool :=
  (lo <=? nat_of_ascii c)%nat && (nat_of_ascii c <=? hi)%nat.

(** [\d] *)
Definition is_digit (c : ascii) : bool := in_range 48 57 c.

Definition digit_value (c : ascii) : Z :=
  let n := Z.of_nat (nat_of_ascii c) in
  if in_range 48 57 c then n - 48
  else if in_range 97 122 c then n - 87
  else if in_range 65 90 c then n - 55
  else 36.

Definition is_digit_in (base : Z) (c : ascii) : bool :=
  digit_value c <? base.

Fixpoint span (p : ascii -> bool) (l : list ascii) : list ascii * list ascii :=
  match l with
  | c :: rest =>
      if p c then let '(yes, no) := span p rest in (c :: yes, no)
      else ([], l)
  | [] => ([], [])
  end.

(** Value of a digit sequence in a base, most significant digit first. *)
Definition digits_value (base : Z) (ds : list ascii) : Z :=
  fold_left (fun acc d => acc * base + digit_value d) ds 0.

Definition all_digits_in (base : Z) (ds : list ascii) : bool :=
  match ds with
  | [] => false
  | _ => forallb (is_digit_in base) ds
  end.

(** [0x..], [0o..], [0b..] literals (no sign allowed). *)
Definition prefixed_literal (l : list ascii) : option number :=
  match l with
  | "0"%char :: p :: ds =>
      let based (base : Z) :=
        Some (if all_digits_in base ds
              then round64 (inject_Z (digits_value base ds)) else NaN) in
      if Ascii.eqb p "x" || Ascii.eqb p "X" then based 16
      else if Ascii.eqb p "o" || Ascii.eqb p "O" then based 8
      else if Ascii.eqb p "b" || Ascii.eqb p "B" then based 2
      else None
  | _ => None
  end.

Definition split_sign (l : list ascii) : bool * list ascii :=
  match l with
  | "-"%char :: rest => (true, rest)
  | "+"%char :: rest => (false, rest)
  | _ => (false, l)
  end.

(** The exponent part of a decimal literal: nothing, or [e] / [E], an optional
    sign and at least one digit. *)
Definition exponent_part (l : list ascii) : option Z :=
  match l with
  | [] => Some 0
  | e :: rest =>
      if Ascii.eqb e "e" || Ascii.eqb e "E" then
        let '(neg, ds) := split_sign rest in
        if all_digits_in 10 ds
        then Some (if neg then - digits_value 10 ds else digits_value 10 ds)
        else None
      else None
  end.

(** The real an unsigned decimal literal denotes: [ddd], [ddd.], [ddd.ddd],
    [.ddd], each with an optional exponent. *)
Definition decimal_literal (l : list ascii) : option Q :=
  let '(int_ds, after_int) := span is_digit l in
  let '(frac_ds, after_frac) :=
    match after_int with
    | "."%char :: rest => span is_digit rest
    | _ => ([], after_int)
    end in
  match int_ds ++ frac_ds with
  | [] => None
  | ds =>
      match exponent_part after_frac with
      | Some e =>
          Some (inject_Z (digits_value 10 ds)
                * Qpower (10 # 1) (e - Z.of_nat (List.length frac_ds)))%Q
      | None => None
      end
  end.

(** [Number(s)] on a string (the StringToNumber conversion): the binary64
    value nearest to the literal. *)
Definition Number (s : string) : number :=
  let l := trim (list_ascii_of_string s) in
  match l with
  | [] => Num 0
  | _ =>
      match prefixed_literal l with
      | Some n => n
      | None =>
          let '(neg, body) := split_sign l in
          if String.eqb (string_of_list_ascii body) "Infinity"
          then infinity neg
          else match decimal_literal body with
               | Some q => round64 (if neg then - q else q)%Q
               | None => NaN
               end
      end
  end.

(** [Number(x)] where [x] may be [undefined] (a missing array element):
    [Number(undefined)] is NaN. *)
Definition Number_opt (x : option string) : number :=
  match x with
  | Some s => Number s
  | None => NaN
  end.

(** [Number.isFinite(x) ? x : 0] *)
Definition finite_or_zero (n : number) : Q :=
  match n with
  | Num q => q
  | _ => 0%Q
  end.

(** *** Numbers to strings *)

Definition digit_char (d : Z) : ascii := ascii_of_nat (Z.to_nat (48 + d)).

Fixpoint nat_digits (fuel : nat) (n : Z) (acc : list ascii) : list ascii :=
  match fuel with
  | O => acc
  | S k =>
      let acc' := digit_char (n mod 10) :: acc in
      if n <? 10 then acc' else nat_digits k (n / 10) acc'
  end.

(** Decimal digits of a non-negative integer. *)
Definition Z_digits (n : Z) : list ascii :=
  nat_digits (S (Z.to_nat (Z.log2 n))) n [].

(** [10^e <= a / d] *)
Definition ge_pow10 (a d e : Z) : bool :=
  d * 10 ^ Z.max 0 e <=? a * 10 ^ Z.max 0 (- e).

(** The decimal exponent of [a / d]: [10^e <= a / d < 10^(e+1)], searched
    downwards from an estimate that is never too small. *)
Fixpoint log10_from (fuel : nat) (a d e : Z) : Z :=
  match fuel with
  | O => e
  | S f => if ge_pow10 a d e then e else log10_from f a d (e - 1)
  end.

Definition log10_floor (a d : Z) : Z :=
  log10_from 4 a d ((log2_floor a d + 1) * 30103 / 100000 + 1).

(** The digits of [Number::toString]: the decimal [s * 10^(n-k)] with the
    fewest digits [k] that reads back as the binary64 value [a / d]; among
    those of that length the nearest, and the even one on a tie.  The result
    is [(s, n)]. *)
Fixpoint shortest (fuel : nat) (k : Z) (a d e10 : Z) : Z * Z :=
  let p := e10 - k + 1 in
  let num := a * 10 ^ Z.max 0 (- p) in
  let den := d * 10 ^ Z.max 0 p in
  let lo := num / den in
  let hi := lo + 1 in
  let reads_back (s : Z) :=
    match round64 (inject_Z s * Qpower (10 # 1) p) with
    | Num v => Qeq_bool v (a # Z.to_pos d)
    | _ => false
    end in
  let lo_ok := (10 ^ (k - 1) <=? lo) && reads_back lo in
  let hi_ok := reads_back hi in
  let pick (s : Z) :=
    if s =? 10 ^ k then (10 ^ (k - 1), e10 + 2) else (s, e10 + 1) in
  match fuel with
  | O => pick lo
  | S f =>
      if lo_ok && hi_ok then
        match num - lo * den ?= hi * den - num with
        | Lt => pick lo
        | Gt => pick hi
        | Eq => if Z.even lo then pick lo else pick hi
        end
      else if lo_ok then pick lo
      else if hi_ok then pick hi
      else shortest f (k + 1) a d e10
  end.

Definition zeros (n : Z) : list ascii := repeat "0"%char (Z.to_nat n).

(** [Number::toString] of the positive binary64 value [a / d]: plain digits
    from [1e-6] up to [1e21], exponent notation outside. *)
Definition positive_toString (a d : Z) : list ascii :=
  let '(s, n) := shortest 17 1 a d (log10_floor a d) in
  let ds := Z_digits s in
  let k := Z.of_nat (List.length ds) in
  if (k <=? n) && (n <=? 21) then ds ++ zeros (n - k)
  else if (0 <? n) && (n <=? 21) then
    firstn (Z.to_nat n) ds ++ "."%char :: skipn (Z.to_nat n) ds
  else if (-6 <? n) && (n <=? 0) then
    "0"%char :: "."%char :: zeros (- n) ++ ds
  else
    let e := n - 1 in
    let exponent :=
      "e"%char :: (if e <? 0 then "-"%char else "+"%char)
        :: Z_digits (Z.abs e) in
    match ds with
    | [c] => c :: exponent
    | c :: rest => c :: "."%char :: rest ++ exponent
    | [] => exponent
    end.

(** [String(x)], [x.toString()] and [`${x}`] for a number. *)
Definition Number_toString (x : number) : string :=
  match x with
  | NaN => "NaN"
  | PosInf => "Infinity"
  | NegInf => "-Infinity"
  | Num q =>
      match Qnum q with
      | Z0 => "0"
      | Zpos a =>
          string_of_list_ascii (positive_toString (Zpos a) (Zpos (Qden q)))
      | Zneg a =>
          String "-"
            (string_of_list_ascii
               (positive_toString (Zpos a) (Zpos (Qden q))))
      end
  end.

End JS.

(* ================================================================== *)
(** * Containers: [Map] and [Array.prototype.sort] *)
(* ================================================================== *)

Module JSMap.

(** A [Map<string, V>]: entries in insertion order, keys pairwise distinct. *)
Definition t (V : Type) : Type := list (string * V).

Fixpoint get {V : Type} (k : string) (m : t V) : option V :=
  match m with
  | [] => None
  | (k', v) :: rest => if String.eqb k k' then Some v else get k rest
  end.

(** [m.set(k, v)]: overwrite in place, or append a new entry. *)
Fixpoint set {V : Type} (k : string) (v : V) (m : t V) : t V :=
  match m with
  | [] => [(k, v)]
  | (k', v') :: rest =>
      if String.eqb k k' then (k', v) :: rest else (k', v') :: set k v rest
  end.

Definition keys {V : Type} (m : t V) : list string := map fst m.

End JSMap.

Module JSArray.

Section Sort.
Context {A : Type}.
(** The comparator: negative, zero or positive. *)
Variable compareFn : A -> A -> Q.

(** [x] goes in front of the first element it does not compare greater
    than; with [sort] below this is the stable insertion sort, and the
    order produced by any stable sort for a consistent comparator. *)
Fixpoint insert (x : A) (l : list A) : list A :=
  match l with
  | [] => [x]
  | y :: rest =>
      if Qle_bool (compareFn x y) 0 then x :: y :: rest
      else y :: insert x rest
  end.

Definition sort (l : list A) : list A := fold_right insert [] l.
End Sort.

(** [a.at(-1)] *)
Definition at_last {A : Type} (l : list A) : option A :=
  match rev l with
  | x :: _ => Some x
  | [] => None
  end.

(** Assignment to the fields of the object [a.at(-1)] refers to: the last
    element is replaced by its updated version. *)
Definition update_last {A : Type} (f : A -> A) (l : list A) : list A :=
  match rev l with
  | x :: before => rev (f x :: before)
  | [] => []
  end.

End JSArray.

(* ================================================================== *)
(** * Regular expressions (the fragment the route uses) *)
(* ================================================================== *)

Module RegExp.

Inductive regex : Type :=
| Range (lo hi : ascii)            (* a class [lo-hi]; a literal is [c-c] *)
| Cat (r1 r2 : regex)
| Alt (r1 r2 : regex)
| Opt (r : regex)                  (* greedy [r?] *)
| Group (i : nat) (r : regex).     (* capturing group number [i] *)

Definition Lit (c : ascii) : regex := Range c c.

Definition in_class (lo hi c : ascii) : bool :=
  JS.in_range (nat_of_ascii lo) (nat_of_ascii hi) c.

(** Captured substrings, latest first. *)
Definition captures : Type := list (nat * string).

Fixpoint capture (i : nat) (caps : captures) : option string :=
  match caps with
  | [] => None
  | (j, s) :: rest => if Nat.eqb i j then Some s else capture i rest
  end.

(** Backtracking matcher in continuation-passing style: [run r s caps k]
    matches a prefix of [s] against [r] and hands the rest to [k]; the first
    alternative that lets [k] succeed wins. *)
Fixpoint run (r : regex) (s : list ascii) (caps : captures)
    (k : list ascii -> captures -> option captures) : option captures :=
  match r with
  | Range lo hi =>
      match s with
      | c :: rest => if in_class lo hi c then k rest caps else None
      | [] => None
      end
  | Cat r1 r2 => run r1 s caps (fun s' caps' => run r2 s' caps' k)
  | Alt r1 r2 =>
      match run r1 s caps k with
      | Some res => Some res
      | None => run r2 s caps k
      end
  | Opt r1 =>
      match run r1 s caps k with
      | Some res => Some res
      | None => k s caps
      end
  | Group i r1 =>
      run r1 s caps
        (fun s' caps' =>
           let matched := firstn (List.length s - List.length s') s in
           k s' ((i, string_of_list_ascii matched) :: caps'))
  end.

(** [s.match(/^r$/)]: the whole string must match. *)
Definition match_whole (r : regex) (s : string) : option captures :=
  run r (list_ascii_of_string s) []
    (fun rest caps => match rest with [] => Some caps | _ => None end).

End RegExp.

(* ================================================================== *)
(** * [Intl.DateTimeFormat] in the civil time zone *)
(* ================================================================== *)

Module Intl.

(** One element of [formatToParts]: its [type] and its [value]. *)
Definition part : Type := (string * string)%type.

Definition two_digit (n : Z) : string :=
  JS.padStart0 2 (string_of_list_ascii (JS.Z_digits n)).

Definition weekday_names : list string :=
  ["Mon"; "Tue"; "Wed"; "Thu"; "Fri"; "Sat"; "Sun"].

Section Zone.
(** Offset of the civil zone from UTC, in minutes, at an instant (for
    [America/Chicago]: -360 in winter, -300 in summer). *)
Variable utcOffsetMinutes : Z -> Z.

Definition localMillis (instant : Z) : Z :=
  instant + utcOffsetMinutes instant * 60000.

(** Days since Thursday 1 January 1970, in local time. *)
Definition localDay (instant : Z) : Z := localMillis instant / 86400000.

(** Hour of the civil day, 0 to 23 ([hour12: false], hour cycle h23). *)
Definition localHour (instant : Z) : Z :=
  (localMillis instant mod 86400000) / 3600000.

Definition localMinute (instant : Z) : Z :=
  (localMillis instant mod 3600000) / 60000.

(** [weekday: "short"] *)
Definition weekdayShort (instant : Z) : string :=
  nth (Z.to_nat ((localDay instant + 3) mod 7)) weekday_names "".

(** [NOW_FORMATTER.formatToParts]: weekday, hour and minute. *)
Definition nowParts (instant : Z) : list part :=
  [("weekday", weekdayShort instant); ("literal", " ");
   ("hour", two_digit (localHour instant)); ("literal", ":");
   ("minute", two_digit (localMinute instant))].

(** [TIME_FORMATTER.formatToParts]: hour and minute. *)
Definition timeParts (instant : Z) : list part :=
  [("hour", two_digit (localHour instant)); ("literal", ":");
   ("minute", two_digit (localMinute instant))].
End Zone.

(** [parts.find((part) => part.type === ty)?.value] *)
Definition find_value (ty : string) (parts : list part) : option string :=
  match find (fun p => String.eqb (fst p) ty) parts with
  | Some p => Some (snd p)
  | None => None
  end.

Definition WEEKDAY_LOOKUP : list (string * Z) :=
  [("Mon", 1); ("Tue", 2); ("Wed", 3); ("Thu", 4); ("Fri", 5); ("Sat", 6);
   ("Sun", 7)].

(** [WEEKDAY_LOOKUP[label]], [None] for [undefined]. *)
Fixpoint lookup (label : string) (table : list (string * Z)) : option Z :=
  match table with
  | [] => None
  | (k, v) :: rest => if String.eqb label k then Some v else lookup label rest
  end.

End Intl.

(* ================================================================== *)
(** * The availability route *)
(* ================================================================== *)

Module Route.
Import JS.

Record BusyBlockRow : Type := mkBusyBlockRow {
  user_id : string;
  start_time : string;
  end_time : string
}.

Record BusyInterval : Type := mkBusyInterval {
  startMinutes : Q;
  endMinutes : Q;
  iv_start_time : string;
  iv_end_time : string
}.

(** [timeToMinutes].  A missing component is [undefined], which
    [Number.isFinite] refuses like NaN.  The three components are finite, the
    result need not be: [safeHours * 60] can overflow. *)
Definition timeToMinutes (timeValue : string) : number :=
  let parts := map Number (split ":" timeValue) in
  let hours := nth 0 parts NaN in
  let minutes := nth 1 parts NaN in
  let seconds := nth 2 parts NaN in
  let safeHours := finite_or_zero hours in
  let safeMinutes := finite_or_zero minutes in
  let safeSeconds := finite_or_zero seconds in
  add (add (mul (Num safeHours) (Num 60)) (Num safeMinutes))
    (div (Num safeSeconds) 60).

(** [formatTime] of the route: a 12-hour label. *)
Definition formatTime (timeValue : string) : string :=
  let parts := split ":" timeValue in
  let hoursRaw := nth_error parts 0 in
  let minutesRaw := nth_error parts 1 in
  let hours := Number_opt hoursRaw in
  let minutes := Number_opt minutesRaw in
  let safeHours := finite_or_zero hours in
  let safeMinutes := finite_or_zero minutes in
  let period := if Qle_bool 12 safeHours then "PM" else "AM" in
  let displayHours := add (rem (add (Num safeHours) (Num 11)) 12) (Num 1) in
  (Number_toString displayHours ++ ":"
     ++ padStart0 2 (Number_toString (Num safeMinutes)) ++ period)%string.

(** The comparator handed to [sort], which uses the sign of the result only.
    The difference of two binary64 values is a multiple of [2^-1074], so its
    rounding (to a finite value or an infinity) has the sign of the exact
    difference, which is what is computed here. *)
Definition compareIntervals (a b : BusyInterval) : Q :=
  if negb (Qeq_bool (startMinutes a) (startMinutes b))
  then (startMinutes a - startMinutes b)%Q
  else (endMinutes a - endMinutes b)%Q.

(** First loop of [mergeBusyIntervals]: one block.  A row with a conversion
    that is not finite is skipped, and so is one whose converted end is not
    after its converted start. *)
Definition group_step (grouped : JSMap.t (list BusyInterval))
    (block : BusyBlockRow) : JSMap.t (list BusyInterval) :=
  match timeToMinutes (start_time block), timeToMinutes (end_time block) with
  | Num startMinutes, Num endMinutes =>
      if Qle_bool endMinutes startMinutes then grouped
      else
        let existing :=
          match JSMap.get (user_id block) grouped with
          | Some l => l
          | None => []
          end in
        JSMap.set (user_id block)
          (existing ++ [mkBusyInterval startMinutes endMinutes
                          (start_time block) (end_time block)])
          grouped
  | _, _ => grouped
  end.

(** Inner loop of the second phase: one sorted interval against the array
    [merged] built so far. *)
Definition merge_step (merged : list BusyInterval) (interval : BusyInterval)
    : list BusyInterval :=
  match JSArray.at_last merged with
  | None => merged ++ [interval]
  | Some last =>
      if Qle_bool (startMinutes interval) (endMinutes last) then
        if negb (Qle_bool (endMinutes interval) (endMinutes last)) then
          JSArray.update_last
            (fun l => mkBusyInterval (startMinutes l) (endMinutes interval)
                        (iv_start_time l) (iv_end_time interval))
            merged
        else merged
      else merged ++ [interval]
  end.

Definition merge_user (intervals : list BusyInterval) : list BusyInterval :=
  fold_left merge_step (JSArray.sort compareIntervals intervals) [].

Definition mergeBusyIntervals (blocks : list BusyBlockRow)
    : JSMap.t (list BusyInterval) :=
  let grouped := fold_left group_step blocks [] in
  fold_left
    (fun mergedByUser '(userId, intervals) =>
       JSMap.set userId (merge_user intervals) mergedByUser)
    grouped [].

(** [/^([01]?\d|2[0-3]):([0-5]\d)(?::([0-5]\d))?$/] *)
Definition time_regex : RegExp.regex :=
  let digit := RegExp.Range "0" "9" in
  RegExp.Cat
    (RegExp.Group 1
       (RegExp.Alt
          (RegExp.Cat (RegExp.Opt (RegExp.Range "0" "1")) digit)
          (RegExp.Cat (RegExp.Lit "2") (RegExp.Range "0" "3"))))
    (RegExp.Cat (RegExp.Lit ":")
       (RegExp.Cat
          (RegExp.Group 2 (RegExp.Cat (RegExp.Range "0" "5") digit))
          (RegExp.Opt
             (RegExp.Cat (RegExp.Lit ":")
                (RegExp.Group 3 (RegExp.Cat (RegExp.Range "0" "5") digit)))))).

Record ParsedTime : Type := mkParsedTime {
  minutes : number;
  label : string
}.

(** [parseTimeParam]; [None] as argument is [null], and so is [None] as the
    result. *)
Definition parseTimeParam (timeValue : option string) : option ParsedTime :=
  match timeValue with
  | None => None
  | Some EmptyString => None
  | Some timeValue =>
      match RegExp.match_whole time_regex timeValue with
      | None => None
      | Some caps =>
          let group i :=
            match RegExp.capture i caps with Some s => s | None => "" end in
          let seconds :=
            match RegExp.capture 3 caps with Some s => s | None => "00" end in
          let normalized :=
            (group 1%nat ++ ":" ++ group 2%nat ++ ":" ++ seconds)%string in
          Some (mkParsedTime (timeToMinutes normalized) (formatTime normalized))
      end
  end.

(** ** The GET handler *)

Record CurrentTimeParts : Type := mkCurrentTimeParts {
  weekday : Z;
  hours : Q;
  minutes_now : Q
}.

(** The value of [Number(s)] used in arithmetic without a finiteness guard;
    the formatter only produces two-digit fields, so NaN does not occur
    ([ParseIcsFacts.Number_two_digit]). *)
Definition Number_value (s : string) : Q := finite_or_zero (Number s).

Definition or_else {A : Type} (x : option A) (d : A) : A :=
  match x with Some a => a | None => d end.

Record Profile : Type := mkProfile { display_name : option string }.

(** The join [profiles ( display_name )] arrives as an array, an object or
    null. *)
Inductive ProfilesRaw : Type :=
| ProfilesArray (l : list Profile)
| ProfilesObject (p : Profile)
| ProfilesNull.

Record MemberRowRaw : Type := mkMemberRowRaw {
  raw_user_id : string;
  raw_profiles : ProfilesRaw
}.

Record MemberRow : Type := mkMemberRow {
  member_user_id : string;
  profiles : option Profile
}.

(** A store answer [{ data, error }]. *)
Record QueryResult (A : Type) : Type := mkQueryResult {
  data : option A;
  error : bool
}.
Arguments mkQueryResult {A} _ _.
Arguments data {A} _.
Arguments error {A} _.

(** What the store answers to the reads of one request. *)
Record Store : Type := mkStore {
  membership : QueryResult unit;
  group_members : QueryResult (list MemberRowRaw);
  calendar_uploads : QueryResult (list string);
  (** answer to the read of [weekday_busy_blocks] for a weekday (restricted
      by the store to the members of the group) *)
  weekday_busy_blocks : Z -> QueryResult (list BusyBlockRow)
}.

(** The reads a request issues, in order. *)
Inductive Read : Type :=
| ReadMembership
| ReadMembers
| ReadUploads
| ReadBusyBlocks (weekday : Z).

Record Request : Type := mkRequest {
  claims_sub : option string;   (** authenticated user, if any *)
  timeParam : option string;    (** the [time] query parameter *)
  now : Z                       (** [new Date()] *)
}.

Record FreeEntry : Type := mkFreeEntry {
  free_user_id : string;
  free_display_name : string;
  free_until : option string
}.

Record BusyEntry : Type := mkBusyEntry {
  busy_user_id : string;
  busy_display_name : string;
  busy_until : string
}.

Record UnknownEntry : Type := mkUnknownEntry {
  unknown_user_id : string;
  unknown_display_name : string
}.

Record Payload : Type := mkPayload {
  free : list FreeEntry;
  busy : list BusyEntry;
  unknown : list UnknownEntry;
  checked_time : option string
}.

Inductive Response : Type :=
| ErrorResponse (status : Z) (message : string)
| OkResponse (payload : Payload).

Record BusyMapEntry : Type := mkBusyMapEntry {
  bm_busy_until : string;
  bm_endMinutes : Q
}.

Record NextBusyEntry : Type := mkNextBusyEntry {
  nb_startMinutes : Q;
  nb_startLabel : string
}.

Definition Maps : Type :=
  (JSMap.t BusyMapEntry * JSMap.t NextBusyEntry)%type.

(** [a < b] on finite numbers. *)
Definition Qlt_bool (a b : Q) : bool := negb (Qle_bool b a).

(** Body of the scan over the merged intervals of one user. *)
Definition scan_interval (referenceMinutes : number) (userId : string)
    (maps : Maps) (interval : BusyInterval) : Maps :=
  let '(busyMap, nextBusyMap) := maps in
  let nextBusyMap :=
    if lt referenceMinutes (Num (startMinutes interval)) then
      match JSMap.get userId nextBusyMap with
      | Some existingNext =>
          if Qlt_bool (startMinutes interval) (nb_startMinutes existingNext)
          then JSMap.set userId
                 (mkNextBusyEntry (startMinutes interval)
                    (formatTime (iv_start_time interval))) nextBusyMap
          else nextBusyMap
      | None =>
          JSMap.set userId
            (mkNextBusyEntry (startMinutes interval)
               (formatTime (iv_start_time interval))) nextBusyMap
      end
    else nextBusyMap in
  let busyMap :=
    if le (Num (startMinutes interval)) referenceMinutes
       && lt referenceMinutes (Num (endMinutes interval)) then
      match JSMap.get userId busyMap with
      | Some existing =>
          if Qlt_bool (bm_endMinutes existing) (endMinutes interval)
          then JSMap.set userId
                 (mkBusyMapEntry (formatTime (iv_end_time interval))
                    (endMinutes interval)) busyMap
          else busyMap
      | None =>
          JSMap.set userId
            (mkBusyMapEntry (formatTime (iv_end_time interval))
               (endMinutes interval)) busyMap
      end
    else busyMap in
  (busyMap, nextBusyMap).

(** The loops that fill [busyMap] and [nextBusyMap]. *)
Definition build_maps (referenceMinutes : number)
    (mergedBusyBlocksByUser : JSMap.t (list BusyInterval)) : Maps :=
  fold_left
    (fun maps '(userId, intervals) =>
       fold_left (scan_interval referenceMinutes userId) intervals maps)
    mergedBusyBlocksByUser ([], []).

Definition Set_has (x : string) (s : list string) : bool :=
  existsb (String.eqb x) s.

(** [member.profiles?.display_name?.trim() || member.user_id] *)
Definition member_name (member : MemberRow) : string :=
  let displayName :=
    match profiles member with
    | Some p =>
        match display_name p with
        | Some n =>
            Some (string_of_list_ascii (JS.trim (list_ascii_of_string n)))
        | None => None
        end
    | None => None
    end in
  match displayName with
  | Some EmptyString | None => member_user_id member
  | Some n => n
  end.

(** Status of one member: the body of the last loop. *)
Inductive MemberStatus : Type :=
| Unknown (entry : UnknownEntry)
| Busy (entry : BusyEntry)
| Free (entry : FreeEntry).

Definition classify_member (uploadedSet : list string) (maps : Maps)
    (member : MemberRow) : MemberStatus :=
  let '(busyMap, nextBusyMap) := maps in
  let name := member_name member in
  if negb (Set_has (member_user_id member) uploadedSet) then
    Unknown (mkUnknownEntry (member_user_id member) name)
  else
    match JSMap.get (member_user_id member) busyMap with
    | Some busyEntry =>
        Busy (mkBusyEntry (member_user_id member) name
                (bm_busy_until busyEntry))
    | None =>
        let nextBusy := JSMap.get (member_user_id member) nextBusyMap in
        Free (mkFreeEntry (member_user_id member) name
                (match nextBusy with
                 | Some n => Some (nb_startLabel n)
                 | None => None
                 end))
    end.

(** The three arrays, each member pushed onto the one of its status. *)
Definition push_status (lists : list FreeEntry * list BusyEntry * list UnknownEntry)
    (st : MemberStatus) : list FreeEntry * list BusyEntry * list UnknownEntry :=
  let '(free, busy, unknown) := lists in
  match st with
  | Unknown e => (free, busy, unknown ++ [e])
  | Busy e => (free, busy ++ [e], unknown)
  | Free e => (free ++ [e], busy, unknown)
  end.

Definition classify (normalizedMembers : list MemberRow)
    (uploadedSet : list string) (maps : Maps)
    : list FreeEntry * list BusyEntry * list UnknownEntry :=
  fold_left
    (fun lists member =>
       push_status lists (classify_member uploadedSet maps member))
    normalizedMembers ([], [], []).

Definition normalize_member (member : MemberRowRaw) : MemberRow :=
  let profile :=
    match raw_profiles member with
    | ProfilesArray l => nth_error l 0
    | ProfilesObject p => Some p
    | ProfilesNull => None
    end in
  mkMemberRow (raw_user_id member) profile.

Section Zone.
Variable utcOffsetMinutes : Z -> Z.

Definition getCurrentTimeParts (instant : Z) : CurrentTimeParts :=
  let parts := Intl.nowParts utcOffsetMinutes instant in
  let weekdayLabel := Intl.find_value "weekday" parts in
  let hours := or_else (Intl.find_value "hour" parts) "00" in
  let minutes := or_else (Intl.find_value "minute" parts) "00" in
  let weekday :=
    match weekdayLabel with
    | Some EmptyString | None => None
    | Some l => Intl.lookup l Intl.WEEKDAY_LOOKUP
    end in
  mkCurrentTimeParts (or_else weekday 1) (Number_value hours)
    (Number_value minutes).

(** [GET], with the reads it issued. *)
Definition GET (request : Request) (store : Store)
    : Response * list Read :=
  match claims_sub request with
  | None | Some EmptyString => (ErrorResponse 401 "Unauthorized", [])
  | Some _ =>
  let parsedTime := parseTimeParam (timeParam request) in
  let checkedTime := option_map label parsedTime in
  match timeParam request, parsedTime with
  | Some (String _ _), None =>
      (ErrorResponse 400 "Invalid time format. Use HH:MM.", [])
  | _, _ =>
  let reads := [ReadMembership] in
  if error (membership store) then
    (ErrorResponse 500 "Failed to validate membership", reads)
  else
  match data (membership store) with
  | None => (ErrorResponse 403 "Forbidden", reads)
  | Some _ =>
  let reads := reads ++ [ReadMembers] in
  match error (group_members store), data (group_members store) with
  | true, _ | _, None =>
      (ErrorResponse 500 "Failed to load group members", reads)
  | false, Some memberRows =>
  let normalizedMembers := map normalize_member memberRows in
  let userIds := map member_user_id normalizedMembers in
  match userIds with
  | [] => (OkResponse (mkPayload [] [] [] checkedTime), reads)
  | _ =>
  let reads := reads ++ [ReadUploads] in
  if error (calendar_uploads store) then
    (ErrorResponse 500 "Failed to load calendar status", reads)
  else
  let uploadedSet := or_else (data (calendar_uploads store)) [] in
  let nowParts := getCurrentTimeParts (now request) in
  let weekday := weekday nowParts in
  let isWeekday := (1 <=? weekday) && (weekday <=? 5) in
  let nowMinutes :=
    add (mul (Num (hours nowParts)) (Num 60)) (Num (minutes_now nowParts)) in
  let referenceMinutes :=
    match parsedTime with
    | Some t => minutes t
    | None => nowMinutes
    end in
  let finish (busyBlocks : list BusyBlockRow) (reads : list Read) :=
    let mergedBusyBlocksByUser := mergeBusyIntervals busyBlocks in
    let maps := build_maps referenceMinutes mergedBusyBlocksByUser in
    let '(free, busy, unknown) :=
      classify normalizedMembers uploadedSet maps in
    (OkResponse (mkPayload free busy unknown checkedTime), reads) in
  if isWeekday then
    let reads := reads ++ [ReadBusyBlocks weekday] in
    let answer := weekday_busy_blocks store weekday in
    if error answer then
      (ErrorResponse 500 "Failed to load busy blocks", reads)
    else finish (or_else (data answer) []) reads
  else finish [] reads
  end end end end end.
End Zone.

End Route.

(* ================================================================== *)
(** * ICS normalisation ([parse-ics.ts]) *)
(* ================================================================== *)

Module ParseIcs.

Record BusyBlockInput : Type := mkBusyBlockInput {
  weekday : Z;
  start_time : string;
  end_time : string
}.

(** An element of [byweekday]: a number, an object with an optional [weekday]
    field, or null / undefined. *)
Inductive WeekdayEntry : Type :=
| EntryNumber (n : Z)
| EntryObject (weekday : option Z)
| EntryNull.

(** [byweekday]: an array of entries, one object, or one number. *)
Inductive ByWeekday : Type :=
| ByArray (entries : list WeekdayEntry)
| ByObject (weekday : option Z)
| ByNumber (n : Z).

Record RRuleOptions : Type := mkRRuleOptions {
  byweekday : option ByWeekday
}.

Record RRule : Type := mkRRule {
  options : option RRuleOptions
}.

(** A record of the parsed calendar; absent fields are [None], dates are
    instants in milliseconds. *)
Record ParsedEvent : Type := mkParsedEvent {
  type : option string;
  start : option Z;
  end_ : option Z;
  datetype : option string;
  rrule : option RRule
}.

Definition WEEKDAY_MIN : Z := 1.
Definition WEEKDAY_MAX : Z := 5.

(** [normalized.add(x)] on a [Set<number>] kept in insertion order. *)
Definition Set_add (x : Z) (s : list Z) : list Z :=
  if existsb (Z.eqb x) s then s else s ++ [x].

(** Body of the loop over the entries of [byweekday]. *)
Definition add_entry (normalized : list Z) (entry : WeekdayEntry) : list Z :=
  let weekday :=
    match entry with
    | EntryNumber n => Some n
    | EntryObject w => w
    | EntryNull => None
    end in
  match weekday with
  | Some w => Set_add (w + 1) normalized
  | None => normalized
  end.

Section Zone.
Variable utcOffsetMinutes : Z -> Z.

(** [formatTime] of the normaliser: the wall clock of an instant, seconds
    forced to [00]. *)
Definition formatTime (value : Z) : string :=
  let parts := Intl.timeParts utcOffsetMinutes value in
  let hours := Route.or_else (Intl.find_value "hour" parts) "00" in
  let minutes := Route.or_else (Intl.find_value "minute" parts) "00" in
  (hours ++ ":" ++ minutes ++ ":00")%string.

Definition getWeekdayInZone (value : Z) : option Z :=
  let label := Intl.weekdayShort utcOffsetMinutes value in
  Intl.lookup label Intl.WEEKDAY_LOOKUP.

Definition extractWeekdays (event : ParsedEvent) : list Z :=
  let byweekday :=
    match rrule event with
    | Some r =>
        match options r with
        | Some o => byweekday o
        | None => None
        end
    | None => None
    end in
  let fromRule :=
    match byweekday with
    | Some bw =>
        let weekdays :=
          match bw with
          | ByArray entries => entries
          | ByObject w => [EntryObject w]
          | ByNumber n => [EntryNumber n]
          end in
        fold_left add_entry weekdays []
    | None => []
    end in
  match fromRule with
  | _ :: _ => fromRule
  | [] =>
      match start event with
      | Some d =>
          match getWeekdayInZone d with
          | Some w => if w =? 0 then [] else [w]
          | None => []
          end
      | None => []
      end
  end.

(** Body of the loop over the resolved weekdays. *)
Definition push_weekday (startTime endTime : string)
    (blocks : list BusyBlockInput) (weekday : Z) : list BusyBlockInput :=
  if (weekday <? WEEKDAY_MIN) || (WEEKDAY_MAX <? weekday) then blocks
  else blocks ++ [mkBusyBlockInput weekday startTime endTime].

(** Body of the loop over the entries of the parsed calendar. *)
Definition entry_step (blocks : list BusyBlockInput)
    (entry : option ParsedEvent) : list BusyBlockInput :=
  match entry with
  | None => blocks
  | Some entry =>
      if negb (match type entry with
               | Some t => String.eqb t "VEVENT"
               | None => false
               end) then blocks
      else
        match start entry, end_ entry with
        | Some entry_start, Some entry_end =>
            if match datetype entry with
               | Some t => String.eqb t "date"
               | None => false
               end then blocks
            else if entry_end <=? entry_start then blocks
            else
              let weekdays := extractWeekdays entry in
              match weekdays with
              | [] => blocks
              | _ =>
                  let startTime := formatTime entry_start in
                  let endTime := formatTime entry_end in
                  fold_left (push_weekday startTime endTime) weekdays blocks
              end
        | _, _ => blocks
        end
  end.

(** [parseIcsToBusyBlocks], from the values of the record the ICS grammar
    parser ([node-ical], outside the repository) returns. *)
Definition parseIcsToBusyBlocks (parsed : list (option ParsedEvent))
    : list BusyBlockInput :=
  fold_left entry_step parsed [].
End Zone.

End ParseIcs.

(* ================================================================== *)
(** * The leave route and its button *)
(* ================================================================== *)

Module Leave.

Record GroupRow : Type := mkGroupRow {
  created_by : option string
}.

(** What the store answers to the two statements of one request: the
    [groups] row with the requested id, and the rows the delete on
    [group_members] returned. *)
Record Store : Type := mkStore {
  group : Route.QueryResult GroupRow;
  deletedRows : Route.QueryResult (list string)
}.

(** The statements a request issues, in order. *)
Inductive Statement : Type :=
| SelectGroup
| DeleteMembership.

Record Request : Type := mkRequest {
  claims_sub : option string;   (** authenticated user, if any *)
  groupId : string
}.

Inductive Response : Type :=
| ErrorResponse (status : Z) (message : string)
| LeftResponse (groupId : string).    (** 200, [{ left: true, groupId }] *)

(** [POST], with the statements it issued. *)
Definition POST (request : Request) (store : Store)
    : Response * list Statement :=
  match claims_sub request with
  | None | Some EmptyString => (ErrorResponse 401 "Unauthorized", [])
  | Some userId =>
      let issued := [SelectGroup] in
      match Route.error (group store), Route.data (group store) with
      | true, _ | _, None => (ErrorResponse 404 "Group not found", issued)
      | false, Some group =>
          if match created_by group with
             | Some owner => String.eqb owner userId
             | None => false
             end
          then (ErrorResponse 400 "Group owners cannot leave their own group.",
                issued)
          else
            let issued := issued ++ [DeleteMembership] in
            if Route.error (deletedRows store) then
              (ErrorResponse 500 "Failed to leave group", issued)
            else
              match Route.data (deletedRows store) with
              | None | Some [] =>
                  (ErrorResponse 404 "You are not a member of this group",
                   issued)
              | Some (_ :: _) => (LeftResponse (groupId request), issued)
              end
      end
  end.

End Leave.

Module LeaveGroupButton.

(** The two pieces of component state. *)
Record State : Type := mkState {
  isLeaving : bool;
  error : option string
}.

(** Calls on the router. *)
Inductive Navigation : Type :=
| Push (path : string)
| Refresh.

(** How the [fetch] of [onLeave] ends: it rejects, or it answers with
    [response.ok] and a body; the body is [None] when [response.json()]
    rejects (caught as null), otherwise its [error] field, if it has one. *)
Inductive Outcome : Type :=
| Rejected
| Responded (ok : bool) (payload : option (option string)).

(** [onLeave] up to the [await]: the button is disabled, the message
    cleared. *)
Definition onLeave_begin (st : State) : State := mkState true None.

(** [onLeave] from the [await] on, the [finally] clause included. *)
Definition onLeave_settle (outcome : Outcome) (st : State)
    : State * list Navigation :=
  match outcome with
  | Rejected =>
      (mkState false (Some "Something went wrong. Please try again."), [])
  | Responded ok payload =>
      if negb ok then
        let message :=
          match payload with
          | Some (Some e) => e
          | _ => "Unable to leave group."
          end in
        (mkState false (Some message), [])
      else (mkState false (error st), [Push "/dashboard"; Refresh])
  end.

Definition onLeave (outcome : Outcome) (st : State)
    : State * list Navigation :=
  onLeave_settle outcome (onLeave_begin st).

(** [{error ? <span>{error}</span> : null}]: the message on screen. *)
Definition shown_error (st : State) : option string :=
  match error st with
  | Some (String _ _ as e) => Some e
  | _ => None
  end.

(** The text of the button. *)
Definition button_label (st : State) : string :=
  if isLeaving st then "Leaving..." else "Leave group".

(** What [fetch] sees of an answer of the leave route: [response.ok] is a
    status from 200 to 299, and the body of an error answer is
    [{ error: message }]. *)
Definition outcome_of (response : Leave.Response) : Outcome :=
  match response with
  | Leave.ErrorResponse status message =>
      Responded ((200 <=? status) && (status <=? 299)) (Some (Some message))
  | Leave.LeftResponse _ => Responded true (Some None)
  end.

End LeaveGroupButton.

(* ================================================================== *)
(** * Properties stated by the specification *)
(* ================================================================== *)

Module Props.
Import Route.

(** ** Merged intervals *)

(** [endMinutes > startMinutes] *)
Definition proper (iv : BusyInterval) : Prop :=
  (startMinutes iv < endMinutes iv)%Q.

(** Consecutive intervals [a, b] satisfy [b.startMinutes > a.endMinutes]. *)
Fixpoint separated (l : list BusyInterval) : Prop :=
  match l with
  | a :: (b :: _) as rest => (endMinutes a < startMinutes b)%Q /\ separated rest
  | _ => True
  end.

(** Ascending by [startMinutes]. *)
Fixpoint ascending (l : list BusyInterval) : Prop :=
  match l with
  | a :: (b :: _) as rest =>
      (startMinutes a <= startMinutes b)%Q /\ ascending rest
  | _ => True
  end.

(** The minute fields are what the clock strings convert to. *)
Definition consistent (iv : BusyInterval) : Prop :=
  timeToMinutes (iv_start_time iv) = JS.Num (startMinutes iv)
  /\ timeToMinutes (iv_end_time iv) = JS.Num (endMinutes iv).

(** A row whose converted end is not after its converted start:
    [endMinutes <= startMinutes]. *)
Definition inverted (block : BusyBlockRow) : bool :=
  JS.le (timeToMinutes (end_time block)) (timeToMinutes (start_time block)).

(** A row the first loop skips: one of its conversions is not finite, or it
    is inverted. *)
Definition skipped (block : BusyBlockRow) : bool :=
  negb (JS.Number_isFinite (timeToMinutes (start_time block)))
  || negb (JS.Number_isFinite (timeToMinutes (end_time block)))
  || inverted block.

(** The intervals of a user in a map ([[]] when the user has no entry). *)
Definition intervals_of (userId : string) (m : JSMap.t (list BusyInterval))
    : list BusyInterval :=
  or_else (JSMap.get userId m) [].

(** Reading the merged output back as rows: one row per interval, with the
    user of its entry and its two clock strings. *)
Definition rows_of (m : JSMap.t (list BusyInterval)) : list BusyBlockRow :=
  flat_map
    (fun '(userId, intervals) =>
       map (fun iv => mkBusyBlockRow userId (iv_start_time iv) (iv_end_time iv))
         intervals)
    m.

(** The running interval of the sweep kept apart from the closed ones: the
    recursion [merge_step] performs on the tail of the array. *)
Fixpoint sweep_from (last : BusyInterval) (rest : list BusyInterval)
    : list BusyInterval :=
  match rest with
  | [] => [last]
  | interval :: rest' =>
      if Qle_bool (startMinutes interval) (endMinutes last) then
        if negb (Qle_bool (endMinutes interval) (endMinutes last)) then
          sweep_from
            (mkBusyInterval (startMinutes last) (endMinutes interval)
               (iv_start_time last) (iv_end_time interval)) rest'
        else sweep_from last rest'
      else last :: sweep_from interval rest'
  end.

(** ** Classification *)

(** [[start, end)] contains the reference minute. *)
Definition contains (referenceMinutes : Q) (iv : BusyInterval) : Prop :=
  (startMinutes iv <= referenceMinutes)%Q
  /\ (referenceMinutes < endMinutes iv)%Q.

(** Starts strictly after the reference minute. *)
Definition later (referenceMinutes : Q) (iv : BusyInterval) : Prop :=
  (referenceMinutes < startMinutes iv)%Q.

(** [iv] is an earliest interval of [l] that starts after the reference. *)
Definition earliest_later (referenceMinutes : Q) (l : list BusyInterval)
    (iv : BusyInterval) : Prop :=
  In iv l /\ later referenceMinutes iv
  /\ forall iv', In iv' l -> later referenceMinutes iv' ->
                 (startMinutes iv <= startMinutes iv')%Q.

(** What the scan leaves in [busyMap] for one user. *)
Definition busy_step (referenceMinutes : Q) (acc : option BusyMapEntry)
    (interval : BusyInterval) : option BusyMapEntry :=
  if Qle_bool (startMinutes interval) referenceMinutes
     && Qlt_bool referenceMinutes (endMinutes interval) then
    match acc with
    | Some existing =>
        if Qlt_bool (bm_endMinutes existing) (endMinutes interval)
        then Some (mkBusyMapEntry (formatTime (iv_end_time interval))
                     (endMinutes interval))
        else acc
    | None =>
        Some (mkBusyMapEntry (formatTime (iv_end_time interval))
                (endMinutes interval))
    end
  else acc.

(** What the scan leaves in [nextBusyMap] for one user. *)
Definition next_step (referenceMinutes : Q) (acc : option NextBusyEntry)
    (interval : BusyInterval) : option NextBusyEntry :=
  if Qlt_bool referenceMinutes (startMinutes interval) then
    match acc with
    | Some existingNext =>
        if Qlt_bool (startMinutes interval) (nb_startMinutes existingNext)
        then Some (mkNextBusyEntry (startMinutes interval)
                     (formatTime (iv_start_time interval)))
        else acc
    | None =>
        Some (mkNextBusyEntry (startMinutes interval)
                (formatTime (iv_start_time interval)))
    end
  else acc.

(** The entries the scan leaves for a user whose merged intervals are [l]. *)
Definition busy_of (referenceMinutes : Q) (l : list BusyInterval)
    : option BusyMapEntry :=
  fold_left (busy_step referenceMinutes) l None.

Definition next_of (referenceMinutes : Q) (l : list BusyInterval)
    : option NextBusyEntry :=
  fold_left (next_step referenceMinutes) l None.

(** The three arrays of the payload, read off the statuses. *)
Definition free_entries (statuses : list MemberStatus) : list FreeEntry :=
  flat_map (fun st => match st with Free e => [e] | _ => [] end) statuses.

Definition busy_entries (statuses : list MemberStatus) : list BusyEntry :=
  flat_map (fun st => match st with Busy e => [e] | _ => [] end) statuses.

Definition unknown_entries (statuses : list MemberStatus)
    : list UnknownEntry :=
  flat_map (fun st => match st with Unknown e => [e] | _ => [] end) statuses.

(** ** The [time] parameter, in the words of the specification *)

Definition all_digits (s : string) : bool :=
  forallb JS.is_digit (list_ascii_of_string s).

Definition decimal_value (s : string) : Z :=
  JS.digits_value 10 (list_ascii_of_string s).

(** One or two digits, value 0 to 23. *)
Definition hour_field (s : string) : Prop :=
  (String.length s = 1%nat \/ String.length s = 2%nat)
  /\ all_digits s = true /\ decimal_value s <= 23.

(** Two digits, value 0 to 59: a minute or a second. *)
Definition sixty_field (s : string) : Prop :=
  String.length s = 2%nat /\ all_digits s = true /\ decimal_value s <= 59.

(** [H:MM] or [HH:MM], optionally followed by [:SS]. *)
Definition clock_form (s : string) : Prop :=
  exists h m,
    hour_field h /\ sixty_field m
    /\ (s = (h ++ ":" ++ m)%string
        \/ exists sec, sixty_field sec
                       /\ s = (h ++ ":" ++ m ++ ":" ++ sec)%string).

(** ** The loops of [mergeBusyIntervals] *)

(** The interval a row that is not skipped is turned into by the first loop. *)
Definition interval_of_row (block : BusyBlockRow) : BusyInterval :=
  mkBusyInterval (JS.finite_or_zero (timeToMinutes (start_time block)))
    (JS.finite_or_zero (timeToMinutes (end_time block)))
    (start_time block) (end_time block).

(** What holds of the intervals collected for a user by the first loop. *)
Definition grouped_ok (l : list BusyInterval) : Prop :=
  l <> [] /\ Forall proper l /\ Forall consistent l.

(** What holds of the merged intervals of a user. *)
Definition merged_ok (l : list BusyInterval) : Prop :=
  l <> [] /\ Forall proper l /\ separated l /\ Forall consistent l.

(** Second loop of [mergeBusyIntervals], entry by entry. *)
Definition merge_entry (entry : string * list BusyInterval)
    : string * list BusyInterval :=
  (fst entry, merge_user (snd entry)).

(** The string matches the regular expression of [parseTimeParam]. *)
Definition accepted (s : string) : Prop :=
  RegExp.match_whole time_regex s <> None.

(** ** Numbers *)

(** The same number, term for term. *)
Definition same_number (a b : JS.number) : bool :=
  match a, b with
  | JS.Num x, JS.Num y => (Qnum x =? Qnum y) && (Qden x =? Qden y)%positive
  | JS.PosInf, JS.PosInf | JS.NegInf, JS.NegInf | JS.NaN, JS.NaN => true
  | _, _ => false
  end.

(** ** Maps *)

(** Every value of the map satisfies [P]. *)
Definition all_values {V : Type} (P : V -> Prop) (m : JSMap.t V) : Prop :=
  Forall (fun kv => P (snd kv)) m.

End Props.

Module PropsIcs.
Import ParseIcs.

(** ** Normalisation, in the words of the specification *)

(** [TimeCodec.weekdayOf]: Monday is 1, Sunday is 7. *)
Definition weekdayOf (utcOffsetMinutes : Z -> Z) (instant : Z) : Z :=
  (Intl.localDay utcOffsetMinutes instant + 3) mod 7 + 1.

(** Minute of the civil day, 0 to 1439. *)
Definition minuteOfDay (utcOffsetMinutes : Z -> Z) (instant : Z) : Z :=
  (Intl.localMillis utcOffsetMinutes instant mod 86400000) / 60000.

(** [HH:MM:00] *)
Definition clock_string (h m : Z) : string :=
  (Intl.two_digit h ++ ":" ++ Intl.two_digit m ++ ":00")%string.

(** The recurrence weekday-set as a uniform list, whatever its shape; empty
    when the event carries none. *)
Definition rule_entries (event : ParsedEvent) : list WeekdayEntry :=
  match rrule event with
  | Some r =>
      match options r with
      | Some o =>
          match byweekday o with
          | Some (ByArray entries) => entries
          | Some (ByObject w) => [EntryObject w]
          | Some (ByNumber n) => [EntryNumber n]
          | None => []
          end
      | None => []
      end
  | None => []
  end.

(** The weekday code of an entry, if it has one. *)
Definition entry_code (entry : WeekdayEntry) : option Z :=
  match entry with
  | EntryNumber n => Some n
  | EntryObject w => w
  | EntryNull => None
  end.

(** The weekday codes of the recurrence weekday-set, on the 0-based scale. *)
Definition rule_codes (event : ParsedEvent) : list Z :=
  flat_map
    (fun entry => match entry_code entry with Some c => [c] | None => [] end)
    (rule_entries event).

(** A timed event: a [VEVENT] with both instants that is not date-typed. *)
Definition timed_event (event : ParsedEvent) (s e : Z) : Prop :=
  type event = Some "VEVENT" /\ start event = Some s /\ end_ event = Some e
  /\ datetype event <> Some "date".

Definition in_business_week (w : Z) : bool :=
  negb ((w <? WEEKDAY_MIN) || (WEEKDAY_MAX <? w)).

End PropsIcs.

Module PropsExtra.
Import Route Props.

(** ** Rows and the minutes they cover *)

(** The row is one of [userId], its two conversions are finite, and the
    window [[start, end)] they make contains the minute. *)
Definition row_covers (userId : string) (minute : Q) (block : BusyBlockRow)
    : Prop :=
  user_id block = userId
  /\ exists startMinutes endMinutes,
       timeToMinutes (start_time block) = JS.Num startMinutes
       /\ timeToMinutes (end_time block) = JS.Num endMinutes
       /\ (startMinutes <= minute)%Q /\ (minute < endMinutes)%Q.

(** The rows of a user the first loop keeps. *)
Definition kept_rows (userId : string) (blocks : list BusyBlockRow)
    : list BusyBlockRow :=
  filter (fun b => negb (skipped b) && String.eqb (user_id b) userId) blocks.

(** Some row of the user covers the minute. *)
Definition busy_at (userId : string) (blocks : list BusyBlockRow) (minute : Q)
    : Prop :=
  exists block, In block blocks /\ row_covers userId minute block.

End PropsExtra.

Module PropsHandler.
Import Route.

(** The request carries the claims of a signed-in user. *)
Definition authenticated (request : Request) : Prop :=
  exists c rest, claims_sub request = Some (String c rest).

(** The reads of a request that goes all the way, in order. *)
Definition all_reads (weekday : Z) : list Read :=
  [ReadMembership; ReadMembers; ReadUploads; ReadBusyBlocks weekday].

(** [s.trim()] on strings. *)
Definition trimmed (s : string) : string :=
  string_of_list_ascii (JS.trim (list_ascii_of_string s)).

Definition utf8 (bytes : list nat) : list ascii := map ascii_of_nat bytes.

(** The white-space and line-terminator characters, in UTF-8: U+0009 to
    U+000D, U+0020, U+00A0, U+1680, U+2000 to U+200A, U+2028, U+2029,
    U+202F, U+205F, U+3000 and U+FEFF. *)
Definition white_space_characters : list (list ascii) :=
  map utf8
    [[9]; [10]; [11]; [12]; [13]; [32]; [194; 160]; [225; 154; 128];
     [226; 128; 128]; [226; 128; 129]; [226; 128; 130]; [226; 128; 131];
     [226; 128; 132]; [226; 128; 133]; [226; 128; 134]; [226; 128; 135];
     [226; 128; 136]; [226; 128; 137]; [226; 128; 138]; [226; 128; 168];
     [226; 128; 169]; [226; 128; 175]; [226; 129; 159]; [227; 128; 128];
     [239; 187; 191]]%nat.

(** A string made of white space only. *)
Definition blank (s : string) : Prop :=
  exists characters,
    Forall (fun c => In c white_space_characters) characters
    /\ list_ascii_of_string s = List.concat characters.

(** The reference minute of a request: that of the [time] parameter when it
    is accepted, the current one otherwise. *)
Definition reference (utcOffsetMinutes : Z -> Z) (request : Request)
    : JS.number :=
  match parseTimeParam (timeParam request) with
  | Some t => minutes t
  | None =>
      let parts := getCurrentTimeParts utcOffsetMinutes (now request) in
      JS.add (JS.mul (JS.Num (hours parts)) (JS.Num 60))
        (JS.Num (minutes_now parts))
  end.

(** The user ids of a payload, list by list. *)
Definition payload_user_ids (p : Payload) : list string :=
  map free_user_id (free p) ++ map busy_user_id (busy p)
  ++ map unknown_user_id (unknown p).

End PropsHandler.

Module PropsClock.
Import Route Props PropsIcs.

(** No character of the string is the colon. *)
Definition no_colon (s : string) : bool :=
  forallb (fun c => negb (Ascii.eqb c ":")) (list_ascii_of_string s).

(** Decimal digits of a non-negative integer, as a string. *)
Definition decimal (n : Z) : string := string_of_list_ascii (JS.Z_digits n).

(** The hour of a 12-hour clock: 12, 1, ..., 11, 12, 1, ..., 11. *)
Definition twelve_hour (h : Z) : Z := (h + 11) mod 12 + 1.

(** The arithmetic of [timeToMinutes] on the values of three fields. *)
Definition clock_minutes (h m s : Z) : JS.number :=
  JS.add
    (JS.add (JS.mul (JS.Num (inject_Z h)) (JS.Num 60)) (JS.Num (inject_Z m)))
    (JS.div (JS.Num (inject_Z s)) 60).

(** [H:MMAM] or [H:MMPM]. *)
Definition twelve_hour_label (h m : Z) : string :=
  (decimal (twelve_hour h) ++ ":" ++ Intl.two_digit m
     ++ (if (h <? 12)%Z then "AM" else "PM"))%string.

End PropsClock.

(* ================================================================== *)
(** * Sample data *)
(* ================================================================== *)

Module Samples.
Import Route.

(** Central Standard Time all year: the offset of the civil zone in January. *)
Definition cst (_ : Z) : Z := -360.

Definition row (u s e : string) : BusyBlockRow := mkBusyBlockRow u s e.

(** Two back-to-back classes, an inverted row and a later class. *)
Definition day_rows : list BusyBlockRow :=
  [row "u" "13:00:00" "15:00:00"; row "u" "10:00:00" "13:00:00";
   row "u" "16:00:00" "15:00:00"; row "u" "16:30:00" "17:00:00"].

Definition inverted_row : BusyBlockRow := row "u" "16:00:00" "15:00:00".

Definition morning_run : BusyInterval :=
  mkBusyInterval 600 900 "10:00:00" "15:00:00".

Definition late_class : BusyInterval :=
  mkBusyInterval 990 1020 "16:30:00" "17:00:00".

Definition member_u : MemberRow := mkMemberRow "u" None.

(** A no-break space (U+00A0) and an ideographic space (U+3000). *)
Definition no_break_space : string :=
  string_of_list_ascii (PropsHandler.utf8 [194; 160]%nat).
Definition ideographic_space : string :=
  string_of_list_ascii (PropsHandler.utf8 [227; 128; 128]%nat).

(** A lunch class, and an afternoon class for another day. *)
Definition lunch_rows : list BusyBlockRow := [row "u" "12:00:00" "13:00:00"].
Definition afternoon_rows : list BusyBlockRow :=
  [row "u" "14:30:00" "15:00:00"].

Definition answer {A : Type} (x : A) : QueryResult A :=
  mkQueryResult (Some x) false.

Definition sample_store : Store :=
  mkStore (answer tt)
    (answer [mkMemberRowRaw "u" ProfilesNull;
             mkMemberRowRaw "v" (ProfilesObject (mkProfile (Some " Vee ")))])
    (answer ["u"])
    (fun _ => answer [row "u" "12:00:00" "13:00:00";
                      row "v" "12:00:00" "13:00:00"]).

(** Saturday 13 January 2024, 10:00 in the civil zone. *)
Definition saturday_morning : Z := 1705161600000.

Definition saturday_request : Request :=
  mkRequest (Some "u") (Some "12:30") saturday_morning.

(** What [saturday_request] is answered on [sample_store]. *)
Definition saturday_payload : Payload :=
  mkPayload [mkFreeEntry "u" "u" None] [] [mkUnknownEntry "v" "Vee"]
    (Some "12:30PM").

End Samples.

Module SamplesIcs.
Import ParseIcs.

Definition vevent (s e : Z) (r : option RRule) : ParsedEvent :=
  mkParsedEvent (Some "VEVENT") (Some s) (Some e) None r.

Definition weekly (bw : ByWeekday) : option RRule :=
  Some (mkRRule (Some (mkRRuleOptions (Some bw)))).

(** Wednesday 10 January 2024, 10:00 to 11:15 in the civil zone. *)
Definition wednesday_10_00 : Z := 1704902400000.
Definition wednesday_11_15 : Z := 1704906900000.

(** Monday 8 January 2024, 23:00, and 01:00 on the Tuesday. *)
Definition monday_23_00 : Z := 1704776400000.
Definition tuesday_01_00 : Z := 1704783600000.

(** A class on Tuesdays and Thursdays, the weekdays given as a number and as
    an object. *)
Definition tue_thu_class : ParsedEvent :=
  vevent wednesday_10_00 wednesday_11_15
    (weekly (ByArray [EntryNumber 1; EntryObject (Some 3)])).

Definition wednesday_meeting : ParsedEvent :=
  vevent wednesday_10_00 wednesday_11_15 None.

Definition weekend_class : ParsedEvent :=
  vevent wednesday_10_00 wednesday_11_15
    (weekly (ByArray [EntryNumber 5; EntryNumber 6])).

Definition night_shift : ParsedEvent :=
  vevent monday_23_00 tuesday_01_00 None.

End SamplesIcs.

Module SamplesLeave.
Import Leave.

Definition found (owner : string) : Route.QueryResult GroupRow :=
  Route.mkQueryResult (Some (mkGroupRow (Some owner))) false.

Definition rows (l : list string) : Route.QueryResult (list string) :=
  Route.mkQueryResult (Some l) false.

(** A group of [owner], in which the delete finds one row. *)
Definition member_store : Store := mkStore (found "owner") (rows ["g"]).

(** The same group, the delete finding no row. *)
Definition stranger_store : Store := mkStore (found "owner") (rows []).

Definition leave_request (user : string) : Request :=
  mkRequest (Some user) "g".

End SamplesLeave.

(* ================================================================== *)
(** * Generic facts: rationals, maps, arrays *)
(* ================================================================== *)

Module Tools.
Import Props.

Lemma Qle_bool_false (a b : Q) : Qle_bool a b = false <-> (b < a)%Q.
Proof.
  split; intro H.
  - destruct (Qlt_le_dec b a) as [Hlt | Hle]; [exact Hlt|].
    apply Qle_bool_iff in Hle. congruence.
  - destruct (Qle_bool a b) eqn:E; [|reflexivity].
    apply Qle_bool_iff in E. exfalso. apply (Qlt_not_le _ _ H E).
Qed.

Lemma Qlt_bool_true (a b : Q) : Route.Qlt_bool a b = true <-> (a < b)%Q.
Proof.
  unfold Route.Qlt_bool. rewrite negb_true_iff. apply Qle_bool_false.
Qed.

Lemma Qlt_bool_false (a b : Q) : Route.Qlt_bool a b = false <-> (b <= a)%Q.
Proof.
  unfold Route.Qlt_bool. rewrite negb_false_iff. apply Qle_bool_iff.
Qed.

Lemma same_number_eq (a b : JS.number) : same_number a b = true -> a = b.
Proof.
  destruct a as [[xn xd]| | |], b as [[yn yd]| | |]; simpl;
    try discriminate; try reflexivity.
  intro H. apply andb_true_iff in H. destruct H as [H1 H2].
  apply Z.eqb_eq in H1. apply Pos.eqb_eq in H2. now subst.
Qed.

Lemma Qeq_bool_false (a b : Q) : Qeq_bool a b = false <-> ~ (a == b)%Q.
Proof.
  split; intro H.
  - intro E. apply Qeq_bool_iff in E. congruence.
  - destruct (Qeq_bool a b) eqn:E; [|reflexivity].
    apply Qeq_bool_iff in E. contradiction.
Qed.

(** Case analysis on the boolean comparisons of a goal or hypothesis. *)
Ltac qcases :=
  repeat match goal with
  | |- context [Qle_bool ?a ?b] =>
      let E := fresh "E" in
      destruct (Qle_bool a b) eqn:E;
      [apply Qle_bool_iff in E | apply Qle_bool_false in E]
  | |- context [Route.Qlt_bool ?a ?b] =>
      let E := fresh "E" in
      destruct (Route.Qlt_bool a b) eqn:E;
      [apply Qlt_bool_true in E | apply Qlt_bool_false in E]
  | |- context [Qeq_bool ?a ?b] =>
      let E := fresh "E" in
      destruct (Qeq_bool a b) eqn:E;
      [apply Qeq_bool_iff in E | apply Qeq_bool_false in E]
  end.

Section MapFacts.
Context {V : Type}.
Implicit Types (m : JSMap.t V) (k : string) (v : V).

Lemma get_set_same m k v : JSMap.get k (JSMap.set k v m) = Some v.
Proof.
  induction m as [|[k' v'] m IH]; simpl.
  - now rewrite String.eqb_refl.
  - destruct (String.eqb k k') eqn:E; simpl; rewrite E; auto.
Qed.

Lemma get_set_other m k k' v :
  k <> k' -> JSMap.get k' (JSMap.set k v m) = JSMap.get k' m.
Proof.
  intro Hne. induction m as [|[k0 v0] m IH]; simpl.
  - apply String.eqb_neq in Hne. rewrite String.eqb_sym in Hne.
    now rewrite Hne.
  - destruct (String.eqb k k0) eqn:E; simpl.
    + apply String.eqb_eq in E. subst k0.
      destruct (String.eqb k' k) eqn:E'; [|reflexivity].
      apply String.eqb_eq in E'. congruence.
    + now rewrite IH.
Qed.

Lemma get_None_not_In m k :
  JSMap.get k m = None <-> ~ In k (JSMap.keys m).
Proof.
  induction m as [|[k' v'] m IH]; simpl.
  - tauto.
  - destruct (String.eqb k k') eqn:E.
    + apply String.eqb_eq in E. subst. split; [discriminate | tauto].
    + apply String.eqb_neq in E. rewrite IH. split.
      * intros Hn [Heq | Hin]; [congruence | tauto].
      * tauto.
Qed.

Lemma get_Some_In m k v : JSMap.get k m = Some v -> In (k, v) m.
Proof.
  induction m as [|[k' v'] m IH]; simpl; [discriminate|].
  destruct (String.eqb k k') eqn:E.
  - apply String.eqb_eq in E. intros [= ->]. subst. now left.
  - intro H. right. auto.
Qed.

Lemma get_app_fresh m1 m2 k :
  ~ In k (JSMap.keys m1) -> JSMap.get k (m1 ++ m2) = JSMap.get k m2.
Proof.
  induction m1 as [|[k' v'] m1 IH]; simpl; [reflexivity|].
  intro Hn. destruct (String.eqb k k') eqn:E.
  - apply String.eqb_eq in E. subst. tauto.
  - apply IH. tauto.
Qed.

(** A new key goes to the end. *)
Lemma set_fresh m k v :
  ~ In k (JSMap.keys m) -> JSMap.set k v m = m ++ [(k, v)].
Proof.
  induction m as [|[k' v'] m IH]; simpl; [reflexivity|].
  intro Hn. destruct (String.eqb k k') eqn:E.
  - apply String.eqb_eq in E. subst. tauto.
  - rewrite IH; tauto.
Qed.

(** A present key keeps its place. *)
Lemma set_present m1 m2 k v0 v :
  ~ In k (JSMap.keys m1) ->
  JSMap.set k v (m1 ++ (k, v0) :: m2) = m1 ++ (k, v) :: m2.
Proof.
  induction m1 as [|[k' v'] m1 IH]; simpl.
  - now rewrite String.eqb_refl.
  - intro Hn. destruct (String.eqb k k') eqn:E.
    + apply String.eqb_eq in E. subst. tauto.
    + rewrite IH; tauto.
Qed.

Lemma keys_set m k v :
  JSMap.keys (JSMap.set k v m)
  = if existsb (String.eqb k) (JSMap.keys m) then JSMap.keys m
    else JSMap.keys m ++ [k].
Proof.
  induction m as [|[k' v'] m IH]; simpl; [reflexivity|].
  destruct (String.eqb k k') eqn:E; simpl; [reflexivity|].
  rewrite IH. now destruct (existsb (String.eqb k) (JSMap.keys m)).
Qed.

Lemma existsb_eqb_In (k : string) (l : list string) :
  existsb (String.eqb k) l = true <-> In k l.
Proof.
  rewrite existsb_exists. split.
  - intros [x [Hin E]]. apply String.eqb_eq in E. now subst.
  - intro H. exists k. split; [exact H | apply String.eqb_refl].
Qed.

Lemma NoDup_keys_set m k v :
  NoDup (JSMap.keys m) -> NoDup (JSMap.keys (JSMap.set k v m)).
Proof.
  intro Hnd. rewrite keys_set.
  destruct (existsb (String.eqb k) (JSMap.keys m)) eqn:E; [exact Hnd|].
  assert (~ In k (JSMap.keys m)) as Hn.
  { intro Hin. apply existsb_eqb_In in Hin. congruence. }
  apply NoDup_rev in Hnd. rewrite <- (rev_involutive (_ ++ _)).
  apply NoDup_rev. rewrite rev_app_distr. simpl.
  constructor; [|exact Hnd]. now rewrite <- in_rev.
Qed.

Lemma all_values_get P m k v :
  all_values P m -> JSMap.get k m = Some v -> P v.
Proof.
  intros Hall Hget. apply get_Some_In in Hget.
  unfold all_values in Hall. rewrite Forall_forall in Hall.
  exact (Hall _ Hget).
Qed.

Lemma all_values_set P m k v :
  all_values P m -> P v -> all_values P (JSMap.set k v m).
Proof.
  intros Hall Hv. induction m as [|[k' v'] m IH]; simpl.
  - constructor; [exact Hv | constructor].
  - inversion Hall as [|? ? Hh Ht]; subst.
    destruct (String.eqb k k'); constructor; simpl; auto.
    apply IH. exact Ht.
Qed.
End MapFacts.

Section ArrayFacts.
Context {A : Type}.

Lemma at_last_snoc (l : list A) (x : A) : JSArray.at_last (l ++ [x]) = Some x.
Proof. unfold JSArray.at_last. now rewrite rev_app_distr. Qed.

Lemma at_last_nil : JSArray.at_last (@nil A) = None.
Proof. reflexivity. Qed.

Lemma update_last_snoc (f : A -> A) (l : list A) (x : A) :
  JSArray.update_last f (l ++ [x]) = l ++ [f x].
Proof.
  unfold JSArray.update_last. rewrite rev_app_distr. simpl.
  now rewrite rev_involutive.
Qed.
End ArrayFacts.

End Tools.

(* ================================================================== *)
(** * Rounding to binary64 *)
(* ================================================================== *)

Module NumberFacts.

Lemma round_half_even_near (n d : Z) :
  0 <= n -> 0 < d ->
  0 <= JS.round_half_even n d
  /\ 2 * n - d <= 2 * (JS.round_half_even n d * d) <= 2 * n + d.
Proof.
  intros Hn Hd. unfold JS.round_half_even.
  pose proof (Z.div_mod n d ltac:(lia)) as E.
  pose proof (Z.mod_pos_bound n d Hd) as B.
  assert (0 <= n / d) as Q by (apply Z.div_pos; lia).
  destruct (Z.compare_spec (2 * (n mod d)) d) as [C | C | C];
    [destruct (Z.even (n / d))| |]; split; nia.
Qed.

Lemma log2_floor_le (a d k : Z) :
  0 < a -> 0 < d -> 0 <= k -> a < 2 ^ k * d -> JS.log2_floor a d <= k.
Proof.
  intros Ha Hd Hk Hlt. unfold JS.log2_floor.
  assert (Z.log2 a <= k + Z.log2 d).
  { rewrite <- (Z.log2_mul_pow2 d k Hd Hk). apply Z.log2_le_mono. lia. }
  destruct (JS.ge_pow2 a d (Z.log2 a - Z.log2 d)); lia.
Qed.

Lemma round64_pos_near (a d : Z) :
  0 < a -> 0 < d -> a < 2048 * d ->
  exists v,
    JS.round64_pos a d = Some v
    /\ (0 <= v)%Q
    /\ ((a # Z.to_pos d) - (1 # 4398046511104) <= v)%Q
    /\ (v <= (a # Z.to_pos d) + (1 # 4398046511104))%Q.
Proof.
  intros Ha Hd Hlt. unfold JS.round64_pos.
  pose proof (log2_floor_le a d 11 Ha Hd ltac:(lia) Hlt) as He.
  set (e := JS.log2_floor a d) in *.
  destruct (Z.leb_spec 1024 e) as [|_]; [lia|].
  set (x := Z.max (e - 52) (-1074)).
  assert (-1074 <= x <= -41) as Hx by (unfold x; lia).
  destruct (Z.leb_spec 0 x) as [|_]; [lia|].
  rewrite (Z.max_r 0 (- x)) by lia. rewrite (Z.max_l 0 x) by lia.
  rewrite Z.pow_0_r, Z.mul_1_r.
  set (P := 2 ^ (- x)).
  assert (2199023255552 <= P) as HP.
  { change 2199023255552 with (2 ^ 41). unfold P.
    apply Z.pow_le_mono_r; lia. }
  destruct (round_half_even_near (a * P) d ltac:(nia) Hd) as [Hm0 Hm].
  set (m := JS.round_half_even (a * P) d) in *.
  eexists. split; [reflexivity|].
  assert (Qred (m # Z.to_pos P) == m # Z.to_pos P)%Q as E
    by apply Qred_correct.
  rewrite E. unfold Qle, Qminus, Qplus, Qopp. simpl.
  rewrite !Pos2Z.inj_mul, !Z2Pos.id by lia.
  repeat split; nia.
Qed.

Lemma round64_near (q : Q) :
  (0 < q)%Q -> (q < 2048)%Q ->
  exists v,
    JS.round64 q = JS.Num v
    /\ (0 <= v)%Q
    /\ (q - (1 # 4398046511104) <= v)%Q
    /\ (v <= q + (1 # 4398046511104))%Q.
Proof.
  destruct q as [n d]. unfold Qlt. simpl. intros Hpos Hlt.
  destruct n as [|a|a]; try lia.
  destruct (round64_pos_near (Zpos a) (Zpos d)) as [v [E H]]; try lia.
  exists v. unfold JS.round64. simpl. rewrite E. split; [reflexivity|].
  simpl in H. exact H.
Qed.

End NumberFacts.

(* ================================================================== *)
(** * Interval merging *)
(* ================================================================== *)

Module MergeFacts.
Import Route Props Tools.

(** ** The comparator and the sort *)

Lemma compare_le_start (a b : BusyInterval) :
  (compareIntervals a b <= 0)%Q -> (startMinutes a <= startMinutes b)%Q.
Proof.
  unfold compareIntervals. qcases; simpl; intro H; lra.
Qed.

Lemma compare_total (a b : BusyInterval) :
  ~ (compareIntervals a b <= 0)%Q -> (compareIntervals b a <= 0)%Q.
Proof.
  unfold compareIntervals. qcases; simpl; intro H; lra.
Qed.

Lemma compare_lt_start (a b : BusyInterval) :
  (startMinutes a < startMinutes b)%Q -> (compareIntervals a b <= 0)%Q.
Proof.
  unfold compareIntervals. qcases; simpl; intro H; lra.
Qed.

Lemma insert_In (x y : BusyInterval) (l : list BusyInterval) :
  In y (JSArray.insert compareIntervals x l) <-> y = x \/ In y l.
Proof.
  induction l as [|z l IH]; simpl.
  - intuition congruence.
  - destruct (Qle_bool (compareIntervals x z) 0); simpl.
    + intuition congruence.
    + rewrite IH. intuition congruence.
Qed.

Lemma sort_In (y : BusyInterval) (l : list BusyInterval) :
  In y (JSArray.sort compareIntervals l) <-> In y l.
Proof.
  induction l as [|x l IH]; simpl; [tauto|].
  rewrite insert_In, IH. intuition congruence.
Qed.

Lemma sort_length (l : list BusyInterval) :
  List.length (JSArray.sort compareIntervals l) = List.length l.
Proof.
  induction l as [|x l IH]; simpl; [reflexivity|].
  rewrite <- IH. generalize (JSArray.sort compareIntervals l). intro s.
  induction s as [|z s IHs]; simpl; [reflexivity|].
  destruct (Qle_bool (compareIntervals x z) 0); simpl; auto.
Qed.

Lemma insert_ascending (x : BusyInterval) (l : list BusyInterval) :
  ascending l -> ascending (JSArray.insert compareIntervals x l).
Proof.
  induction l as [|y l IH]; simpl; [auto|].
  intro Hasc.
  destruct (Qle_bool (compareIntervals x y) 0) eqn:E.
  - apply Qle_bool_iff in E. split; [now apply compare_le_start | exact Hasc].
  - assert (startMinutes y <= startMinutes x)%Q as Hyx.
    { apply compare_le_start, compare_total. intro H.
      apply Qle_bool_iff in H. congruence. }
    destruct l as [|z l]; simpl.
    + auto.
    + destruct Hasc as [Hyz Hrest]. specialize (IH Hrest). simpl in IH.
      destruct (Qle_bool (compareIntervals x z) 0); simpl; auto.
Qed.

Lemma sort_ascending (l : list BusyInterval) :
  ascending (JSArray.sort compareIntervals l).
Proof.
  induction l as [|x l IH]; simpl; [exact I|]. now apply insert_ascending.
Qed.

(** A list that is already strictly increasing in its starts is left as it
    is. *)
Lemma sort_fixed (l : list BusyInterval) :
  Forall proper l -> separated l -> JSArray.sort compareIntervals l = l.
Proof.
  induction l as [|a l IH]; simpl; [reflexivity|].
  intros Hp Hs. inversion Hp as [|? ? Ha Hl]; subst.
  destruct l as [|b l].
  - reflexivity.
  - destruct Hs as [Hab Hs]. rewrite (IH Hl Hs). simpl.
    assert (compareIntervals a b <= 0)%Q as Hc.
    { apply compare_lt_start. unfold proper in Ha. lra. }
    apply Qle_bool_iff in Hc. now rewrite Hc.
Qed.

(** ** The sweep *)

Lemma fold_merge_step (rest pre : list BusyInterval) (last : BusyInterval) :
  fold_left merge_step rest (pre ++ [last]) = pre ++ sweep_from last rest.
Proof.
  revert pre last. induction rest as [|iv rest IH]; intros pre last; simpl.
  - reflexivity.
  - unfold merge_step at 2. rewrite at_last_snoc.
    destruct (Qle_bool (startMinutes iv) (endMinutes last)).
    + destruct (negb (Qle_bool (endMinutes iv) (endMinutes last))).
      * rewrite update_last_snoc. apply IH.
      * apply IH.
    + rewrite IH, <- app_assoc. reflexivity.
Qed.

Lemma merge_user_sweep (l : list BusyInterval) :
  merge_user l
  = match JSArray.sort compareIntervals l with
    | [] => []
    | first :: rest => sweep_from first rest
    end.
Proof.
  unfold merge_user. destruct (JSArray.sort compareIntervals l) as [|x r].
  - reflexivity.
  - simpl. unfold merge_step at 2. simpl. apply (fold_merge_step r [] x).
Qed.

Lemma ascending_tail (a b : BusyInterval) (l : list BusyInterval) :
  ascending (a :: b :: l) -> ascending (b :: l).
Proof. simpl. tauto. Qed.

Lemma ascending_skip (a a' b : BusyInterval) (l : list BusyInterval) :
  startMinutes a' = startMinutes a ->
  ascending (a :: b :: l) -> ascending (a' :: l).
Proof.
  intros Heq [Hab Hrest]. destruct l as [|c l]; simpl; [exact I|].
  destruct Hrest as [Hbc Hrest]. split; [|exact Hrest]. rewrite Heq. lra.
Qed.

Lemma sweep_invariant (rest : list BusyInterval) :
  forall last,
    proper last -> Forall proper rest -> ascending (last :: rest) ->
    Forall proper (sweep_from last rest)
    /\ separated (sweep_from last rest)
    /\ exists h t, sweep_from last rest = h :: t
                   /\ startMinutes h = startMinutes last.
Proof.
  induction rest as [|iv rest IH]; intros last Hlast Hrest Hasc.
  - simpl. repeat split; [constructor; [exact Hlast | constructor]|].
    exists last, []. split; reflexivity.
  - inversion Hrest as [|? ? Hiv Hrest']; subst. simpl.
    destruct (Qle_bool (startMinutes iv) (endMinutes last)) eqn:E1.
    + destruct (Qle_bool (endMinutes iv) (endMinutes last)) eqn:E2; simpl.
      * assert (ascending (last :: rest)) as Hasc'
          by (eapply ascending_skip; [reflexivity | exact Hasc]).
        exact (IH last Hlast Hrest' Hasc').
      * apply Qle_bool_false in E2.
        set (last' := mkBusyInterval (startMinutes last) (endMinutes iv)
                        (iv_start_time last) (iv_end_time iv)).
        assert (proper last') as Hp.
        { unfold proper in *. simpl. lra. }
        assert (ascending (last' :: rest)) as Hasc'
          by (eapply ascending_skip; [|exact Hasc]; reflexivity).
        destruct (IH last' Hp Hrest' Hasc') as [H1 [H2 [h [t [H3 H4]]]]].
        repeat split; [exact H1 | exact H2 |].
        exists h, t. split; [exact H3 | exact H4].
    + apply Qle_bool_false in E1.
      destruct (IH iv Hiv Hrest' (ascending_tail _ _ _ Hasc))
        as [H1 [H2 [h [t [H3 H4]]]]].
      repeat split.
      * constructor; assumption.
      * rewrite H3 in *. simpl. split; [rewrite H4; exact E1 | exact H2].
      * exists last, (sweep_from iv rest). split; reflexivity.
Qed.

Lemma sweep_consistent (rest : list BusyInterval) :
  forall last,
    consistent last -> Forall consistent rest ->
    Forall consistent (sweep_from last rest).
Proof.
  induction rest as [|iv rest IH]; intros last Hlast Hrest; simpl.
  - constructor; [exact Hlast | constructor].
  - inversion Hrest as [|? ? Hiv Hrest']; subst.
    destruct (Qle_bool (startMinutes iv) (endMinutes last)).
    + destruct (negb (Qle_bool (endMinutes iv) (endMinutes last))).
      * apply IH; [|exact Hrest'].
        destruct Hlast as [Hs _], Hiv as [_ He]. split; simpl; assumption.
      * apply IH; assumption.
    + constructor; [exact Hlast | apply IH; assumption].
Qed.

(** Nothing is merged in a list that is already separated. *)
Lemma sweep_fixed (rest : list BusyInterval) :
  forall last, separated (last :: rest) -> sweep_from last rest = last :: rest.
Proof.
  induction rest as [|iv rest IH]; intros last Hsep; [reflexivity|].
  destruct Hsep as [Hlt Hsep]. simpl.
  apply Qle_bool_false in Hlt. rewrite Hlt. now rewrite (IH iv Hsep).
Qed.

Lemma separated_ascending (l : list BusyInterval) :
  Forall proper l -> separated l -> ascending l.
Proof.
  induction l as [|a l IH]; intros Hp Hs; [exact I|].
  inversion Hp as [|? ? Ha Hl]; subst.
  destruct l as [|b l]; [exact I|].
  destruct Hs as [Hab Hs]. split; [unfold proper in Ha; lra | auto].
Qed.

(** ** One user *)

(** What holds of the merged intervals of a user. *)
Lemma merge_user_invariant (l : list BusyInterval) :
  l <> [] -> Forall proper l -> Forall consistent l ->
  merge_user l <> []
  /\ Forall proper (merge_user l)
  /\ separated (merge_user l)
  /\ Forall consistent (merge_user l).
Proof.
  intros Hne Hp Hc. rewrite merge_user_sweep.
  pose proof (sort_ascending l) as Hasc.
  pose proof (sort_length l) as Hlen.
  assert (Forall proper (JSArray.sort compareIntervals l)) as Hp'.
  { rewrite Forall_forall in *. intros x Hx. apply Hp, sort_In, Hx. }
  assert (Forall consistent (JSArray.sort compareIntervals l)) as Hc'.
  { rewrite Forall_forall in *. intros x Hx. apply Hc, sort_In, Hx. }
  destruct (JSArray.sort compareIntervals l) as [|x r].
  - destruct l; [congruence | discriminate].
  - inversion Hp' as [|? ? Hx Hr]; subst.
    inversion Hc' as [|? ? Hcx Hcr]; subst.
    destruct (sweep_invariant r x Hx Hr Hasc) as [H1 [H2 [h [t [H3 _]]]]].
    repeat split; [rewrite H3; discriminate | exact H1 | exact H2 |].
    now apply sweep_consistent.
Qed.

Lemma merge_user_fixed (l : list BusyInterval) :
  Forall proper l -> separated l -> merge_user l = l.
Proof.
  intros Hp Hs. rewrite merge_user_sweep, (sort_fixed l Hp Hs).
  destruct l as [|a l]; [reflexivity | now apply sweep_fixed].
Qed.

(** ** The two loops of [mergeBusyIntervals] *)

Lemma group_step_eq (grouped : JSMap.t (list BusyInterval)) (block : BusyBlockRow) :
  group_step grouped block
  = if skipped block then grouped
    else JSMap.set (user_id block)
           (intervals_of (user_id block) grouped ++ [interval_of_row block])
           grouped.
Proof.
  unfold group_step, skipped, inverted, interval_of_row.
  destruct (timeToMinutes (start_time block)),
    (timeToMinutes (end_time block)); reflexivity.
Qed.

(** A row is kept exactly when both conversions are finite and the end is
    after the start. *)
Lemma skipped_false (block : BusyBlockRow) :
  skipped block = false
  <-> exists s e,
        timeToMinutes (start_time block) = JS.Num s
        /\ timeToMinutes (end_time block) = JS.Num e /\ (s < e)%Q.
Proof.
  unfold skipped, inverted.
  destruct (timeToMinutes (start_time block)) as [s| | |],
    (timeToMinutes (end_time block)) as [e| | |]; simpl;
    try (split; [discriminate | intros [? [? [H1 [H2 _]]]]; discriminate]).
  split.
  - intro H. apply Qle_bool_false in H. now exists s, e.
  - intros [s' [e' [[= <-] [[= <-] H]]]]. now apply Qle_bool_false.
Qed.

Lemma interval_of_row_ok (block : BusyBlockRow) :
  skipped block = false ->
  proper (interval_of_row block) /\ consistent (interval_of_row block).
Proof.
  intro H. apply skipped_false in H. destruct H as [s [e [Hs [He Hlt]]]].
  unfold proper, consistent, interval_of_row. simpl. rewrite Hs, He. simpl.
  now repeat split.
Qed.

Lemma group_step_invariant grouped block :
  NoDup (JSMap.keys grouped) /\ all_values grouped_ok grouped ->
  NoDup (JSMap.keys (group_step grouped block))
  /\ all_values grouped_ok (group_step grouped block).
Proof.
  intros [Hnd Hall]. rewrite group_step_eq.
  destruct (skipped block) eqn:E; [now split|].
  destruct (interval_of_row_ok block E) as [Hp Hc].
  split; [now apply NoDup_keys_set|].
  apply all_values_set; [exact Hall|].
  assert (Forall proper (intervals_of (user_id block) grouped)
          /\ Forall consistent (intervals_of (user_id block) grouped))
    as [Hps Hcs].
  { unfold intervals_of.
    destruct (JSMap.get (user_id block) grouped) as [l|] eqn:G; simpl.
    - destruct (all_values_get _ _ _ _ Hall G) as [_ [H1 H2]]. now split.
    - split; constructor. }
  split; [|split].
  - intro Hnil. apply app_eq_nil in Hnil. destruct Hnil; discriminate.
  - apply Forall_app. split; [exact Hps | now repeat constructor].
  - apply Forall_app. split; [exact Hcs | constructor; [exact Hc | constructor]].
Qed.

Lemma grouped_invariant (blocks : list BusyBlockRow) :
  forall grouped,
    NoDup (JSMap.keys grouped) /\ all_values grouped_ok grouped ->
    NoDup (JSMap.keys (fold_left group_step blocks grouped))
    /\ all_values grouped_ok (fold_left group_step blocks grouped).
Proof.
  induction blocks as [|b blocks IH]; intros grouped H; simpl; [exact H|].
  apply IH, group_step_invariant, H.
Qed.

Lemma keys_app {V : Type} (m1 m2 : JSMap.t V) :
  JSMap.keys (m1 ++ m2) = JSMap.keys m1 ++ JSMap.keys m2.
Proof. apply map_app. Qed.

Lemma NoDup_app_fresh (l1 l2 : list string) (k : string) :
  NoDup (l1 ++ k :: l2) -> ~ In k l1.
Proof.
  intros H Hin. apply NoDup_remove_2 in H. apply H, in_or_app. now left.
Qed.

Lemma second_loop (grouped : JSMap.t (list BusyInterval)) :
  forall mergedByUser,
    NoDup (JSMap.keys mergedByUser ++ JSMap.keys grouped) ->
    fold_left
      (fun mergedByUser '(userId, intervals) =>
         JSMap.set userId (merge_user intervals) mergedByUser)
      grouped mergedByUser
    = mergedByUser ++ map merge_entry grouped.
Proof.
  induction grouped as [|[u ivs] grouped IH]; intros acc Hnd; simpl.
  - now rewrite app_nil_r.
  - simpl in Hnd. rewrite set_fresh by (eapply NoDup_app_fresh; exact Hnd).
    rewrite IH.
    + now rewrite <- app_assoc.
    + rewrite keys_app, <- app_assoc. exact Hnd.
Qed.

Lemma mergeBusyIntervals_eq (blocks : list BusyBlockRow) :
  mergeBusyIntervals blocks
  = map merge_entry (fold_left group_step blocks []).
Proof.
  unfold mergeBusyIntervals.
  destruct (grouped_invariant blocks []) as [Hnd _].
  { split; constructor. }
  now rewrite second_loop.
Qed.

Lemma keys_merge_entry (grouped : JSMap.t (list BusyInterval)) :
  JSMap.keys (map merge_entry grouped) = JSMap.keys grouped.
Proof.
  unfold JSMap.keys. rewrite map_map. apply map_ext. now intros [u l].
Qed.

Lemma merged_invariant (blocks : list BusyBlockRow) :
  NoDup (JSMap.keys (mergeBusyIntervals blocks))
  /\ all_values merged_ok (mergeBusyIntervals blocks).
Proof.
  rewrite mergeBusyIntervals_eq, keys_merge_entry.
  destruct (grouped_invariant blocks []) as [Hnd Hall].
  { split; constructor. }
  split; [exact Hnd|].
  unfold all_values in *. rewrite Forall_map.
  eapply Forall_impl; [|exact Hall].
  intros [u l] [Hne [Hp Hc]]. simpl in *.
  exact (merge_user_invariant l Hne Hp Hc).
Qed.

Lemma intervals_of_merged (blocks : list BusyBlockRow) (userId : string) :
  intervals_of userId (mergeBusyIntervals blocks) = []
  \/ merged_ok (intervals_of userId (mergeBusyIntervals blocks)).
Proof.
  destruct (merged_invariant blocks) as [_ Hall]. unfold intervals_of.
  destruct (JSMap.get userId (mergeBusyIntervals blocks)) as [l|] eqn:G.
  - right. exact (all_values_get _ _ _ _ Hall G).
  - now left.
Qed.

(** Skipped rows leave no trace in the first loop. *)
Lemma group_skip_inverted (blocks : list BusyBlockRow) :
  forall grouped,
    fold_left group_step blocks grouped
    = fold_left group_step
        (filter (fun b => negb (skipped b)) blocks) grouped.
Proof.
  induction blocks as [|b blocks IH]; intro grouped; simpl; [reflexivity|].
  rewrite (group_step_eq grouped b). destruct (skipped b) eqn:E; simpl.
  - apply IH.
  - rewrite IH, (group_step_eq grouped b), E. reflexivity.
Qed.

Lemma inverted_skipped (block : BusyBlockRow) :
  inverted block = true -> skipped block = true.
Proof.
  unfold skipped. intros ->. now rewrite orb_true_r.
Qed.

Lemma group_skip_inverted_rows (blocks : list BusyBlockRow) :
  forall grouped,
    fold_left group_step blocks grouped
    = fold_left group_step
        (filter (fun b => negb (inverted b)) blocks) grouped.
Proof.
  induction blocks as [|b blocks IH]; intro grouped; simpl; [reflexivity|].
  destruct (inverted b) eqn:E; simpl.
  - rewrite (group_step_eq grouped b), (inverted_skipped b E). apply IH.
  - apply IH.
Qed.

(** ** Reading the output back *)

Lemma regroup_user (u : string) (ivs pre : list BusyInterval) grouped :
  ~ In u (JSMap.keys grouped) ->
  Forall proper ivs -> Forall consistent ivs ->
  fold_left group_step
    (map (fun iv => mkBusyBlockRow u (iv_start_time iv) (iv_end_time iv)) ivs)
    (grouped ++ [(u, pre)])
  = grouped ++ [(u, pre ++ ivs)].
Proof.
  intros Hfresh. revert pre.
  induction ivs as [|iv ivs IH]; intros pre Hp Hc; simpl.
  - now rewrite app_nil_r.
  - inversion Hp as [|? ? Hiv Hp']; subst.
    inversion Hc as [|? ? [Hs He] Hc']; subst.
    rewrite group_step_eq.
    unfold skipped, inverted, intervals_of, interval_of_row.
    simpl. rewrite Hs, He. simpl.
    assert (Qle_bool (endMinutes iv) (startMinutes iv) = false) as E
      by (apply Qle_bool_false; exact Hiv).
    rewrite E, get_app_fresh by exact Hfresh. simpl.
    rewrite String.eqb_refl. simpl.
    rewrite set_present by exact Hfresh.
    destruct iv as [s e st et]. simpl.
    rewrite (IH (pre ++ [mkBusyInterval s e st et]) Hp' Hc').
    now rewrite <- app_assoc.
Qed.

Lemma regroup (m : JSMap.t (list BusyInterval)) :
  forall grouped,
    NoDup (JSMap.keys grouped ++ JSMap.keys m) ->
    all_values merged_ok m ->
    fold_left group_step (rows_of m) grouped = grouped ++ m.
Proof.
  induction m as [|[u ivs] m IH]; intros grouped Hnd Hall; simpl.
  - now rewrite app_nil_r.
  - inversion Hall as [|? ? [Hne [Hp [_ Hc]]] Hall']; subst. simpl in *.
    assert (~ In u (JSMap.keys grouped)) as Hfresh
      by (eapply NoDup_app_fresh; exact Hnd).
    rewrite fold_left_app.
    destruct ivs as [|iv ivs]; [congruence|].
    inversion Hp as [|? ? Hiv Hp']; subst.
    inversion Hc as [|? ? [Hs He] Hc']; subst.
    simpl. rewrite group_step_eq.
    unfold skipped, inverted, intervals_of, interval_of_row.
    simpl. rewrite Hs, He. simpl.
    assert (Qle_bool (endMinutes iv) (startMinutes iv) = false) as E
      by (apply Qle_bool_false; exact Hiv).
    rewrite E. simpl.
    assert (JSMap.get u grouped = None) as G by now apply get_None_not_In.
    rewrite G. simpl. rewrite set_fresh by exact Hfresh.
    destruct iv as [s e st et]. simpl.
    rewrite (regroup_user u ivs _ grouped Hfresh Hp' Hc').
    rewrite IH.
    + now rewrite <- app_assoc.
    + rewrite keys_app, <- app_assoc. exact Hnd.
    + exact Hall'.
Qed.

Lemma merge_entries_fixed (m : JSMap.t (list BusyInterval)) :
  all_values merged_ok m -> map merge_entry m = m.
Proof.
  induction m as [|[u ivs] m IH]; intro Hall; simpl; [reflexivity|].
  inversion Hall as [|? ? [_ [Hp [Hs _]]] Hall']; subst. simpl in *.
  unfold merge_entry at 1. simpl.
  now rewrite (merge_user_fixed ivs Hp Hs), IH.
Qed.

End MergeFacts.

(* ================================================================== *)
(** * Classification of the members *)
(* ================================================================== *)

Module ClassifyFacts.
Import Route Props Tools.

(** ** The scan touches one user at a time *)

Lemma scan_same ref u maps iv :
  JSMap.get u (fst (scan_interval (JS.Num ref) u maps iv))
  = busy_step ref (JSMap.get u (fst maps)) iv
  /\ JSMap.get u (snd (scan_interval (JS.Num ref) u maps iv))
     = next_step ref (JSMap.get u (snd maps)) iv.
Proof.
  destruct maps as [bm nm]. unfold scan_interval, busy_step, next_step. simpl.
  fold (Qlt_bool ref (endMinutes iv)) (Qlt_bool ref (startMinutes iv)).
  split.
  - destruct (Qle_bool (startMinutes iv) ref
              && Qlt_bool ref (endMinutes iv)); [|reflexivity].
    destruct (JSMap.get u bm) as [e|] eqn:G.
    + destruct (Qlt_bool (bm_endMinutes e) (endMinutes iv));
        [apply get_set_same | exact G].
    + apply get_set_same.
  - destruct (Qlt_bool ref (startMinutes iv)); [|reflexivity].
    destruct (JSMap.get u nm) as [e|] eqn:G.
    + destruct (Qlt_bool (startMinutes iv) (nb_startMinutes e));
        [apply get_set_same | exact G].
    + apply get_set_same.
Qed.

Lemma scan_other ref u v maps iv :
  v <> u ->
  JSMap.get u (fst (scan_interval (JS.Num ref) v maps iv)) = JSMap.get u (fst maps)
  /\ JSMap.get u (snd (scan_interval (JS.Num ref) v maps iv)) = JSMap.get u (snd maps).
Proof.
  intro Hne. destruct maps as [bm nm]. unfold scan_interval. simpl.
  fold (Qlt_bool ref (endMinutes iv)) (Qlt_bool ref (startMinutes iv)).
  split.
  - destruct (Qle_bool (startMinutes iv) ref
              && Qlt_bool ref (endMinutes iv)); [|reflexivity].
    destruct (JSMap.get v bm) as [e|].
    + destruct (Qlt_bool (bm_endMinutes e) (endMinutes iv));
        [now apply get_set_other | reflexivity].
    + now apply get_set_other.
  - destruct (Qlt_bool ref (startMinutes iv)); [|reflexivity].
    destruct (JSMap.get v nm) as [e|].
    + destruct (Qlt_bool (startMinutes iv) (nb_startMinutes e));
        [now apply get_set_other | reflexivity].
    + now apply get_set_other.
Qed.

Lemma scan_user_same ref u ivs :
  forall maps,
    JSMap.get u (fst (fold_left (scan_interval (JS.Num ref) u) ivs maps))
    = fold_left (busy_step ref) ivs (JSMap.get u (fst maps))
    /\ JSMap.get u (snd (fold_left (scan_interval (JS.Num ref) u) ivs maps))
       = fold_left (next_step ref) ivs (JSMap.get u (snd maps)).
Proof.
  induction ivs as [|iv ivs IH]; intro maps; simpl; [now split|].
  destruct (IH (scan_interval (JS.Num ref) u maps iv)) as [H1 H2].
  destruct (scan_same ref u maps iv) as [E1 E2].
  rewrite H1, H2, E1, E2. now split.
Qed.

Lemma scan_user_other ref u v ivs :
  v <> u ->
  forall maps,
    JSMap.get u (fst (fold_left (scan_interval (JS.Num ref) v) ivs maps))
    = JSMap.get u (fst maps)
    /\ JSMap.get u (snd (fold_left (scan_interval (JS.Num ref) v) ivs maps))
       = JSMap.get u (snd maps).
Proof.
  intro Hne. induction ivs as [|iv ivs IH]; intro maps; simpl; [now split|].
  destruct (IH (scan_interval (JS.Num ref) v maps iv)) as [H1 H2].
  destruct (scan_other ref u v maps iv Hne) as [E1 E2].
  rewrite H1, H2, E1, E2. now split.
Qed.

Lemma build_maps_from ref u (m : JSMap.t (list BusyInterval)) :
  NoDup (JSMap.keys m) ->
  forall maps,
    let result :=
      fold_left
        (fun maps '(userId, intervals) =>
           fold_left (scan_interval (JS.Num ref) userId) intervals maps) m maps in
    JSMap.get u (fst result)
    = fold_left (busy_step ref) (intervals_of u m) (JSMap.get u (fst maps))
    /\ JSMap.get u (snd result)
       = fold_left (next_step ref) (intervals_of u m) (JSMap.get u (snd maps)).
Proof.
  unfold intervals_of.
  induction m as [|[v ivs] m IH]; intros Hnd maps; simpl; [now split|].
  inversion Hnd as [|? ? Hfresh Hnd']; subst.
  destruct (IH Hnd' (fold_left (scan_interval (JS.Num ref) v) ivs maps)) as [H1 H2].
  simpl in H1, H2. rewrite H1, H2.
  destruct (String.eqb u v) eqn:E.
  - apply String.eqb_eq in E. subst v.
    apply get_None_not_In in Hfresh. rewrite Hfresh. simpl.
    apply scan_user_same.
  - apply String.eqb_neq in E.
    destruct (scan_user_other ref u v ivs (not_eq_sym E) maps) as [E1 E2].
    now rewrite E1, E2.
Qed.

(** What [busyMap] and [nextBusyMap] hold for a user. *)
Lemma build_maps_get ref u (m : JSMap.t (list BusyInterval)) :
  NoDup (JSMap.keys m) ->
  JSMap.get u (fst (build_maps (JS.Num ref) m)) = busy_of ref (intervals_of u m)
  /\ JSMap.get u (snd (build_maps (JS.Num ref) m)) = next_of ref (intervals_of u m).
Proof.
  intro Hnd. exact (build_maps_from ref u m Hnd ([], [])).
Qed.

(** ** Intervals that are separated *)

Lemma separated_all (l : list BusyInterval) :
  forall a, separated (a :: l) -> Forall proper l ->
            forall b, In b l -> (endMinutes a < startMinutes b)%Q.
Proof.
  induction l as [|c l IH]; intros a Hsep Hp b Hin; [destruct Hin|].
  destruct Hsep as [Hac Hsep]. inversion Hp as [|? ? Hc Hl]; subst.
  destruct Hin as [-> | Hin]; [exact Hac|].
  pose proof (IH c Hsep Hl b Hin) as Hcb. unfold proper in Hc. lra.
Qed.

(** Two intervals of a separated list that share a point, or a start, are the
    same interval. *)
Lemma separated_unique (l : list BusyInterval) (a b : BusyInterval) :
  separated l -> Forall proper l -> In a l -> In b l ->
  (startMinutes a < endMinutes b)%Q -> (startMinutes b < endMinutes a)%Q ->
  a = b.
Proof.
  induction l as [|x l IH]; intros Hsep Hp Ha Hb Hab Hba; [destruct Ha|].
  inversion Hp as [|? ? Hx Hl]; subst.
  assert (separated l) as Hsep' by (destruct l; [exact I | apply Hsep]).
  destruct Ha as [-> | Ha], Hb as [-> | Hb].
  - reflexivity.
  - pose proof (separated_all l a Hsep Hl b Hb). lra.
  - pose proof (separated_all l b Hsep Hl a Ha). lra.
  - now apply IH.
Qed.

(** ** The entry left in [busyMap] *)

Lemma busy_fold ref (ivs : list BusyInterval) :
  forall acc,
    (fold_left (busy_step ref) ivs acc = None
     <-> acc = None /\ forall iv, In iv ivs -> ~ contains ref iv)
    /\ forall e,
         fold_left (busy_step ref) ivs acc = Some e ->
         acc = Some e
         \/ exists iv, In iv ivs /\ contains ref iv
                       /\ e = mkBusyMapEntry (formatTime (iv_end_time iv))
                                (endMinutes iv).
Proof.
  induction ivs as [|iv ivs IH]; intro acc; simpl.
  - split; [|intros e H; now left].
    split; [intro H; split; [exact H | intros ? []] | tauto].
  - destruct (IH (busy_step ref acc iv)) as [IH1 IH2].
    assert (contains ref iv \/ ~ contains ref iv) as Hdec.
    { unfold contains.
      destruct (Qlt_le_dec ref (startMinutes iv));
        destruct (Qlt_le_dec ref (endMinutes iv));
        (left; split; lra) || (right; intros [? ?]; lra). }
    assert (busy_step ref acc iv = acc /\ ~ contains ref iv
            \/ busy_step ref acc iv <> None /\ contains ref iv
               /\ (busy_step ref acc iv = acc
                   \/ busy_step ref acc iv
                      = Some (mkBusyMapEntry (formatTime (iv_end_time iv))
                                (endMinutes iv)))) as Hstep.
    { unfold busy_step, contains.
      destruct (Qle_bool (startMinutes iv) ref) eqn:E1; simpl.
      - apply Qle_bool_iff in E1.
        destruct (Qlt_bool ref (endMinutes iv)) eqn:E2.
        + apply Qlt_bool_true in E2. right.
          destruct acc as [e|].
          * destruct (Qlt_bool (bm_endMinutes e) (endMinutes iv));
              (split; [discriminate | split; [now split | auto]]).
          * split; [discriminate | split; [now split | auto]].
        + apply Qlt_bool_false in E2. left. split; [reflexivity|].
          intros [? ?]. lra.
      - apply Qle_bool_false in E1. left. split; [reflexivity|].
        intros [? ?]. lra. }
    split.
    + rewrite IH1. split.
      * intros [Hacc Hno].
        destruct Hstep as [[Heq Hn] | [Hne _]]; [|congruence].
        split; [congruence|]. intros iv' [<- | Hin]; auto.
      * intros [Hacc Hno].
        destruct Hstep as [[Heq Hn] | [_ [Hc _]]].
        -- split; [congruence | auto].
        -- exfalso. apply (Hno iv); auto.
    + intros e He. destruct (IH2 e He) as [Hacc | [iv' [Hin [Hc Hev]]]].
      * destruct Hstep as [[Heq _] | [_ [Hc [Heq | Heq]]]].
        -- left. congruence.
        -- left. congruence.
        -- right. exists iv. split; [now left | split; [exact Hc|congruence]].
      * right. exists iv'. split; [now right | now split].
Qed.

Lemma busy_of_None ref ivs :
  busy_of ref ivs = None <-> forall iv, In iv ivs -> ~ contains ref iv.
Proof.
  unfold busy_of. destruct (busy_fold ref ivs None) as [H _].
  rewrite H. tauto.
Qed.

Lemma busy_of_Some ref ivs iv :
  separated ivs -> Forall proper ivs -> In iv ivs -> contains ref iv ->
  busy_of ref ivs
  = Some (mkBusyMapEntry (formatTime (iv_end_time iv)) (endMinutes iv)).
Proof.
  intros Hsep Hp Hin Hc.
  destruct (busy_of ref ivs) as [e|] eqn:E.
  - unfold busy_of in E.
    destruct (busy_fold ref ivs None) as [_ H].
    destruct (H e E) as [Hacc | [iv' [Hin' [Hc' ->]]]]; [discriminate|].
    assert (iv' = iv) as ->; [|reflexivity].
    destruct Hc as [? ?], Hc' as [? ?].
    apply (separated_unique ivs); auto; lra.
  - exfalso. rewrite busy_of_None in E. exact (E iv Hin Hc).
Qed.

(** ** The entry left in [nextBusyMap] *)

Lemma later_dec ref iv : later ref iv \/ ~ later ref iv.
Proof.
  unfold later. destruct (Qlt_le_dec ref (startMinutes iv)); [now left|].
  right. lra.
Qed.

Lemma next_step_cases ref acc iv :
  (~ later ref iv /\ next_step ref acc iv = acc)
  \/ (later ref iv
      /\ exists n,
           next_step ref acc iv = Some n
           /\ (nb_startMinutes n <= startMinutes iv)%Q
           /\ (acc = Some n
               \/ n = mkNextBusyEntry (startMinutes iv)
                        (formatTime (iv_start_time iv)))
           /\ forall a, acc = Some a ->
                        (nb_startMinutes n <= nb_startMinutes a)%Q).
Proof.
  unfold next_step, later.
  destruct (Qlt_bool ref (startMinutes iv)) eqn:E.
  - apply Qlt_bool_true in E. right. split; [exact E|].
    destruct acc as [a|].
    + destruct (Qlt_bool (startMinutes iv) (nb_startMinutes a)) eqn:E2.
      * apply Qlt_bool_true in E2. eexists. split; [reflexivity|]. simpl.
        split; [lra|]. split; [now right|]. intros a' [= <-]. lra.
      * apply Qlt_bool_false in E2. exists a. split; [reflexivity|].
        split; [exact E2|]. split; [now left|]. intros a' [= <-]. lra.
    + eexists. split; [reflexivity|]. simpl. split; [lra|].
      split; [now right | discriminate].
  - apply Qlt_bool_false in E. left. split; [lra | reflexivity].
Qed.

Lemma next_fold ref (ivs : list BusyInterval) :
  forall acc,
    (fold_left (next_step ref) ivs acc = None
     <-> acc = None /\ forall iv, In iv ivs -> ~ later ref iv)
    /\ forall n,
         fold_left (next_step ref) ivs acc = Some n ->
         (acc = Some n
          \/ exists iv, In iv ivs /\ later ref iv
                        /\ n = mkNextBusyEntry (startMinutes iv)
                                 (formatTime (iv_start_time iv)))
         /\ (forall iv, In iv ivs -> later ref iv ->
                        (nb_startMinutes n <= startMinutes iv)%Q)
         /\ (forall a, acc = Some a ->
                       (nb_startMinutes n <= nb_startMinutes a)%Q).
Proof.
  induction ivs as [|iv ivs IH]; intro acc; simpl.
  - split.
    + split; [intro H; split; [exact H | intros ? []] | tauto].
    + intros n H. split; [now left|]. split; [intros ? []|].
      intros a Ha. rewrite H in Ha. injection Ha as <-. lra.
  - destruct (IH (next_step ref acc iv)) as [IH1 IH2].
    destruct (next_step_cases ref acc iv)
      as [[Hnl Heq] | [Hl [n0 [Heq [Hle [Hfrom Hacc]]]]]].
    + rewrite Heq in *. split.
      * rewrite IH1. split.
        -- intros [Ha Hno]. split; [exact Ha|]. intros iv' [<- | Hin]; auto.
        -- intros [Ha Hno]. split; auto.
      * intros n Hn. destruct (IH2 n Hn) as [Hsrc [Hmin Hold]].
        split; [|split; [|exact Hold]].
        -- destruct Hsrc as [Hsrc | [iv' [Hin [Hl' Hn']]]]; [now left|].
           right. exists iv'. split; [now right | now split].
        -- intros iv' [<- | Hin] Hl'; [contradiction | auto].
    + rewrite Heq in *. split.
      * rewrite IH1. split; [intros [? _]; discriminate|].
        intros [_ Hno]. exfalso. apply (Hno iv); auto.
      * intros n Hn. destruct (IH2 n Hn) as [Hsrc [Hmin Hold]].
        pose proof (Hold n0 eq_refl) as Hn0.
        split; [|split].
        -- destruct Hsrc as [Hsrc | [iv' [Hin [Hl' Hn']]]].
           ++ injection Hsrc as <-. destruct Hfrom as [Hfrom | Hfrom].
              ** now left.
              ** right. exists iv. split; [now left | now split].
           ++ right. exists iv'. split; [now right | now split].
        -- intros iv' [<- | Hin] Hl'; [lra | auto].
        -- intros a Ha. specialize (Hacc a Ha). lra.
Qed.

Lemma next_of_None ref ivs :
  next_of ref ivs = None <-> forall iv, In iv ivs -> ~ later ref iv.
Proof.
  unfold next_of. destruct (next_fold ref ivs None) as [H _].
  rewrite H. tauto.
Qed.

Lemma next_of_Some ref ivs iv :
  separated ivs -> Forall proper ivs -> earliest_later ref ivs iv ->
  next_of ref ivs
  = Some (mkNextBusyEntry (startMinutes iv) (formatTime (iv_start_time iv))).
Proof.
  intros Hsep Hp [Hin [Hl Hmin]].
  destruct (next_of ref ivs) as [n|] eqn:E.
  - unfold next_of in E. destruct (next_fold ref ivs None) as [_ H].
    destruct (H n E) as [[Hacc | [iv' [Hin' [Hl' ->]]]] [Hmin' _]];
      [discriminate|].
    simpl in Hmin'. pose proof (Hmin' iv Hin Hl) as H1.
    pose proof (Hmin iv' Hin' Hl') as H2.
    assert (iv' = iv) as ->; [|reflexivity].
    rewrite Forall_forall in Hp.
    pose proof (Hp iv Hin) as P1. pose proof (Hp iv' Hin') as P2.
    unfold proper in P1, P2.
    apply (separated_unique ivs); auto; [apply Forall_forall; exact Hp | lra | lra].
  - exfalso. rewrite next_of_None in E. exact (E iv Hin Hl).
Qed.

(** ** The three arrays *)

Lemma classify_from members uploadedSet maps :
  forall free busy unknown,
    fold_left
      (fun lists member =>
         push_status lists (classify_member uploadedSet maps member))
      members (free, busy, unknown)
    = let statuses := map (classify_member uploadedSet maps) members in
      (free ++ free_entries statuses, busy ++ busy_entries statuses,
       unknown ++ unknown_entries statuses).
Proof.
  induction members as [|m members IH]; intros free busy unknown; simpl.
  - now rewrite !app_nil_r.
  - destruct (classify_member uploadedSet maps m) as [e|e|e]; simpl;
      rewrite IH; simpl; now rewrite <- ?app_assoc.
Qed.

Lemma classify_eq members uploadedSet maps :
  classify members uploadedSet maps
  = let statuses := map (classify_member uploadedSet maps) members in
    (free_entries statuses, busy_entries statuses, unknown_entries statuses).
Proof. apply (classify_from members uploadedSet maps [] [] []). Qed.

Lemma In_free_entries e statuses :
  In e (free_entries statuses) <-> In (Free e) statuses.
Proof.
  induction statuses as [|[x|x|x] l IH]; simpl; try tauto;
    rewrite IH; intuition congruence.
Qed.

Lemma In_busy_entries e statuses :
  In e (busy_entries statuses) <-> In (Busy e) statuses.
Proof.
  induction statuses as [|[x|x|x] l IH]; simpl; try tauto;
    rewrite IH; intuition congruence.
Qed.

Lemma In_unknown_entries e statuses :
  In e (unknown_entries statuses) <-> In (Unknown e) statuses.
Proof.
  induction statuses as [|[x|x|x] l IH]; simpl; try tauto;
    rewrite IH; intuition congruence.
Qed.

(** The status of a member, from the entries of the two maps. *)
Lemma classify_member_eq uploadedSet maps member :
  classify_member uploadedSet maps member
  = let uid := member_user_id member in
    let name := member_name member in
    if negb (Set_has uid uploadedSet) then Unknown (mkUnknownEntry uid name)
    else match JSMap.get uid (fst maps) with
         | Some e => Busy (mkBusyEntry uid name (bm_busy_until e))
         | None =>
             Free (mkFreeEntry uid name
                     (option_map nb_startLabel (JSMap.get uid (snd maps))))
         end.
Proof.
  destruct maps as [bm nm]. unfold classify_member. simpl.
  destruct (negb (Set_has (member_user_id member) uploadedSet)); [reflexivity|].
  destruct (JSMap.get (member_user_id member) bm); [reflexivity|].
  now destruct (JSMap.get (member_user_id member) nm).
Qed.

End ClassifyFacts.

(* ================================================================== *)
(** * The [time] parameter *)
(* ================================================================== *)

Module TimeParamFacts.
Import Route Props Tools.

(** ** Character classes as bounds on the character code *)

Lemma in_range_true lo hi c :
  JS.in_range lo hi c = true <-> (lo <= nat_of_ascii c <= hi)%nat.
Proof.
  unfold JS.in_range. rewrite andb_true_iff, !Nat.leb_le. tauto.
Qed.

Lemma in_range_false lo hi c :
  JS.in_range lo hi c = false
  <-> (nat_of_ascii c < lo \/ hi < nat_of_ascii c)%nat.
Proof.
  unfold JS.in_range. rewrite andb_false_iff, !Nat.leb_gt. tauto.
Qed.

Lemma literal_class c0 c : RegExp.in_class c0 c0 c = true -> c = c0.
Proof.
  unfold RegExp.in_class. rewrite in_range_true. intro H.
  rewrite <- (ascii_nat_embedding c), <- (ascii_nat_embedding c0).
  f_equal. lia.
Qed.

Lemma digit_value_digit c :
  (48 <= nat_of_ascii c <= 57)%nat ->
  JS.digit_value c = Z.of_nat (nat_of_ascii c) - 48.
Proof.
  intro H. unfold JS.digit_value.
  apply in_range_true in H. now rewrite H.
Qed.

(** The code of a character, as an integer. *)
Local Abbreviation code c := (Z.of_nat (nat_of_ascii c)).

(** ** The fields of the specification, character by character *)

Lemma hour_field_one a :
  (48 <= nat_of_ascii a <= 57)%nat -> hour_field (String a "").
Proof.
  intro Ha. unfold hour_field, all_digits, decimal_value, JS.digits_value.
  simpl. unfold JS.is_digit. rewrite (proj2 (in_range_true 48 57 a) Ha).
  rewrite (digit_value_digit a Ha). repeat split; auto. lia.
Qed.

Lemma hour_field_two a b :
  (48 <= nat_of_ascii a <= 57)%nat -> (48 <= nat_of_ascii b <= 57)%nat ->
  (code a - 48) * 10 + (code b - 48) <= 23 ->
  hour_field (String a (String b "")).
Proof.
  intros Ha Hb Hv. unfold hour_field, all_digits, decimal_value, JS.digits_value.
  simpl. unfold JS.is_digit.
  rewrite (proj2 (in_range_true 48 57 a) Ha), (proj2 (in_range_true 48 57 b) Hb).
  rewrite (digit_value_digit a Ha), (digit_value_digit b Hb).
  repeat split; auto.
Qed.

Lemma sixty_field_two a b :
  (48 <= nat_of_ascii a <= 53)%nat -> (48 <= nat_of_ascii b <= 57)%nat ->
  sixty_field (String a (String b "")).
Proof.
  intros Ha Hb. unfold sixty_field, all_digits, decimal_value, JS.digits_value.
  simpl. unfold JS.is_digit.
  rewrite (proj2 (in_range_true 48 57 a)) by lia.
  rewrite (proj2 (in_range_true 48 57 b) Hb).
  rewrite (digit_value_digit a) by lia. rewrite (digit_value_digit b Hb).
  repeat split; auto. lia.
Qed.

Lemma all_digits_cons a s :
  all_digits (String a s) = true ->
  (48 <= nat_of_ascii a <= 57)%nat /\ all_digits s = true.
Proof.
  unfold all_digits. simpl. rewrite andb_true_iff. unfold JS.is_digit.
  rewrite in_range_true. tauto.
Qed.

Lemma hour_field_inv h :
  hour_field h ->
  (exists a, h = String a "" /\ (48 <= nat_of_ascii a <= 57)%nat)
  \/ (exists a b,
        h = String a (String b "")
        /\ (48 <= nat_of_ascii a <= 57)%nat
        /\ (48 <= nat_of_ascii b <= 57)%nat
        /\ (code a - 48) * 10 + (code b - 48) <= 23).
Proof.
  intros [Hlen [Hd Hv]].
  destruct h as [|a [|b [|c h]]]; simpl in Hlen;
    try (destruct Hlen; discriminate).
  - left. exists a. split; [reflexivity|].
    now apply all_digits_cons in Hd.
  - right. exists a, b. split; [reflexivity|].
    apply all_digits_cons in Hd. destruct Hd as [Ha Hd].
    apply all_digits_cons in Hd. destruct Hd as [Hb _].
    repeat split; try tauto.
    unfold decimal_value, JS.digits_value in Hv. simpl in Hv.
    now rewrite (digit_value_digit a Ha), (digit_value_digit b Hb) in Hv.
Qed.

Lemma sixty_field_inv m :
  sixty_field m ->
  exists a b,
    m = String a (String b "")
    /\ (48 <= nat_of_ascii a <= 53)%nat /\ (48 <= nat_of_ascii b <= 57)%nat.
Proof.
  intros [Hlen [Hd Hv]].
  destruct m as [|a [|b [|c m]]]; simpl in Hlen; try discriminate.
  exists a, b. split; [reflexivity|].
  apply all_digits_cons in Hd. destruct Hd as [Ha Hd].
  apply all_digits_cons in Hd. destruct Hd as [Hb _].
  unfold decimal_value, JS.digits_value in Hv. simpl in Hv.
  rewrite (digit_value_digit a Ha), (digit_value_digit b Hb) in Hv.
  lia.
Qed.

(** ** The regular expression against the fields *)

(** Turn what is known of the class tests into bounds on character codes. *)
Ltac known_codes :=
  repeat match goal with
  | H : context [nat_of_ascii (Ascii ?a ?b ?c ?d ?e ?f ?g ?h)] |- _ =>
      let v := eval vm_compute in (nat_of_ascii (Ascii a b c d e f g h)) in
      change (nat_of_ascii (Ascii a b c d e f g h)) with v in H
  end.

Ltac class_bounds :=
  repeat match goal with
  | H : RegExp.in_class ?lo ?hi ?c = true |- _ => apply in_range_true in H
  | H : RegExp.in_class ?lo ?hi ?c = false |- _ => apply in_range_false in H
  end;
  known_codes.

Ltac split_tests_in H :=
  repeat match type of H with
  | context [if RegExp.in_class ?lo ?hi ?c then _ else _] =>
      let E := fresh "E" in
      destruct (RegExp.in_class lo hi c) eqn:E; cbv iota beta in H;
      try discriminate H
  end.

Ltac colon_facts :=
  repeat match goal with
  | H : RegExp.in_class ":" ":" ?c = true |- _ =>
      lazymatch goal with
      | _ : c = ":"%char |- _ => fail
      | _ => pose proof (literal_class ":" c H)
      end
  end.

(** Open the run of the expression on a string of known length, test by
    test; the runs that fail are dismissed. *)
Ltac run_regex H :=
  unfold RegExp.match_whole, time_regex, RegExp.Lit in H;
  cbn [RegExp.run list_ascii_of_string] in H;
  split_tests_in H; try discriminate H;
  colon_facts; subst; class_bounds; try (exfalso; lia).

(** The four shapes of an accepted string. *)
Ltac clock_shape :=
  lazymatch goal with
  | |- clock_form (String ?h1 (String ":" (String ?m1 (String ?m2 "")))) =>
      exists (String h1 ""), (String m1 (String m2 ""));
      split; [apply hour_field_one; lia|];
      split; [apply sixty_field_two; lia | now left]
  | |- clock_form
         (String ?h1 (String ?h2 (String ":" (String ?m1 (String ?m2 ""))))) =>
      exists (String h1 (String h2 "")), (String m1 (String m2 ""));
      split; [apply hour_field_two; lia|];
      split; [apply sixty_field_two; lia | now left]
  | |- clock_form
         (String ?h1 (String ":" (String ?m1 (String ?m2
            (String ":" (String ?s1 (String ?s2 ""))))))) =>
      exists (String h1 ""), (String m1 (String m2 ""));
      split; [apply hour_field_one; lia|];
      split; [apply sixty_field_two; lia | right];
      exists (String s1 (String s2 ""));
      split; [apply sixty_field_two; lia | reflexivity]
  | |- clock_form
         (String ?h1 (String ?h2 (String ":" (String ?m1 (String ?m2
            (String ":" (String ?s1 (String ?s2 "")))))))) =>
      exists (String h1 (String h2 "")), (String m1 (String m2 ""));
      split; [apply hour_field_two; lia|];
      split; [apply sixty_field_two; lia | right];
      exists (String s1 (String s2 ""));
      split; [apply sixty_field_two; lia | reflexivity]
  end.

Lemma accepted_clock_form s : accepted s -> clock_form s.
Proof.
  unfold accepted. intro Hacc.
  destruct (RegExp.match_whole time_regex s) as [caps|] eqn:H;
    [clear Hacc | congruence].
  destruct s as [|c1 [|c2 [|c3 [|c4 [|c5 [|c6 [|c7 [|c8 [|c9 s]]]]]]]]];
    run_regex H; clock_shape.
Qed.

Ltac split_tests :=
  repeat match goal with
  | |- context [if RegExp.in_class ?lo ?hi ?c then _ else _] =>
      let E := fresh "E" in
      destruct (RegExp.in_class lo hi c) eqn:E; cbv iota beta
  end.

(** Run the expression on a string of one of the four shapes. *)
Ltac accept :=
  unfold accepted, RegExp.match_whole, time_regex, RegExp.Lit;
  cbn [RegExp.run list_ascii_of_string];
  split_tests; try discriminate;
  exfalso; class_bounds; lia.

Lemma clock_form_accepted s : clock_form s -> accepted s.
Proof.
  intros [h [m [Hh [Hm Hs]]]].
  apply sixty_field_inv in Hm. destruct Hm as [m1 [m2 [-> [Hm1 Hm2]]]].
  apply hour_field_inv in Hh.
  destruct Hs as [-> | [sec [Hsec ->]]].
  - destruct Hh as [[h1 [-> Hh1]] | [h1 [h2 [-> [Hh1 [Hh2 Hv]]]]]];
      simpl; accept.
  - apply sixty_field_inv in Hsec.
    destruct Hsec as [s1 [s2 [-> [Hs1 Hs2]]]].
    destruct Hh as [[h1 [-> Hh1]] | [h1 [h2 [-> [Hh1 [Hh2 Hv]]]]]];
      simpl; accept.
Qed.

Lemma parseTimeParam_accepted s :
  parseTimeParam (Some s) <> None <-> accepted s.
Proof.
  unfold parseTimeParam, accepted. destruct s as [|c s].
  - split; intro H; exfalso; apply H; reflexivity.
  - destruct (RegExp.match_whole time_regex (String c s)); split;
      congruence.
Qed.

End TimeParamFacts.

(* ================================================================== *)
(** * ICS normalisation *)
(* ================================================================== *)

Module ParseIcsFacts.
Import ParseIcs PropsIcs.

Lemma add_entries_codes (entries : list WeekdayEntry) :
  forall normalized,
    fold_left add_entry entries normalized
    = fold_left (fun s c => Set_add (c + 1) s)
        (flat_map
           (fun entry =>
              match entry_code entry with Some c => [c] | None => [] end)
           entries)
        normalized.
Proof.
  induction entries as [|entry entries IH]; intro normalized; simpl.
  - reflexivity.
  - rewrite IH, fold_left_app. unfold add_entry. fold (entry_code entry).
    now destruct (entry_code entry).
Qed.

Lemma Set_add_In x d s : In d (Set_add x s) <-> d = x \/ In d s.
Proof.
  unfold Set_add. destruct (existsb (Z.eqb x) s) eqn:E.
  - apply existsb_exists in E. destruct E as [y [Hy Heq]].
    apply Z.eqb_eq in Heq. subst y. intuition congruence.
  - rewrite in_app_iff. simpl. intuition congruence.
Qed.

Lemma Set_add_NoDup x s : NoDup s -> NoDup (Set_add x s).
Proof.
  intro Hnd. unfold Set_add. destruct (existsb (Z.eqb x) s) eqn:E; [exact Hnd|].
  assert (~ In x s) as Hn.
  { intro Hin. assert (existsb (Z.eqb x) s = true) as T; [|congruence].
    apply existsb_exists. exists x. split; [exact Hin | apply Z.eqb_refl]. }
  apply NoDup_rev in Hnd. rewrite <- (rev_involutive (s ++ [x])).
  apply NoDup_rev. rewrite rev_app_distr. simpl.
  constructor; [now rewrite <- in_rev | exact Hnd].
Qed.

Lemma add_entries_spec (entries : list WeekdayEntry) :
  forall normalized,
    NoDup normalized ->
    NoDup (fold_left add_entry entries normalized)
    /\ forall d,
         In d (fold_left add_entry entries normalized)
         <-> In d normalized
             \/ In (d - 1)
                  (flat_map
                     (fun entry =>
                        match entry_code entry with
                        | Some c => [c]
                        | None => []
                        end) entries).
Proof.
  induction entries as [|entry entries IH]; intros normalized Hnd; simpl.
  - split; [exact Hnd | tauto].
  - assert (NoDup (add_entry normalized entry)
            /\ forall d, In d (add_entry normalized entry)
                         <-> In d normalized
                             \/ entry_code entry = Some (d - 1)) as [H1 H2].
    { unfold add_entry. fold (entry_code entry).
      destruct (entry_code entry) as [c|].
      - split; [now apply Set_add_NoDup|]. intro d. rewrite Set_add_In.
        split.
        + intros [-> | H]; [right; f_equal; lia | now left].
        + intros [H | [= ->]]; [now right | left; lia].
      - split; [exact Hnd|]. intro d. split; [now left|].
        intros [H | H]; [exact H | discriminate]. }
    destruct (IH _ H1) as [IH1 IH2]. split; [exact IH1|].
    intro d. rewrite IH2, H2, in_app_iff.
    destruct (entry_code entry) as [c|]; simpl; intuition congruence.
Qed.

Lemma push_weekdays st et (weekdays : list Z) :
  forall blocks,
    fold_left (push_weekday st et) weekdays blocks
    = blocks
      ++ map (fun w => mkBusyBlockInput w st et)
           (filter in_business_week weekdays).
Proof.
  induction weekdays as [|w weekdays IH]; intro blocks; simpl.
  - now rewrite app_nil_r.
  - rewrite IH. unfold push_weekday, in_business_week.
    destruct ((w <? WEEKDAY_MIN) || (WEEKDAY_MAX <? w)); simpl.
    + reflexivity.
    + now rewrite <- app_assoc.
Qed.

Lemma weekend_filtered (weekdays : list Z) :
  (forall w, In w weekdays -> w = 6 \/ w = 7) ->
  filter in_business_week weekdays = [].
Proof.
  induction weekdays as [|w ws IH]; intro H; [reflexivity|].
  simpl. destruct (H w (or_introl eq_refl)) as [-> | ->]; simpl;
    apply IH; intros w' Hw'; apply H; now right.
Qed.

Section Zone.
Variable off : Z -> Z.

(** ** Weekdays *)

Lemma getWeekdayInZone_weekdayOf instant :
  getWeekdayInZone off instant = Some (weekdayOf off instant).
Proof.
  unfold getWeekdayInZone, weekdayOf, Intl.weekdayShort.
  set (k := (Intl.localDay off instant + 3) mod 7).
  assert (0 <= k < 7) as Hk by (apply Z.mod_pos_bound; lia).
  assert (k = 0 \/ k = 1 \/ k = 2 \/ k = 3 \/ k = 4 \/ k = 5 \/ k = 6)
    as Hcases by lia.
  destruct Hcases as [-> | [-> | [-> | [-> | [-> | [-> | ->]]]]]];
    reflexivity.
Qed.

Lemma weekdayOf_range instant : 1 <= weekdayOf off instant <= 7.
Proof.
  unfold weekdayOf.
  pose proof (Z.mod_pos_bound (Intl.localDay off instant + 3) 7). lia.
Qed.

(** [extractWeekdays], with the two tiers apart. *)
Lemma extractWeekdays_eq event :
  extractWeekdays off event
  = let fromRule := fold_left add_entry (rule_entries event) [] in
    match fromRule with
    | _ :: _ => fromRule
    | [] =>
        match start event with
        | Some d => [weekdayOf off d]
        | None => []
        end
    end.
Proof.
  unfold extractWeekdays, rule_entries.
  assert (forall d,
            match getWeekdayInZone off d with
            | Some w => if w =? 0 then [] else [w]
            | None => []
            end = [weekdayOf off d]) as Hfall.
  { intro d. rewrite getWeekdayInZone_weekdayOf.
    pose proof (weekdayOf_range d) as Hr.
    destruct (Z.eqb_spec (weekdayOf off d) 0); [lia | reflexivity]. }
  destruct (rrule event) as [[[[[[entries|w|n]|]]|]]|]; simpl;
    try (destruct (start event); [apply Hfall | reflexivity]).
  - destruct (fold_left add_entry entries []); [|reflexivity].
    destruct (start event); [apply Hfall | reflexivity].
  - destruct (add_entry [] (EntryObject w)); [|reflexivity].
    destruct (start event); [apply Hfall | reflexivity].
  - reflexivity.
Qed.

(** ** Blocks *)

(** The blocks one event contributes. *)
Lemma entry_step_timed blocks event s e :
  timed_event event s e ->
  entry_step off blocks (Some event)
  = if e <=? s then blocks
    else blocks
         ++ map (fun w =>
                   mkBusyBlockInput w (formatTime off s) (formatTime off e))
              (filter in_business_week (extractWeekdays off event)).
Proof.
  intros [Ht [Hs [He Hd]]]. unfold entry_step. rewrite Ht, Hs, He. simpl.
  assert (match datetype event with
          | Some t => String.eqb t "date"
          | None => false
          end = false) as ->.
  { destruct (datetype event) as [t|]; [|reflexivity].
    apply String.eqb_neq. congruence. }
  destruct (e <=? s); [reflexivity|].
  rewrite push_weekdays.
  destruct (extractWeekdays off event); [|reflexivity].
  simpl. now rewrite app_nil_r.
Qed.

Lemma entry_step_cases blocks entry :
  entry_step off blocks entry = blocks
  \/ exists event s e,
       entry = Some event /\ timed_event event s e /\ s < e
       /\ entry_step off blocks entry
          = blocks
            ++ map (fun w =>
                      mkBusyBlockInput w (formatTime off s) (formatTime off e))
                 (filter in_business_week (extractWeekdays off event)).
Proof.
  destruct entry as [event|]; [|now left].
  destruct (type event) as [t|] eqn:Ht; [|left; unfold entry_step; now rewrite Ht].
  destruct (String.eqb t "VEVENT") eqn:Et;
    [|left; unfold entry_step; now rewrite Ht, Et].
  apply String.eqb_eq in Et. subst t.
  destruct (start event) as [s|] eqn:Hs;
    [|left; unfold entry_step; now rewrite Ht, Hs].
  destruct (end_ event) as [e|] eqn:He;
    [|left; unfold entry_step; now rewrite Ht, Hs, He].
  destruct (datetype event) as [d|] eqn:Hd.
  - destruct (String.eqb d "date") eqn:Ed.
    + left. unfold entry_step. now rewrite Ht, Hs, He, Hd, Ed.
    + apply String.eqb_neq in Ed.
      assert (timed_event event s e) as Htimed.
      { repeat split; try assumption. rewrite Hd. congruence. }
      rewrite (entry_step_timed blocks event s e Htimed).
      destruct (Z.leb_spec e s); [now left|].
      right. exists event, s, e.
      split; [reflexivity | split; [exact Htimed | split; [lia | reflexivity]]].
  - assert (timed_event event s e) as Htimed.
    { repeat split; try assumption. rewrite Hd. discriminate. }
    rewrite (entry_step_timed blocks event s e Htimed).
    destruct (Z.leb_spec e s); [now left|].
    right. exists event, s, e.
    split; [reflexivity | split; [exact Htimed | split; [lia | reflexivity]]].
Qed.

(** Where an emitted block comes from. *)
Lemma parsed_block_origin (parsed : list (option ParsedEvent)) :
  forall blocks b,
    In b (fold_left (entry_step off) parsed blocks) ->
    In b blocks
    \/ exists event s e w,
         In (Some event) parsed /\ timed_event event s e /\ s < e
         /\ In w (extractWeekdays off event) /\ in_business_week w = true
         /\ b = mkBusyBlockInput w (formatTime off s) (formatTime off e).
Proof.
  induction parsed as [|entry parsed IH]; intros blocks b Hin; simpl in *.
  - now left.
  - destruct (IH _ _ Hin) as [Hb | [event [s [e [w [H1 H2]]]]]].
    + destruct (entry_step_cases blocks entry)
        as [Heq | [event [s [e [-> [Ht [Hlt Heq]]]]]]];
        rewrite Heq in Hb; [now left|].
      apply in_app_or in Hb. destruct Hb as [Hb | Hb]; [now left|].
      apply in_map_iff in Hb. destruct Hb as [w [<- Hw]].
      apply filter_In in Hw. destruct Hw as [Hw1 Hw2].
      right. exists event, s, e, w.
      split; [now left|]. split; [exact Ht|]. split; [exact Hlt|].
      split; [exact Hw1|]. split; [exact Hw2 | reflexivity].
    + right. exists event, s, e, w. split; [now right | exact H2].
Qed.

End Zone.
(** ** Clock strings *)

(** The conversion of every clock string the normaliser can produce, checked
    against [h * 60 + m]. *)
Lemma clock_table :
  forallb
    (fun h =>
       forallb
         (fun m =>
            Props.same_number
              (Route.timeToMinutes (clock_string (Z.of_nat h) (Z.of_nat m)))
              (JS.Num (inject_Z (Z.of_nat h * 60 + Z.of_nat m))))
         (seq 0 60))
    (seq 0 24) = true.
Proof. vm_compute. reflexivity. Qed.

(** [Number] on every two-digit field, checked against its value. *)
Lemma two_digit_table :
  forallb
    (fun n =>
       Props.same_number (JS.Number (Intl.two_digit (Z.of_nat n)))
         (JS.Num (inject_Z (Z.of_nat n))))
    (seq 0 100) = true.
Proof. vm_compute. reflexivity. Qed.

(** [Number] never yields NaN on a field of the formatter. *)
Lemma Number_two_digit (n : Z) :
  0 <= n < 100 ->
  exists q, JS.Number (Intl.two_digit n) = JS.Num q /\ (q == inject_Z n)%Q.
Proof.
  intro Hn. pose proof two_digit_table as T.
  rewrite forallb_forall in T. specialize (T (Z.to_nat n)).
  rewrite Z2Nat.id in T by lia.
  assert (In (Z.to_nat n) (seq 0 100)) as Hin by (apply in_seq; lia).
  specialize (T Hin). apply Tools.same_number_eq in T.
  exists (inject_Z n). split; [exact T | reflexivity].
Qed.

Lemma Number_two_digit_value (n : Z) :
  0 <= n < 100 -> JS.Number (Intl.two_digit n) = JS.Num (inject_Z n).
Proof.
  intro Hn. pose proof two_digit_table as T.
  rewrite forallb_forall in T. specialize (T (Z.to_nat n)).
  rewrite Z2Nat.id in T by lia.
  assert (In (Z.to_nat n) (seq 0 100)) as Hin by (apply in_seq; lia).
  specialize (T Hin). now apply Tools.same_number_eq.
Qed.

Lemma clock_string_minutes (h m : Z) :
  0 <= h < 24 -> 0 <= m < 60 ->
  Route.timeToMinutes (clock_string h m) = JS.Num (inject_Z (h * 60 + m)).
Proof.
  intros Hh Hm. pose proof clock_table as T.
  rewrite forallb_forall in T. specialize (T (Z.to_nat h)).
  assert (In (Z.to_nat h) (seq 0 24)) as Hin by (apply in_seq; lia).
  specialize (T Hin). rewrite forallb_forall in T.
  specialize (T (Z.to_nat m)).
  assert (In (Z.to_nat m) (seq 0 60)) as Hin' by (apply in_seq; lia).
  specialize (T Hin'). rewrite !Z2Nat.id in T by lia.
  now apply Tools.same_number_eq.
Qed.

Section Clock.
Variable off : Z -> Z.

Lemma formatTime_clock instant :
  formatTime off instant
  = clock_string (Intl.localHour off instant) (Intl.localMinute off instant).
Proof. reflexivity. Qed.

Lemma hour_minute_of_day instant :
  Intl.localHour off instant * 60 + Intl.localMinute off instant
  = minuteOfDay off instant.
Proof.
  unfold Intl.localHour, Intl.localMinute, minuteOfDay.
  generalize (Intl.localMillis off instant). intro x.
  Z.div_mod_to_equations. lia.
Qed.

Lemma formatTime_minutes instant :
  Route.timeToMinutes (formatTime off instant)
  = JS.Num (inject_Z (minuteOfDay off instant)).
Proof.
  rewrite formatTime_clock, <- hour_minute_of_day.
  apply clock_string_minutes.
  - unfold Intl.localHour. generalize (Intl.localMillis off instant).
    intro x. Z.div_mod_to_equations. lia.
  - unfold Intl.localMinute. generalize (Intl.localMillis off instant).
    intro x. Z.div_mod_to_equations. lia.
Qed.

(** Within one civil day, under one offset, a minute later on the clock. *)
Lemma minuteOfDay_increases s e :
  Intl.localDay off s = Intl.localDay off e -> off s = off e ->
  60000 <= e - s -> minuteOfDay off s < minuteOfDay off e.
Proof.
  unfold Intl.localDay, minuteOfDay, Intl.localMillis.
  intros Hday Hoff Hgap. rewrite Hoff in *.
  generalize dependent (off e). intros o Hoff Hday.
  Z.div_mod_to_equations. lia.
Qed.

End Clock.

End ParseIcsFacts.

(* ================================================================== *)
(** * Clock strings *)
(* ================================================================== *)

Module ClockFacts.
Import Route Props PropsIcs PropsClock Tools TimeParamFacts ParseIcsFacts.

(** ** [split] on fields without a colon *)

Lemma split_field (a rest : string) :
  no_colon a = true ->
  JS.split ":" (a ++ String ":" rest) = a :: JS.split ":" rest.
Proof.
  unfold no_colon. induction a as [|c a IH]; simpl; intro H; [reflexivity|].
  apply andb_true_iff in H. destruct H as [Hc Ha].
  apply negb_true_iff in Hc. rewrite Hc, (IH Ha). reflexivity.
Qed.

Lemma split_last_field (a : string) :
  no_colon a = true -> JS.split ":" a = [a].
Proof.
  unfold no_colon. induction a as [|c a IH]; simpl; intro H; [reflexivity|].
  apply andb_true_iff in H. destruct H as [Hc Ha].
  apply negb_true_iff in Hc. rewrite Hc, (IH Ha). reflexivity.
Qed.

Lemma digits_no_colon (s : string) : all_digits s = true -> no_colon s = true.
Proof.
  unfold all_digits, no_colon.
  induction (list_ascii_of_string s) as [|c l IH]; simpl; [reflexivity|].
  intro H. apply andb_true_iff in H. destruct H as [Hc Hl].
  rewrite (IH Hl), andb_true_r. apply negb_true_iff.
  destruct (Ascii.eqb c ":") eqn:E; [|reflexivity].
  apply Ascii.eqb_eq in E. subst c. discriminate Hc.
Qed.

(** [formatTime] looks at the first two fields only. *)
Lemma formatTime_ignores_seconds (a b rest : string) :
  no_colon a = true -> no_colon b = true ->
  formatTime (a ++ ":" ++ b ++ ":" ++ rest) = formatTime (a ++ ":" ++ b).
Proof.
  intros Ha Hb. unfold formatTime. simpl.
  rewrite (split_field a _ Ha), (split_field b rest Hb).
  rewrite (split_field a b Ha), (split_last_field b Hb). reflexivity.
Qed.

(** ** [Number] on one or two digits *)

Lemma digit_cases (c : ascii) :
  (48 <= nat_of_ascii c <= 57)%nat ->
  In c ["0"; "1"; "2"; "3"; "4"; "5"; "6"; "7"; "8"; "9"]%char.
Proof.
  intro H. rewrite <- (ascii_nat_embedding c).
  assert (nat_of_ascii c = 48 \/ nat_of_ascii c = 49 \/ nat_of_ascii c = 50
          \/ nat_of_ascii c = 51 \/ nat_of_ascii c = 52
          \/ nat_of_ascii c = 53 \/ nat_of_ascii c = 54
          \/ nat_of_ascii c = 55 \/ nat_of_ascii c = 56
          \/ nat_of_ascii c = 57)%nat as Hc by lia.
  repeat (destruct Hc as [-> | Hc]; [simpl; tauto|]).
  rewrite Hc. simpl. tauto.
Qed.

Lemma Number_field (s : string) :
  (String.length s = 1 \/ String.length s = 2)%nat -> all_digits s = true ->
  JS.Number s = JS.Num (inject_Z (decimal_value s)) /\ 0 <= decimal_value s.
Proof.
  intros Hlen Hd.
  destruct s as [|a [|b [|c s]]]; simpl in Hlen;
    try (destruct Hlen; discriminate).
  - apply all_digits_cons in Hd. destruct Hd as [Ha _].
    apply digit_cases in Ha. simpl in Ha.
    repeat (destruct Ha as [<- | Ha];
            [split; [vm_compute; reflexivity | vm_compute; discriminate]|]).
    destruct Ha.
  - apply all_digits_cons in Hd. destruct Hd as [Ha Hd].
    apply all_digits_cons in Hd. destruct Hd as [Hb _].
    apply digit_cases in Ha. apply digit_cases in Hb. simpl in Ha, Hb.
    repeat (destruct Ha as [<- | Ha];
            [repeat (destruct Hb as [<- | Hb];
                     [split; [vm_compute; reflexivity
                             | vm_compute; discriminate]|]);
             destruct Hb|]).
    destruct Ha.
Qed.

(** [timeToMinutes] on three digit fields. *)
Lemma timeToMinutes_fields (h m sec : string) :
  hour_field h -> sixty_field m -> sixty_field sec ->
  timeToMinutes (h ++ ":" ++ m ++ ":" ++ sec)
  = clock_minutes (decimal_value h) (decimal_value m) (decimal_value sec).
Proof.
  intros [Hhl [Hhd _]] [Hml [Hmd _]] [Hsl [Hsd _]].
  unfold timeToMinutes, clock_minutes. simpl.
  rewrite (split_field h _ (digits_no_colon h Hhd)).
  rewrite (split_field m _ (digits_no_colon m Hmd)).
  rewrite (split_last_field sec (digits_no_colon sec Hsd)).
  destruct (Number_field h Hhl Hhd) as [Eh _].
  destruct (Number_field m (or_intror Hml) Hmd) as [Em _].
  destruct (Number_field sec (or_intror Hsl) Hsd) as [Es _].
  simpl. rewrite Eh, Em, Es. reflexivity.
Qed.

(** ** The arithmetic of [timeToMinutes] on clock fields *)

(** Hours and minutes add up exactly. *)
Lemma whole_minutes_table :
  forallb
    (fun h =>
       forallb
         (fun m =>
            same_number
              (JS.add
                 (JS.mul (JS.Num (inject_Z (Z.of_nat h))) (JS.Num 60))
                 (JS.Num (inject_Z (Z.of_nat m))))
              (JS.Num (inject_Z (Z.of_nat h * 60 + Z.of_nat m))))
         (seq 0 60))
    (seq 0 24) = true.
Proof. vm_compute. reflexivity. Qed.

Lemma whole_minutes (h m : Z) :
  0 <= h < 24 -> 0 <= m < 60 ->
  JS.add (JS.mul (JS.Num (inject_Z h)) (JS.Num 60)) (JS.Num (inject_Z m))
  = JS.Num (inject_Z (h * 60 + m)).
Proof.
  intros Hh Hm. pose proof whole_minutes_table as T.
  rewrite forallb_forall in T. specialize (T (Z.to_nat h)).
  assert (In (Z.to_nat h) (seq 0 24)) as Hin by (apply in_seq; lia).
  specialize (T Hin). rewrite forallb_forall in T.
  specialize (T (Z.to_nat m)).
  assert (In (Z.to_nat m) (seq 0 60)) as Hin' by (apply in_seq; lia).
  specialize (T Hin'). rewrite !Z2Nat.id in T by lia.
  now apply same_number_eq.
Qed.

(** Without seconds nothing is rounded. *)
Lemma clock_minutes_table :
  forallb
    (fun h =>
       forallb
         (fun m =>
            same_number (clock_minutes (Z.of_nat h) (Z.of_nat m) 0)
              (JS.Num (inject_Z (Z.of_nat h * 60 + Z.of_nat m))))
         (seq 0 60))
    (seq 0 24) = true.
Proof. vm_compute. reflexivity. Qed.

Lemma clock_minutes_whole (h m : Z) :
  0 <= h < 24 -> 0 <= m < 60 ->
  clock_minutes h m 0 = JS.Num (inject_Z (h * 60 + m)).
Proof.
  intros Hh Hm. pose proof clock_minutes_table as T.
  rewrite forallb_forall in T. specialize (T (Z.to_nat h)).
  assert (In (Z.to_nat h) (seq 0 24)) as Hin by (apply in_seq; lia).
  specialize (T Hin). rewrite forallb_forall in T.
  specialize (T (Z.to_nat m)).
  assert (In (Z.to_nat m) (seq 0 60)) as Hin' by (apply in_seq; lia).
  specialize (T Hin'). rewrite !Z2Nat.id in T by lia.
  now apply same_number_eq.
Qed.

(** With [k] the whole minutes: the value is [k] when the seconds are zero,
    and otherwise strictly between [k] and [k + 1], within [2^-41] of
    [k + s / 60]. *)
Lemma clock_minutes_value (h m s : Z) :
  0 <= h < 24 -> 0 <= m < 60 -> 0 <= s < 60 ->
  let k := inject_Z (h * 60 + m) in
  exists q,
    clock_minutes h m s = JS.Num q
    /\ (k <= q)%Q /\ (q < k + 1)%Q
    /\ (q - (k + inject_Z s / 60) <= 1 # 2199023255552)%Q
    /\ (k + inject_Z s / 60 - q <= 1 # 2199023255552)%Q
    /\ (s = 0 -> q = k)
    /\ (0 < s -> (k < q)%Q).
Proof.
  intros Hh Hm Hs k.
  assert (0 <= k)%Q as Hk0
    by (unfold k; change 0%Q with (inject_Z 0); rewrite <- Zle_Qle; lia).
  assert (k <= 1439)%Q as Hk1
    by (unfold k; change 1439%Q with (inject_Z 1439); rewrite <- Zle_Qle; lia).
  destruct (Z.eq_dec s 0) as [-> | Hne].
  - exists k. split; [apply clock_minutes_whole; assumption|].
    assert (inject_Z 0 / 60 == 0)%Q as Ez by reflexivity.
    repeat split; try lia; try lra.
  - unfold clock_minutes. rewrite (whole_minutes h m Hh Hm). fold k.
    assert (1 <= inject_Z s)%Q as Hs1
      by (change 1%Q with (inject_Z 1); rewrite <- Zle_Qle; lia).
    assert (inject_Z s <= 59)%Q as Hs2
      by (change 59%Q with (inject_Z 59); rewrite <- Zle_Qle; lia).
    change (JS.div (JS.Num (inject_Z s)) 60)
      with (JS.round64 (inject_Z s / 60)).
    set (f := (inject_Z s / 60)%Q).
    assert (1 # 60 <= f)%Q as Hf1
      by (unfold f, Qdiv; change (/ 60)%Q with (1 # 60)%Q; lra).
    assert (f <= 59 # 60)%Q as Hf2
      by (unfold f, Qdiv; change (/ 60)%Q with (1 # 60)%Q; lra).
    clearbody f.
    destruct (NumberFacts.round64_near f) as [g [Eg [Hg0 [Hg1 Hg2]]]];
      [lra | lra |].
    rewrite Eg.
    change (JS.add (JS.Num k) (JS.Num g)) with (JS.round64 (k + g)).
    destruct (NumberFacts.round64_near (k + g)) as [q [Eq [Hq0 [Hq1 Hq2]]]];
      [lra | lra |].
    exists q. split; [exact Eq|].
    repeat split; try lra. lia.
Qed.

(** ** What [parseTimeParam] captures *)

(** The shapes of an accepted string, with the normalised string built from
    the captures. *)
Lemma sixty_field_zero : sixty_field "00".
Proof.
  split; [reflexivity | split; [reflexivity | vm_compute; discriminate]].
Qed.

Ltac captured_shape :=
  lazymatch goal with
  | |- context [String ?h1 (String ?h2 (String ":" (String ?m1 (String ?m2
                  (String ":" (String ?s1 (String ?s2 "")))))))] =>
      exists (String h1 (String h2 "")), (String m1 (String m2 "")),
        (String s1 (String s2 ""));
      split; [apply hour_field_two; lia|];
      split; [apply sixty_field_two; lia|];
      split; [apply sixty_field_two; lia|];
      split; [now right | reflexivity]
  | |- context [String ?h1 (String ":" (String ?m1 (String ?m2
                  (String ":" (String ?s1 (String ?s2 ""))))))] =>
      exists (String h1 ""), (String m1 (String m2 "")),
        (String s1 (String s2 ""));
      split; [apply hour_field_one; lia|];
      split; [apply sixty_field_two; lia|];
      split; [apply sixty_field_two; lia|];
      split; [now right | reflexivity]
  | |- context [String ?h1 (String ?h2 (String ":"
                  (String ?m1 (String ?m2 ""))))] =>
      exists (String h1 (String h2 "")), (String m1 (String m2 "")), "00";
      split; [apply hour_field_two; lia|];
      split; [apply sixty_field_two; lia|];
      split; [exact sixty_field_zero|];
      split; [left; now split | reflexivity]
  | |- context [String ?h1 (String ":" (String ?m1 (String ?m2 "")))] =>
      exists (String h1 ""), (String m1 (String m2 "")), "00";
      split; [apply hour_field_one; lia|];
      split; [apply sixty_field_two; lia|];
      split; [exact sixty_field_zero|];
      split; [left; now split | reflexivity]
  end.

Lemma parseTimeParam_fields (s : string) (r : ParsedTime) :
  parseTimeParam (Some s) = Some r ->
  exists h m sec,
    hour_field h /\ sixty_field m /\ sixty_field sec
    /\ ((s = h ++ ":" ++ m /\ sec = "00")
        \/ s = h ++ ":" ++ m ++ ":" ++ sec)%string
    /\ r = mkParsedTime
             (timeToMinutes (h ++ ":" ++ m ++ ":" ++ sec))
             (formatTime (h ++ ":" ++ m ++ ":" ++ sec)).
Proof.
  intro Hparse.
  assert (exists caps,
            RegExp.match_whole time_regex s = Some caps
            /\ r = let group i :=
                     match RegExp.capture i caps with
                     | Some s => s
                     | None => ""
                     end in
                   let seconds :=
                     match RegExp.capture 3 caps with
                     | Some s => s
                     | None => "00"
                     end in
                   let normalized :=
                     (group 1%nat ++ ":" ++ group 2%nat ++ ":" ++ seconds)
                       %string in
                   mkParsedTime (timeToMinutes normalized)
                     (formatTime normalized)) as [caps [H Hr]].
  { unfold parseTimeParam in Hparse. destruct s as [|c s]; [discriminate|].
    destruct (RegExp.match_whole time_regex (String c s)) as [caps|];
      [|discriminate].
    exists caps. split; [reflexivity|]. now injection Hparse as <-. }
  subst r.
  destruct s as [|c1 [|c2 [|c3 [|c4 [|c5 [|c6 [|c7 [|c8 [|c9 s]]]]]]]]];
    run_regex H; injection H as <-; captured_shape.
Qed.

End ClockFacts.

Module ClockTables.
Import Route Props PropsIcs PropsClock Tools TimeParamFacts ParseIcsFacts.
Import ClockFacts.

(** Every two-digit field of the formatter is two digits of that value. *)
Lemma two_digit_fields :
  forallb
    (fun n =>
       (String.length (Intl.two_digit (Z.of_nat n)) =? 2)%nat
       && all_digits (Intl.two_digit (Z.of_nat n))
       && (decimal_value (Intl.two_digit (Z.of_nat n)) =? Z.of_nat n))
    (seq 0 100) = true.
Proof. vm_compute. reflexivity. Qed.

Lemma two_digit_field (n : Z) :
  0 <= n < 100 ->
  String.length (Intl.two_digit n) = 2%nat
  /\ all_digits (Intl.two_digit n) = true
  /\ decimal_value (Intl.two_digit n) = n.
Proof.
  intro Hn. pose proof two_digit_fields as T.
  rewrite forallb_forall in T. specialize (T (Z.to_nat n)).
  rewrite Z2Nat.id in T by lia.
  assert (In (Z.to_nat n) (seq 0 100)) as Hin by (apply in_seq; lia).
  specialize (T Hin). apply andb_true_iff in T. destruct T as [T T3].
  apply andb_true_iff in T. destruct T as [T1 T2].
  apply Nat.eqb_eq in T1. apply Z.eqb_eq in T3. now repeat split.
Qed.

(** The 12-hour label of every clock string of the normaliser. *)
Lemma twelve_hour_table :
  forallb
    (fun h =>
       forallb
         (fun m =>
            String.eqb
              (formatTime (clock_string (Z.of_nat h) (Z.of_nat m)))
              (twelve_hour_label (Z.of_nat h) (Z.of_nat m)))
         (seq 0 60))
    (seq 0 24) = true.
Proof. vm_compute. reflexivity. Qed.

Lemma formatTime_clock_string (h m : Z) :
  0 <= h < 24 -> 0 <= m < 60 ->
  formatTime (clock_string h m) = twelve_hour_label h m.
Proof.
  intros Hh Hm. pose proof twelve_hour_table as T.
  rewrite forallb_forall in T. specialize (T (Z.to_nat h)).
  assert (In (Z.to_nat h) (seq 0 24)) as Hin by (apply in_seq; lia).
  specialize (T Hin). rewrite forallb_forall in T.
  specialize (T (Z.to_nat m)).
  assert (In (Z.to_nat m) (seq 0 60)) as Hin' by (apply in_seq; lia).
  specialize (T Hin'). rewrite !Z2Nat.id in T by lia.
  now apply String.eqb_eq.
Qed.

(** [formatTime] depends on the first two fields through [Number] only. *)
Lemma formatTime_by_value (a b a' b' : string) :
  no_colon a = true -> no_colon b = true ->
  no_colon a' = true -> no_colon b' = true ->
  JS.Number a = JS.Number a' -> JS.Number b = JS.Number b' ->
  formatTime (a ++ ":" ++ b) = formatTime (a' ++ ":" ++ b').
Proof.
  intros Ha Hb Ha' Hb' Ea Eb. unfold formatTime. simpl.
  rewrite (split_field a b Ha), (split_last_field b Hb).
  rewrite (split_field a' b' Ha'), (split_last_field b' Hb').
  simpl. rewrite Ea, Eb. reflexivity.
Qed.

(** The label of a clock string shows its hour and minute fields only. *)
Lemma formatTime_fields (h m sec : string) :
  hour_field h -> sixty_field m ->
  formatTime (h ++ ":" ++ m ++ ":" ++ sec)
  = twelve_hour_label (decimal_value h) (decimal_value m).
Proof.
  intros [Hhl [Hhd Hhv]] [Hml [Hmd Hmv]].
  destruct (Number_field h Hhl Hhd) as [Eh Hh0].
  destruct (Number_field m (or_intror Hml) Hmd) as [Em Hm0].
  destruct (two_digit_field (decimal_value h) ltac:(lia)) as [_ [H2 _]].
  destruct (two_digit_field (decimal_value m) ltac:(lia)) as [_ [M2 _]].
  rewrite formatTime_ignores_seconds by now apply digits_no_colon.
  transitivity (formatTime (Intl.two_digit (decimal_value h) ++ ":"
                              ++ Intl.two_digit (decimal_value m))).
  - apply formatTime_by_value; try now apply digits_no_colon.
    + rewrite Eh. symmetry. apply Number_two_digit_value. lia.
    + rewrite Em. symmetry. apply Number_two_digit_value. lia.
  - rewrite <- (formatTime_clock_string (decimal_value h) (decimal_value m))
      by lia.
    unfold clock_string. symmetry.
    apply (formatTime_ignores_seconds _ _ "00"); now apply digits_no_colon.
Qed.

Lemma clock_string_form (h m : Z) :
  0 <= h < 24 -> 0 <= m < 60 -> clock_form (clock_string h m).
Proof.
  intros Hh Hm.
  destruct (two_digit_field h ltac:(lia)) as [H1 [H2 H3]].
  destruct (two_digit_field m ltac:(lia)) as [M1 [M2 M3]].
  exists (Intl.two_digit h), (Intl.two_digit m).
  split; [split; [now right | split; [exact H2 | lia]]|].
  split; [split; [exact M1 | split; [exact M2 | lia]]|].
  right. exists "00". split; [exact sixty_field_zero | reflexivity].
Qed.

End ClockTables.

(* ================================================================== *)
(** * The statements of the specification *)
(* ================================================================== *)

Module Claims.
Import Route Props Tools MergeFacts ClassifyFacts TimeParamFacts Samples.

(** ** Merging *)

(** C1: for every list of rows and every user, the merged intervals of the user
    are ascending by [startMinutes], consecutive intervals [a, b] satisfy
    [b.startMinutes > a.endMinutes], and every interval has
    [endMinutes > startMinutes]; hence no interval carries the clock strings
    of a row whose converted end is not after its converted start, and such
    rows can be removed from the input without changing the output.  The
    same holds of every row the first loop skips, which besides those are
    the rows with a conversion that is not finite. *)
Theorem merged_intervals_sorted_separated
    (blocks : list BusyBlockRow) (userId : string) :
  let intervals := intervals_of userId (mergeBusyIntervals blocks) in
  ascending intervals
  /\ separated intervals
  /\ Forall proper intervals
  /\ (forall block iv,
        inverted block = true -> In iv intervals ->
        ~ (iv_start_time iv = start_time block
           /\ iv_end_time iv = end_time block))
  /\ mergeBusyIntervals blocks
     = mergeBusyIntervals (filter (fun b => negb (inverted b)) blocks)
  /\ (forall block iv,
        skipped block = true -> In iv intervals ->
        ~ (iv_start_time iv = start_time block
           /\ iv_end_time iv = end_time block))
  /\ mergeBusyIntervals blocks
     = mergeBusyIntervals (filter (fun b => negb (skipped b)) blocks).
Proof.
  intro intervals.
  assert (Forall proper intervals /\ separated intervals
          /\ Forall consistent intervals) as [Hp [Hs Hc]].
  { destruct (intervals_of_merged blocks userId) as [E | [_ [H1 [H2 H3]]]].
    - fold intervals in E. rewrite E. repeat split; constructor.
    - now repeat split. }
  assert (forall block iv,
            skipped block = true -> In iv intervals ->
            ~ (iv_start_time iv = start_time block
               /\ iv_end_time iv = end_time block)) as Hskip.
  { intros block iv Hsk Hin [Es Ee].
    rewrite Forall_forall in Hp, Hc.
    pose proof (Hp iv Hin) as P. destruct (Hc iv Hin) as [C1 C2].
    unfold skipped, inverted in Hsk. rewrite <- Es, <- Ee, C1, C2 in Hsk.
    simpl in Hsk. apply Qle_bool_iff in Hsk. unfold proper in P. lra. }
  split; [now apply separated_ascending|].
  split; [exact Hs|]. split; [exact Hp|]. split; [|split; [|split]].
  - intros block iv Hinv. apply Hskip. now apply inverted_skipped.
  - unfold mergeBusyIntervals. now rewrite group_skip_inverted_rows.
  - exact Hskip.
  - unfold mergeBusyIntervals. now rewrite group_skip_inverted.
Qed.

Lemma merged_intervals_sorted_separated_witness :
  inverted inverted_row = true
  /\ In morning_run (intervals_of "u" (mergeBusyIntervals day_rows))
  /\ ~ (iv_start_time morning_run = start_time inverted_row
        /\ iv_end_time morning_run = end_time inverted_row).
Proof.
  split; [reflexivity|]. split; [vm_compute; left; reflexivity|].
  apply (proj1 (proj2 (proj2 (proj2
           (merged_intervals_sorted_separated day_rows "u"))))).
  - reflexivity.
  - vm_compute. left. reflexivity.
Defined.

(** C5: merging is idempotent: reading the merged output back as rows (the
    user and the two clock strings of every interval) and merging again gives
    the same map. *)
Theorem merge_idempotent (blocks : list BusyBlockRow) :
  mergeBusyIntervals (rows_of (mergeBusyIntervals blocks))
  = mergeBusyIntervals blocks.
Proof.
  destruct (merged_invariant blocks) as [Hnd Hall].
  rewrite (mergeBusyIntervals_eq (rows_of _)).
  rewrite (regroup _ [] Hnd Hall). simpl.
  now apply merge_entries_fixed.
Qed.

(** C10 (as amended): every interval [mergeBusyIntervals] produces has minute
    fields equal to the conversion of its clock strings, also after an
    extension (which moves [end_time] together with [endMinutes]); the
    entries the scan records for a user carry the label formatted from such a
    string, and the boundary minute used in the comparison.  The label shows
    the hour and the minute of the string only: for a clock string it
    denotes the boundary exactly when the seconds are zero, and otherwise the
    boundary lies strictly between the minute shown and the next one. *)
Theorem merged_minutes_match_strings
    (blocks : list BusyBlockRow) (userId : string) :
  let merged := mergeBusyIntervals blocks in
  let intervals := intervals_of userId merged in
  (forall iv, In iv intervals ->
     timeToMinutes (iv_start_time iv) = JS.Num (startMinutes iv)
     /\ timeToMinutes (iv_end_time iv) = JS.Num (endMinutes iv))
  /\ (forall referenceMinutes,
        (forall e,
           JSMap.get userId (fst (build_maps (JS.Num referenceMinutes) merged))
           = Some e ->
           exists iv, In iv intervals /\ contains referenceMinutes iv
                      /\ bm_busy_until e = formatTime (iv_end_time iv)
                      /\ timeToMinutes (iv_end_time iv)
                         = JS.Num (bm_endMinutes e))
        /\ (forall n,
              JSMap.get userId
                (snd (build_maps (JS.Num referenceMinutes) merged))
              = Some n ->
              exists iv, In iv intervals /\ later referenceMinutes iv
                         /\ nb_startLabel n = formatTime (iv_start_time iv)
                         /\ timeToMinutes (iv_start_time iv)
                            = JS.Num (nb_startMinutes n)))
  /\ (forall clock boundary h m sec,
        timeToMinutes clock = JS.Num boundary ->
        hour_field h -> sixty_field m -> sixty_field sec ->
        clock = (h ++ ":" ++ m ++ ":" ++ sec)%string ->
        let shown := inject_Z (decimal_value h * 60 + decimal_value m) in
        formatTime clock
        = PropsClock.twelve_hour_label (decimal_value h) (decimal_value m)
        /\ (shown <= boundary)%Q /\ (boundary < shown + 1)%Q
        /\ ((boundary == shown)%Q <-> decimal_value sec = 0)).
Proof.
  intros merged intervals.
  assert (forall iv, In iv intervals -> consistent iv) as Hc.
  { destruct (intervals_of_merged blocks userId) as [E | [_ [_ [_ H]]]].
    - fold merged intervals in E. rewrite E. intros ? [].
    - apply Forall_forall. exact H. }
  split; [exact Hc|]. split.
  - intro ref.
    destruct (merged_invariant blocks) as [Hnd _].
    destruct (build_maps_get ref userId merged Hnd) as [Hb Hn].
    fold intervals in Hb, Hn. split.
    + intros e He. rewrite Hb in He. unfold busy_of in He.
      destruct (busy_fold ref intervals None) as [_ H].
      destruct (H e He) as [? | [iv [Hin [Hcon ->]]]]; [discriminate|].
      exists iv. destruct (Hc iv Hin) as [_ C2]. simpl.
      repeat split; solve [assumption | apply Hcon | reflexivity].
    + intros n Hn'. rewrite Hn in Hn'. unfold next_of in Hn'.
      destruct (next_fold ref intervals None) as [_ H].
      destruct (H n Hn') as [[? | [iv [Hin [Hl ->]]]] _]; [discriminate|].
      exists iv. destruct (Hc iv Hin) as [C1 _]. simpl.
      repeat split; solve [assumption | reflexivity].
  - intros clock boundary h m sec Hclock Hh Hm Hs -> shown.
    split; [now apply ClockTables.formatTime_fields|].
    rewrite (ClockFacts.timeToMinutes_fields h m sec Hh Hm Hs) in Hclock.
    destruct Hh as [Hhl [Hhd Hhv]], Hm as [Hml [Hmd Hmv]],
      Hs as [Hsl [Hsd Hsv]].
    destruct (ClockFacts.Number_field h Hhl Hhd) as [_ Hh0].
    destruct (ClockFacts.Number_field m (or_intror Hml) Hmd) as [_ Hm0].
    destruct (ClockFacts.Number_field sec (or_intror Hsl) Hsd) as [_ Hs0].
    destruct (ClockFacts.clock_minutes_value (decimal_value h)
                (decimal_value m) (decimal_value sec))
      as [q [Eq [H1 [H2 [_ [_ [H3 H4]]]]]]]; try lia.
    rewrite Eq in Hclock. injection Hclock as <-. fold shown in H1, H2, H3, H4.
    split; [exact H1|]. split; [exact H2|]. split.
    + intro E. destruct (Z.eq_dec (decimal_value sec) 0) as [|Hne];
        [assumption|].
      assert (shown < q)%Q by (apply H4; lia). lra.
    + intro E. rewrite (H3 E). reflexivity.
Qed.

Lemma merged_minutes_match_strings_witness :
  (In morning_run (intervals_of "u" (mergeBusyIntervals day_rows))
   /\ timeToMinutes "10:00:00" = JS.Num 600
   /\ timeToMinutes "15:00:00" = JS.Num 900)
  /\ (exists iv,
        In iv (intervals_of "u" (mergeBusyIntervals day_rows))
        /\ contains 750 iv
        /\ "3:00PM" = formatTime (iv_end_time iv)
        /\ timeToMinutes (iv_end_time iv) = JS.Num 900)
  /\ (exists iv,
        In iv (intervals_of "u" (mergeBusyIntervals day_rows))
        /\ later 750 iv
        /\ "4:30PM" = formatTime (iv_start_time iv)
        /\ timeToMinutes (iv_start_time iv) = JS.Num 990)
  /\ formatTime "13:00:30"
     = PropsClock.twelve_hour_label (decimal_value "13") (decimal_value "00")
  /\ (inject_Z (decimal_value "13" * 60 + decimal_value "00") <= 1561 # 2)%Q.
Proof.
  split; [|split; [|split]].
  - split; [vm_compute; left; reflexivity|].
    apply (proj1 (merged_minutes_match_strings day_rows "u") morning_run).
    vm_compute. left. reflexivity.
  - apply (proj1 (proj1 (proj2 (merged_minutes_match_strings day_rows "u"))
                    750%Q)
             (mkBusyMapEntry "3:00PM" 900)).
    vm_compute. reflexivity.
  - apply (proj2 (proj1 (proj2 (merged_minutes_match_strings day_rows "u"))
                    750%Q)
             (mkNextBusyEntry 990 "4:30PM")).
    vm_compute. reflexivity.
  - pose proof (proj2 (proj2 (merged_minutes_match_strings day_rows "u"))
                  "13:00:30" (1561 # 2) "13" "00" "30") as H.
    destruct H as [H1 [H2 _]].
    + vm_compute. reflexivity.
    + split; [now right | split; [reflexivity | vm_compute; discriminate]].
    + split; [reflexivity | split; [reflexivity | vm_compute; discriminate]].
    + split; [reflexivity | split; [reflexivity | vm_compute; discriminate]].
    + reflexivity.
    + split; [exact H1 | exact H2].
Defined.

(** C10 as stated fails on its last part: the label does not always denote
    the boundary minute.  The row [12:00:00]-[13:00:30] is merged into an
    interval whose end is minute 780.5, and its label [1:00PM] is also the
    label of [13:00:00], which is minute 780. *)
Lemma label_hides_the_seconds :
  intervals_of "u" (mergeBusyIntervals [row "u" "12:00:00" "13:00:30"])
  = [mkBusyInterval 720 (1561 # 2) "12:00:00" "13:00:30"]
  /\ formatTime "13:00:30" = "1:00PM"
  /\ formatTime "13:00:00" = "1:00PM"
  /\ timeToMinutes "13:00:30" = JS.Num (1561 # 2)
  /\ timeToMinutes "13:00:00" = JS.Num 780
  /\ ~ (1561 # 2 == 780)%Q.
Proof.
  repeat split; try (vm_compute; reflexivity). intro H. discriminate H.
Qed.

(** ** Classification *)

Lemma current_clock off instant :
  hours (getCurrentTimeParts off instant)
  = inject_Z (Intl.localHour off instant)
  /\ minutes_now (getCurrentTimeParts off instant)
     = inject_Z (Intl.localMinute off instant).
Proof.
  unfold getCurrentTimeParts, Intl.nowParts, Intl.find_value. simpl.
  unfold Number_value.
  rewrite !ParseIcsFacts.Number_two_digit_value; [now split | |].
  - unfold Intl.localMinute. generalize (Intl.localMillis off instant).
    intro x. Z.div_mod_to_equations. lia.
  - unfold Intl.localHour. generalize (Intl.localMillis off instant).
    intro x. Z.div_mod_to_equations. lia.
Qed.

(** The reference minute of a request is a minute of the day. *)
Lemma reference_is_finite off request :
  exists q,
    PropsHandler.reference off request = JS.Num q
    /\ (0 <= q)%Q /\ (q < 1440)%Q.
Proof.
  unfold PropsHandler.reference.
  destruct (parseTimeParam (timeParam request)) as [t|] eqn:E.
  - destruct (timeParam request) as [s|]; [|discriminate].
    destruct (ClockFacts.parseTimeParam_fields s t E)
      as [h [m [sec [Hh [Hm [Hs [_ ->]]]]]]].
    cbn [minutes].
    rewrite (ClockFacts.timeToMinutes_fields h m sec Hh Hm Hs).
    destruct Hh as [Hhl [Hhd Hhv]], Hm as [Hml [Hmd Hmv]],
      Hs as [Hsl [Hsd Hsv]].
    destruct (ClockFacts.Number_field h Hhl Hhd) as [_ Hh0].
    destruct (ClockFacts.Number_field m (or_intror Hml) Hmd) as [_ Hm0].
    destruct (ClockFacts.Number_field sec (or_intror Hsl) Hsd) as [_ Hs0].
    destruct (ClockFacts.clock_minutes_value (decimal_value h)
                (decimal_value m) (decimal_value sec))
      as [q [Eq [H1 [H2 _]]]]; try lia.
    exists q. split; [exact Eq|].
    assert (0 <= inject_Z (decimal_value h * 60 + decimal_value m))%Q
      by (change 0%Q with (inject_Z 0); rewrite <- Zle_Qle; lia).
    assert (inject_Z (decimal_value h * 60 + decimal_value m) <= 1439)%Q
      by (change 1439%Q with (inject_Z 1439); rewrite <- Zle_Qle; lia).
    split; lra.
  - cbv zeta. destruct (current_clock off (now request)) as [-> ->].
    assert (0 <= Intl.localHour off (now request) < 24) as Hh
      by (unfold Intl.localHour;
          generalize (Intl.localMillis off (now request)); intro x;
          Z.div_mod_to_equations; lia).
    assert (0 <= Intl.localMinute off (now request) < 60) as Hm
      by (unfold Intl.localMinute;
          generalize (Intl.localMillis off (now request)); intro x;
          Z.div_mod_to_equations; lia).
    rewrite (ClockFacts.whole_minutes _ _ Hh Hm).
    eexists. split; [reflexivity|]. split.
    + change 0%Q with (inject_Z 0). rewrite <- Zle_Qle. lia.
    + change 1440%Q with (inject_Z 1440). rewrite <- Zlt_Qlt. lia.
Qed.

(** C2 (as amended): a member with an uploaded calendar is busy exactly when
    some merged interval has [startMinutes <= referenceMinutes < endMinutes],
    with [busy_until] the 12-hour label of that interval's end ([13:00:00]
    gives [1:00PM], the period in capitals); otherwise the member is free,
    with [free_until] the label of the earliest merged interval that starts
    after the reference ([14:30:00] gives [2:30PM]), or null when no interval
    starts later.  The reference minute of a request is always a finite
    number, that of its [time] parameter or the current one. *)
Theorem classification_of_uploaded_member
    (blocks : list BusyBlockRow) (uploadedSet : list string)
    (referenceMinutes : Q) (member : MemberRow) :
  let merged := mergeBusyIntervals blocks in
  let maps := build_maps (JS.Num referenceMinutes) merged in
  let uid := member_user_id member in
  let name := member_name member in
  let intervals := intervals_of uid merged in
  let status := classify_member uploadedSet maps member in
  Set_has uid uploadedSet = true ->
  ((exists e, status = Busy e)
   <-> exists iv, In iv intervals /\ contains referenceMinutes iv)
  /\ (forall iv, In iv intervals -> contains referenceMinutes iv ->
        status = Busy (mkBusyEntry uid name (formatTime (iv_end_time iv))))
  /\ ((forall iv, In iv intervals -> ~ contains referenceMinutes iv) ->
      (forall iv, earliest_later referenceMinutes intervals iv ->
         status = Free (mkFreeEntry uid name
                          (Some (formatTime (iv_start_time iv)))))
      /\ ((forall iv, In iv intervals -> ~ later referenceMinutes iv) ->
          status = Free (mkFreeEntry uid name None))
      /\ ((exists iv, In iv intervals /\ later referenceMinutes iv) ->
          exists iv, earliest_later referenceMinutes intervals iv))
  /\ formatTime "13:00:00" = "1:00PM"
  /\ formatTime "14:30:00" = "2:30PM"
  /\ (forall off request,
        exists q, PropsHandler.reference off request = JS.Num q).
Proof.
  intros merged maps uid name intervals status Hup.
  destruct (merged_invariant blocks) as [Hnd _].
  destruct (build_maps_get referenceMinutes uid merged Hnd) as [Hb Hn].
  fold maps intervals in Hb, Hn.
  assert (Forall proper intervals /\ separated intervals) as [Hp Hs].
  { destruct (intervals_of_merged blocks uid) as [E | [_ [H1 [H2 _]]]].
    - fold merged intervals in E. rewrite E. repeat split; constructor.
    - now split. }
  assert (status
          = match busy_of referenceMinutes intervals with
            | Some e => Busy (mkBusyEntry uid name (bm_busy_until e))
            | None =>
                Free (mkFreeEntry uid name
                        (option_map nb_startLabel
                           (next_of referenceMinutes intervals)))
            end) as Hstatus.
  { unfold status. rewrite classify_member_eq. simpl.
    fold uid. rewrite Hup, Hb, Hn. reflexivity. }
  assert (forall iv, In iv intervals -> contains referenceMinutes iv ->
            status = Busy (mkBusyEntry uid name (formatTime (iv_end_time iv))))
    as Hbusy.
  { intros iv Hin Hc. rewrite Hstatus.
    now rewrite (busy_of_Some referenceMinutes intervals iv Hs Hp Hin Hc). }
  split; [|split; [exact Hbusy|split; [|split; [|split]]]];
    [| |vm_compute; reflexivity|vm_compute; reflexivity|].
  3:{ intros off request.
      destruct (reference_is_finite off request) as [q [Hq _]].
      now exists q. }
  - split.
    + intros [e He]. rewrite Hstatus in He.
      destruct (busy_of referenceMinutes intervals) as [b|] eqn:E;
        [|discriminate].
      unfold busy_of in E.
      destruct (busy_fold referenceMinutes intervals None) as [_ H].
      destruct (H b E) as [? | [iv [Hin [Hc _]]]]; [discriminate|].
      now exists iv.
    + intros [iv [Hin Hc]]. eexists. exact (Hbusy iv Hin Hc).
  - intro Hfree. apply busy_of_None in Hfree. rewrite Hfree in Hstatus.
    split; [|split].
    + intros iv Hiv. rewrite Hstatus.
      now rewrite (next_of_Some referenceMinutes intervals iv Hs Hp Hiv).
    + intro Hnone. apply next_of_None in Hnone. now rewrite Hstatus, Hnone.
    + intros [iv [Hin Hl]].
      destruct (next_of referenceMinutes intervals) as [n|] eqn:E.
      * unfold next_of in E.
        destruct (next_fold referenceMinutes intervals None) as [_ H].
        destruct (H n E) as [[? | [iv' [Hin' [Hl' ->]]]] [Hmin _]];
          [discriminate|].
        exists iv'. split; [exact Hin' | split; [exact Hl' | exact Hmin]].
      * exfalso. rewrite next_of_None in E. exact (E iv Hin Hl).
Qed.

Lemma classification_of_uploaded_member_witness :
  classify_member ["u"] (build_maps (JS.Num (750 # 1)) (mergeBusyIntervals lunch_rows))
    member_u
  = Busy (mkBusyEntry "u" "u" "1:00PM")
  /\ classify_member ["u"]
       (build_maps (JS.Num (750 # 1)) (mergeBusyIntervals afternoon_rows)) member_u
     = Free (mkFreeEntry "u" "u" (Some "2:30PM"))
  /\ classify_member ["u"]
       (build_maps (JS.Num (960 # 1)) (mergeBusyIntervals afternoon_rows)) member_u
     = Free (mkFreeEntry "u" "u" None).
Proof.
  split; [|split].
  - apply (proj1 (proj2
             (classification_of_uploaded_member lunch_rows ["u"] (750 # 1)
                member_u eq_refl))
             (mkBusyInterval 720 780 "12:00:00" "13:00:00")).
    + vm_compute. left. reflexivity.
    + split; vm_compute; congruence.
  - apply (proj1 (proj1 (proj2 (proj2
             (classification_of_uploaded_member afternoon_rows ["u"]
                (750 # 1) member_u eq_refl)))
             ltac:(intros iv Hin; vm_compute in Hin;
                   destruct Hin as [<- | []]; intros [H _];
                   vm_compute in H; congruence))
             (mkBusyInterval 870 900 "14:30:00" "15:00:00")).
    split; [vm_compute; left; reflexivity|]. split; [reflexivity|].
    intros iv' Hin _. vm_compute in Hin. destruct Hin as [<- | []].
    vm_compute. congruence.
  - apply (proj1 (proj2 (proj1 (proj2 (proj2
             (classification_of_uploaded_member afternoon_rows ["u"]
                (960 # 1) member_u eq_refl)))
             ltac:(intros iv Hin; vm_compute in Hin;
                   destruct Hin as [<- | []]; intros [_ H];
                   vm_compute in H; congruence)))).
    intros iv Hin H. vm_compute in Hin. destruct Hin as [<- | []].
    vm_compute in H. congruence.
Defined.

(** C2 as stated fails on the labels: at 12:30 a member in class from 12:00 to
    13:00 is busy until [1:00PM], not [1:00pm], and a member whose next class
    starts at 14:30 is free until [2:30PM], not [2:30pm]. *)
Lemma classification_labels_are_upper_case :
  classify_member ["u"] (build_maps (JS.Num (750 # 1)) (mergeBusyIntervals lunch_rows))
    member_u
  <> Busy (mkBusyEntry "u" "u" "1:00pm")
  /\ classify_member ["u"]
       (build_maps (JS.Num (750 # 1)) (mergeBusyIntervals afternoon_rows)) member_u
     <> Free (mkFreeEntry "u" "u" (Some "2:30pm")).
Proof. split; vm_compute; discriminate. Qed.

(** C7: a member whose [user_id] is not in the uploaded-calendar set is
    unknown whatever the two maps hold for that user: the member is pushed
    onto [unknown], and no entry of [free] or [busy] is about that user. *)
Theorem member_without_upload_is_unknown
    (members : list MemberRow) (uploadedSet : list string) (maps : Maps)
    (member : MemberRow) :
  Set_has (member_user_id member) uploadedSet = false ->
  classify_member uploadedSet maps member
  = Unknown (mkUnknownEntry (member_user_id member) (member_name member))
  /\ (In member members ->
      let '(free, busy, unknown) := classify members uploadedSet maps in
      In (mkUnknownEntry (member_user_id member) (member_name member)) unknown)
  /\ let '(free, busy, unknown) := classify members uploadedSet maps in
     (forall e, In e free -> free_user_id e <> member_user_id member)
     /\ (forall e, In e busy -> busy_user_id e <> member_user_id member).
Proof.
  intro Hno.
  assert (classify_member uploadedSet maps member
          = Unknown (mkUnknownEntry (member_user_id member)
                       (member_name member))) as Hst.
  { rewrite classify_member_eq. simpl. now rewrite Hno. }
  rewrite classify_eq. simpl.
  split; [exact Hst|]. split.
  - intro Hin. apply In_unknown_entries. rewrite <- Hst. now apply in_map.
  - split; intros e He.
    + apply In_free_entries, in_map_iff in He. destruct He as [m [Hm _]].
      rewrite classify_member_eq in Hm. simpl in Hm.
      destruct (Set_has (member_user_id m) uploadedSet) eqn:Eu;
        [|discriminate].
      destruct (JSMap.get (member_user_id m) (fst maps)); [discriminate|].
      injection Hm as <-. simpl. congruence.
    + apply In_busy_entries, in_map_iff in He. destruct He as [m [Hm _]].
      rewrite classify_member_eq in Hm. simpl in Hm.
      destruct (Set_has (member_user_id m) uploadedSet) eqn:Eu;
        [|discriminate].
      destruct (JSMap.get (member_user_id m) (fst maps)); [|discriminate].
      injection Hm as <-. simpl. congruence.
Qed.

Lemma member_without_upload_is_unknown_witness :
  classify_member ["v"] (build_maps (JS.Num (750 # 1)) (mergeBusyIntervals lunch_rows))
    member_u
  = Unknown (mkUnknownEntry "u" "u")
  /\ In (mkUnknownEntry "u" "u")
       (snd (classify [member_u] ["v"]
               (build_maps (JS.Num (750 # 1)) (mergeBusyIntervals lunch_rows)))).
Proof.
  destruct (member_without_upload_is_unknown [member_u] ["v"]
              (build_maps (JS.Num (750 # 1)) (mergeBusyIntervals lunch_rows))
              member_u eq_refl) as [H1 [H2 _]].
  split; [exact H1|]. apply H2. left. reflexivity.
Defined.

(** ** The handler *)

(** What a successful answer of [GET] is made of. *)
Lemma GET_ok off request store payload reads :
  GET off request store = (OkResponse payload, reads) ->
  exists memberRows,
    data (group_members store) = Some memberRows
    /\ ((memberRows = []
         /\ free payload = [] /\ busy payload = [] /\ unknown payload = []
         /\ reads = [ReadMembership; ReadMembers])
        \/ (memberRows <> []
            /\ exists busyBlocks,
                 let parts := getCurrentTimeParts off (now request) in
                 (if (1 <=? weekday parts) && (weekday parts <=? 5)
                  then reads = [ReadMembership; ReadMembers; ReadUploads;
                                ReadBusyBlocks (weekday parts)]
                       /\ busyBlocks
                          = or_else
                              (data (weekday_busy_blocks store
                                       (weekday parts))) []
                  else busyBlocks = []
                       /\ reads = [ReadMembership; ReadMembers; ReadUploads])
                 /\ classify (map normalize_member memberRows)
                      (or_else (data (calendar_uploads store)) [])
                      (build_maps (PropsHandler.reference off request)
                         (mergeBusyIntervals busyBlocks))
                    = (free payload, busy payload, unknown payload))).
Proof.
  unfold GET, PropsHandler.reference. intro H.
  destruct (claims_sub request) as [[|c cs]|]; try discriminate.
  remember (parseTimeParam (timeParam request)) as parsedTime eqn:Hpt.
  clear Hpt.
  assert (
    (let reads := [ReadMembership] in
     if error (membership store) then
       (ErrorResponse 500 "Failed to validate membership", reads)
     else
     match data (membership store) with
     | None => (ErrorResponse 403 "Forbidden", reads)
     | Some _ =>
     let reads := reads ++ [ReadMembers] in
     match error (group_members store), data (group_members store) with
     | true, _ | _, None =>
         (ErrorResponse 500 "Failed to load group members", reads)
     | false, Some memberRows =>
     let normalizedMembers := map normalize_member memberRows in
     let userIds := map member_user_id normalizedMembers in
     match userIds with
     | [] => (OkResponse (mkPayload [] [] [] (option_map label parsedTime)),
              reads)
     | _ =>
     let reads := reads ++ [ReadUploads] in
     if error (calendar_uploads store) then
       (ErrorResponse 500 "Failed to load calendar status", reads)
     else
     let uploadedSet := or_else (data (calendar_uploads store)) [] in
     let nowParts := getCurrentTimeParts off (now request) in
     let weekday := weekday nowParts in
     let isWeekday := (1 <=? weekday) && (weekday <=? 5) in
     let nowMinutes :=
       JS.add (JS.mul (JS.Num (hours nowParts)) (JS.Num 60))
         (JS.Num (minutes_now nowParts)) in
     let referenceMinutes :=
       match parsedTime with
       | Some t => minutes t
       | None => nowMinutes
       end in
     let finish (busyBlocks : list BusyBlockRow) (reads : list Read) :=
       let mergedBusyBlocksByUser := mergeBusyIntervals busyBlocks in
       let maps := build_maps referenceMinutes mergedBusyBlocksByUser in
       let '(free, busy, unknown) :=
         classify normalizedMembers uploadedSet maps in
       (OkResponse (mkPayload free busy unknown (option_map label parsedTime)),
        reads) in
     if isWeekday then
       let reads := reads ++ [ReadBusyBlocks weekday] in
       let answer := weekday_busy_blocks store weekday in
       if error answer then
         (ErrorResponse 500 "Failed to load busy blocks", reads)
       else finish (or_else (data answer) []) reads
     else finish [] reads
     end end end) = (OkResponse payload, reads)) as H'.
  { destruct (timeParam request) as [[|t ts]|], parsedTime;
      solve [exact H | discriminate H]. }
  clear H. cbv zeta in H'.
  destruct (error (membership store)); [discriminate|].
  destruct (data (membership store)); [|discriminate].
  destruct (error (group_members store)); [discriminate|].
  destruct (data (group_members store)) as [memberRows|]; [|discriminate].
  exists memberRows. split; [reflexivity|].
  destruct memberRows as [|m rows].
  - left. simpl in H'. injection H' as <- <-. now repeat split.
  - right. split; [discriminate|].
    remember (m :: rows) as memberRows eqn:Hrows.
    assert (map member_user_id (map normalize_member memberRows) <> [])
      as Hne by (subst; discriminate).
    destruct (map member_user_id (map normalize_member memberRows))
      as [|uid0 uids] eqn:Eids; [congruence|].
    destruct (error (calendar_uploads store)); [discriminate|].
    set (parts := getCurrentTimeParts off (now request)) in *.
    cbv zeta. fold parts.
    set (ref := match parsedTime with
                | Some t => minutes t
                | None =>
                    JS.add (JS.mul (JS.Num (hours parts)) (JS.Num 60))
                      (JS.Num (minutes_now parts))
                end) in *.
    destruct ((1 <=? weekday parts) && (weekday parts <=? 5)) eqn:Ew.
    + destruct (error (weekday_busy_blocks store (weekday parts)));
        [discriminate|].
      exists (or_else (data (weekday_busy_blocks store (weekday parts))) []).
      split; [|].
      * split; [|reflexivity].
        destruct (classify _ _ _) as [[f b] k]. now injection H' as <- <-.
      * destruct (classify _ _ _) as [[f b] k]. now injection H' as <- <-.
    + exists []. split.
      * split; [reflexivity|].
        destruct (classify _ _ _) as [[f b] k]. now injection H' as <- <-.
      * destruct (classify _ _ _) as [[f b] k]. now injection H' as <- <-.
Qed.


Lemma weekend_weekday off instant :
  Intl.weekdayShort off instant = "Sat"
  \/ Intl.weekdayShort off instant = "Sun" ->
  (1 <=? weekday (getCurrentTimeParts off instant))
  && (weekday (getCurrentTimeParts off instant) <=? 5) = false.
Proof.
  unfold getCurrentTimeParts, Intl.nowParts, Intl.find_value. simpl.
  intros [-> | ->]; reflexivity.
Qed.

Lemma classify_without_blocks members uploadedSet referenceMinutes :
  classify members uploadedSet
    (build_maps referenceMinutes (mergeBusyIntervals []))
  = (flat_map
       (fun m =>
          if Set_has (member_user_id m) uploadedSet
          then [mkFreeEntry (member_user_id m) (member_name m) None] else [])
       members,
     [],
     flat_map
       (fun m =>
          if Set_has (member_user_id m) uploadedSet then []
          else [mkUnknownEntry (member_user_id m) (member_name m)])
       members).
Proof.
  rewrite classify_eq. cbv zeta.
  change (build_maps referenceMinutes (mergeBusyIntervals []))
    with (@nil (string * BusyMapEntry), @nil (string * NextBusyEntry)).
  unfold free_entries, busy_entries, unknown_entries.
  induction members as [|m members IH]; [reflexivity|].
  injection IH as IH1 IH2 IH3.
  cbn [map flat_map]. rewrite IH1, IH2, IH3, classify_member_eq.
  cbn [fst snd JSMap.get option_map].
  destruct (Set_has (member_user_id m) uploadedSet); reflexivity.
Qed.

(** C8: when the current weekday in the civil zone is Saturday or Sunday, a
    request that is answered reads no busy blocks, reports nobody busy, and
    reports every member with an uploaded calendar free with a null
    [free_until]. *)
Theorem weekend_members_are_free off request store payload reads :
  GET off request store = (OkResponse payload, reads) ->
  Intl.weekdayShort off (now request) = "Sat"
  \/ Intl.weekdayShort off (now request) = "Sun" ->
  (forall w, ~ In (ReadBusyBlocks w) reads)
  /\ busy payload = []
  /\ (forall e, In e (free payload) -> free_until e = None)
  /\ forall memberRows member,
       data (group_members store) = Some memberRows ->
       In member memberRows ->
       Set_has (raw_user_id member)
         (or_else (data (calendar_uploads store)) []) = true ->
       In (mkFreeEntry (raw_user_id member)
             (member_name (normalize_member member)) None)
         (free payload).
Proof.
  intros HGET Hday. apply weekend_weekday in Hday.
  destruct (GET_ok _ _ _ _ _ HGET) as [rows [Hrows Hcases]].
  destruct Hcases as [[-> [Hf [Hb [_ ->]]]] | [_ [blocks Hrest]]].
  - split; [intros w [|[|[]]]; discriminate|].
    split; [exact Hb|]. rewrite Hf. split; [intros e []|].
    intros rows' m Hrows'. rewrite Hrows in Hrows'.
    injection Hrows' as <-. intros [].
  - cbv zeta in Hrest. rewrite Hday in Hrest.
    destruct Hrest as [[-> ->] Hclass].
    rewrite classify_without_blocks in Hclass.
    injection Hclass as Hf Hb _.
    split; [intros w [|[|[|[]]]]; discriminate|].
    split; [now symmetry|]. rewrite <- Hf. split.
    + intros e He. apply in_flat_map in He. destruct He as [m [_ He]].
      destruct (Set_has (member_user_id m) _); [|destruct He].
      destruct He as [<- | []]. reflexivity.
    + intros rows' m Hrows' Hin Hup. rewrite Hrows in Hrows'.
      injection Hrows' as <-. apply in_flat_map.
      exists (normalize_member m). split; [now apply in_map|].
      change (member_user_id (normalize_member m)) with (raw_user_id m).
      rewrite Hup. now left.
Qed.

Lemma weekend_members_are_free_witness :
  busy saturday_payload = []
  /\ In (mkFreeEntry "u" "u" None) (free saturday_payload).
Proof.
  destruct (weekend_members_are_free cst saturday_request sample_store
              saturday_payload [ReadMembership; ReadMembers; ReadUploads])
    as [_ [Hb [_ Hf]]].
  - vm_compute. reflexivity.
  - left. vm_compute. reflexivity.
  - split; [exact Hb|].
    apply (Hf _ (mkMemberRowRaw "u" ProfilesNull) eq_refl).
    + left. reflexivity.
    + reflexivity.
Defined.

(** ** The [time] parameter *)

(** C9 (as amended): [parseTimeParam] answers non-null exactly on the strings
    made of an hour of one or two digits from 0 to 23, a colon, a minute of
    two digits from 00 to 59 and, optionally, a colon and a second of two
    digits from 00 to 59; it answers null on every other string and on null.
    [9:05] gives 545 minutes and the label [9:05AM] (the period in capitals),
    and [25:00] is rejected. *)
Theorem time_param_accepts_clock_forms :
  (forall s, parseTimeParam (Some s) <> None <-> clock_form s)
  /\ parseTimeParam None = None
  /\ parseTimeParam (Some "9:05")
     = Some (mkParsedTime (timeToMinutes "9:05:00") "9:05AM")
  /\ timeToMinutes "9:05:00" = JS.Num 545
  /\ parseTimeParam (Some "25:00") = None.
Proof.
  split; [|repeat split; vm_compute; reflexivity].
  intro s. rewrite parseTimeParam_accepted. split.
  - apply accepted_clock_form.
  - apply clock_form_accepted.
Qed.

(** C9 as stated fails on the label: [9:05] is labelled [9:05AM], not
    [9:05am]. *)
Lemma time_param_label_is_upper_case :
  option_map label (parseTimeParam (Some "9:05")) <> Some "9:05am".
Proof. vm_compute. discriminate. Qed.

End Claims.

Module ClaimsIcs.
Import ParseIcs PropsIcs ParseIcsFacts SamplesIcs.

(** C3 (as amended): every block the normaliser emits comes from a timed
    [VEVENT] whose end instant is strictly after its start instant, and carries
    the wall clocks of the two instants; an event whose end instant is not
    after its start instant is dropped.  When the two instants fall on the
    same civil day, under the same offset and at least a minute apart, the
    wall clock of the end is after the wall clock of the start, so the block
    has [end_time > start_time] on the clock-of-day scale. *)
Theorem blocks_follow_event_instants (off : Z -> Z) :
  (forall parsed b,
     In b (parseIcsToBusyBlocks off parsed) ->
     exists event s e,
       In (Some event) parsed /\ timed_event event s e /\ s < e
       /\ start_time b = formatTime off s /\ end_time b = formatTime off e)
  /\ (forall s e,
        Intl.localDay off s = Intl.localDay off e -> off s = off e ->
        60000 <= e - s ->
        JS.lt (Route.timeToMinutes (formatTime off s))
          (Route.timeToMinutes (formatTime off e)) = true)
  /\ (forall blocks event s e,
        start event = Some s -> end_ event = Some e -> e <= s ->
        entry_step off blocks (Some event) = blocks).
Proof.
  split; [|split].
  - intros parsed b Hin.
    destruct (parsed_block_origin off parsed [] b Hin)
      as [[] | [event [s [e [w [H1 [H2 [H3 [_ [_ ->]]]]]]]]]].
    exists event, s, e. simpl. repeat split; try assumption; apply H2.
  - intros s e Hday Hoff Hgap.
    rewrite (formatTime_minutes off s), (formatTime_minutes off e).
    apply Tools.Qlt_bool_true.
    rewrite <- Zlt_Qlt. now apply minuteOfDay_increases.
  - intros blocks event s e Hs He Hle. unfold entry_step.
    rewrite Hs, He. apply Z.leb_le in Hle. rewrite Hle.
    destruct (negb _); [reflexivity|].
    now destruct (match datetype event with
                  | Some t => String.eqb t "date"
                  | None => false
                  end).
Qed.

Lemma blocks_follow_event_instants_witness :
  (exists event s e,
     In (Some event) [Some wednesday_meeting] /\ timed_event event s e
     /\ s < e
     /\ "10:00:00" = formatTime Samples.cst s
     /\ "11:15:00" = formatTime Samples.cst e)
  /\ JS.lt (Route.timeToMinutes (formatTime Samples.cst wednesday_10_00))
       (Route.timeToMinutes (formatTime Samples.cst wednesday_11_15)) = true
  /\ entry_step Samples.cst []
       (Some (vevent wednesday_11_15 wednesday_10_00 None)) = [].
Proof.
  split; [|split].
  - apply (proj1 (blocks_follow_event_instants Samples.cst)
             [Some wednesday_meeting]
             (mkBusyBlockInput 3 "10:00:00" "11:15:00")).
    vm_compute. left. reflexivity.
  - apply (proj1 (proj2 (blocks_follow_event_instants Samples.cst))).
    + reflexivity.
    + reflexivity.
    + vm_compute. discriminate.
  - apply (proj2 (proj2 (blocks_follow_event_instants Samples.cst))
             [] _ wednesday_11_15 wednesday_10_00).
    + reflexivity.
    + reflexivity.
    + vm_compute. discriminate.
Defined.

(** C3 as stated fails: an event from 23:00 on Monday to 01:00 on Tuesday ends
    after it starts, so it is emitted, with [end_time] 01:00:00 before
    [start_time] 23:00:00 on the clock-of-day scale. *)
Lemma midnight_crossing_block_is_emitted :
  ~ (forall off parsed b,
       In b (parseIcsToBusyBlocks off parsed) ->
       JS.lt (Route.timeToMinutes (start_time b))
         (Route.timeToMinutes (end_time b)) = true).
Proof.
  intro H.
  specialize (H Samples.cst [Some night_shift]
                (mkBusyBlockInput 1 "23:00:00" "01:00:00")).
  assert (In (mkBusyBlockInput 1 "23:00:00" "01:00:00")
            (parseIcsToBusyBlocks Samples.cst [Some night_shift])) as Hin
    by (vm_compute; left; reflexivity).
  apply H in Hin. vm_compute in Hin. discriminate.
Qed.

(** C4: the weekdays of an event.  When the recurrence weekday-set (a number,
    an object with a weekday field, or a list of either) yields codes, the
    result is those codes plus one, without duplicates; when it yields none,
    or is absent, the result is the weekday of the start instant in the civil
    zone, and empty when there is no start instant.  Hence a class recurring
    on Tuesday and Thursday and a one-off event that starts on a Wednesday
    give exactly three blocks, for Tuesday, Thursday and Wednesday, each with
    the wall clock of its event. *)
Theorem recurrence_weekdays (off : Z -> Z) :
  (forall event,
     let codes := map (fun c => c + 1) (rule_codes event) in
     (codes <> [] ->
      NoDup (extractWeekdays off event)
      /\ forall d, In d (extractWeekdays off event) <-> In d codes)
     /\ (codes = [] ->
         extractWeekdays off event
         = match start event with
           | Some d => [weekdayOf off d]
           | None => []
           end))
  /\ (forall recurring oneoff s1 e1 s2 e2,
        timed_event recurring s1 e1 -> s1 < e1 ->
        rule_codes recurring = [1; 3] ->
        timed_event oneoff s2 e2 -> s2 < e2 ->
        rule_codes oneoff = [] -> weekdayOf off s2 = 3 ->
        parseIcsToBusyBlocks off [Some recurring; Some oneoff]
        = [mkBusyBlockInput 2 (formatTime off s1) (formatTime off e1);
           mkBusyBlockInput 4 (formatTime off s1) (formatTime off e1);
           mkBusyBlockInput 3 (formatTime off s2) (formatTime off e2)]).
Proof.
  assert (forall event,
            rule_codes event = [] ->
            extractWeekdays off event
            = match start event with
              | Some d => [weekdayOf off d]
              | None => []
              end) as Hfallback.
  { intros event Hnone. rewrite extractWeekdays_eq. cbv zeta.
    rewrite add_entries_codes. fold (rule_codes event). now rewrite Hnone. }
  split.
  - intros event codes. split.
    + intro Hsome. rewrite extractWeekdays_eq. cbv zeta.
      destruct (add_entries_spec (rule_entries event) [] (NoDup_nil _))
        as [Hnd Hin].
      fold (rule_codes event) in Hin.
      assert (forall d, In d (fold_left add_entry (rule_entries event) [])
                        <-> In d codes) as Hin'.
      { intro d. rewrite Hin. unfold codes. rewrite in_map_iff. split.
        - intros [[] | H]. exists (d - 1). split; [lia | exact H].
        - intros [c [<- H]]. right. now replace (c + 1 - 1) with c by lia. }
      destruct (fold_left add_entry (rule_entries event) []) as [|x l] eqn:E.
      * exfalso. destruct codes as [|c cs]; [congruence|].
        apply (proj2 (Hin' c)). now left.
      * split; [exact Hnd | exact Hin'].
    + intro Hnone. apply Hfallback.
      unfold codes in Hnone. now apply map_eq_nil in Hnone.
  - intros recurring oneoff s1 e1 s2 e2 Ht1 Hlt1 Hc1 Ht2 Hlt2 Hc2 Hw.
    unfold parseIcsToBusyBlocks. cbn [fold_left].
    rewrite (entry_step_timed off [] recurring s1 e1 Ht1).
    rewrite (entry_step_timed off _ oneoff s2 e2 Ht2).
    destruct (Z.leb_spec e1 s1); [lia|]. destruct (Z.leb_spec e2 s2); [lia|].
    assert (extractWeekdays off recurring = [2; 4]) as ->.
    { rewrite extractWeekdays_eq. cbv zeta. rewrite add_entries_codes.
      fold (rule_codes recurring). now rewrite Hc1. }
    rewrite (Hfallback oneoff Hc2).
    destruct Ht2 as [_ [-> _]]. rewrite Hw. reflexivity.
Qed.

Lemma recurrence_weekdays_witness :
  parseIcsToBusyBlocks Samples.cst [Some tue_thu_class; Some wednesday_meeting]
  = [mkBusyBlockInput 2 "10:00:00" "11:15:00";
     mkBusyBlockInput 4 "10:00:00" "11:15:00";
     mkBusyBlockInput 3 "10:00:00" "11:15:00"]
  /\ (forall d, In d (extractWeekdays Samples.cst tue_thu_class)
                <-> In d [2; 4])
  /\ extractWeekdays Samples.cst wednesday_meeting = [3].
Proof.
  split; [|split].
  - apply (proj2 (recurrence_weekdays Samples.cst) tue_thu_class
             wednesday_meeting wednesday_10_00 wednesday_11_15
             wednesday_10_00 wednesday_11_15).
    + repeat split; discriminate.
    + reflexivity.
    + reflexivity.
    + repeat split; discriminate.
    + reflexivity.
    + reflexivity.
    + reflexivity.
  - apply (proj1 (proj1 (recurrence_weekdays Samples.cst) tue_thu_class)).
    discriminate.
  - apply (proj2 (proj1 (recurrence_weekdays Samples.cst) wednesday_meeting)).
    reflexivity.
Defined.

(** C6: every emitted block has its weekday between 1 and 5, and an event all
    of whose resolved weekdays are Saturday or Sunday (6 or 7) emits no
    block. *)
Theorem blocks_in_business_week (off : Z -> Z) :
  (forall parsed,
     Forall (fun b => 1 <= weekday b <= 5) (parseIcsToBusyBlocks off parsed))
  /\ (forall event,
        (forall w, In w (extractWeekdays off event) -> w = 6 \/ w = 7) ->
        (forall blocks, entry_step off blocks (Some event) = blocks)
        /\ parseIcsToBusyBlocks off [Some event] = []).
Proof.
  split.
  - intro parsed. apply Forall_forall. intros b Hin.
    destruct (parsed_block_origin off parsed [] b Hin)
      as [[] | [event [s [e [w [_ [_ [_ [_ [Hw ->]]]]]]]]]].
    simpl. unfold in_business_week, WEEKDAY_MIN, WEEKDAY_MAX in Hw.
    apply negb_true_iff, orb_false_iff in Hw. destruct Hw as [H1 H2].
    apply Z.ltb_ge in H1, H2. lia.
  - intros event Hweekend.
    assert (forall blocks, entry_step off blocks (Some event) = blocks) as H.
    { intro blocks.
      destruct (entry_step_cases off blocks (Some event))
        as [Heq | [ev [s [e [[= <-] [_ [_ Heq]]]]]]]; [exact Heq|].
      rewrite Heq.
      assert (filter in_business_week (extractWeekdays off event) = []) as ->.
      { now apply weekend_filtered. }
      simpl. apply app_nil_r. }
    split; [exact H|]. unfold parseIcsToBusyBlocks. cbn [fold_left]. apply H.
Qed.

Lemma blocks_in_business_week_witness :
  parseIcsToBusyBlocks Samples.cst
    [Some (vevent wednesday_10_00 wednesday_11_15
             (weekly (ByArray [EntryNumber 5; EntryObject (Some 6)])))]
  = [].
Proof.
  apply (proj2 (blocks_in_business_week Samples.cst)).
  intros w Hw. vm_compute in Hw.
  destruct Hw as [<- | [<- | []]]; [now left | now right].
Defined.

End ClaimsIcs.

(* ================================================================== *)
(** * Beyond the specification: merging and classification *)
(* ================================================================== *)

Module CoverageFacts.
Import Route Props PropsExtra Tools MergeFacts ClassifyFacts.

Lemma intervals_of_set_same u l (m : JSMap.t (list BusyInterval)) :
  intervals_of u (JSMap.set u l m) = l.
Proof. unfold intervals_of. now rewrite get_set_same. Qed.

Lemma intervals_of_set_other u v l (m : JSMap.t (list BusyInterval)) :
  v <> u -> intervals_of u (JSMap.set v l m) = intervals_of u m.
Proof. intro H. unfold intervals_of. now rewrite get_set_other. Qed.

(** What the first loop collects for a user. *)
Lemma grouped_intervals u (blocks : list BusyBlockRow) :
  forall grouped,
    intervals_of u (fold_left group_step blocks grouped)
    = intervals_of u grouped ++ map interval_of_row (kept_rows u blocks).
Proof.
  induction blocks as [|b blocks IH]; intro grouped; simpl.
  - now rewrite app_nil_r.
  - rewrite IH, group_step_eq. destruct (skipped b) eqn:E; simpl.
    + reflexivity.
    + destruct (String.eqb (user_id b) u) eqn:Eu; simpl.
      * apply String.eqb_eq in Eu. subst u.
        rewrite intervals_of_set_same. now rewrite <- app_assoc.
      * apply String.eqb_neq in Eu.
        now rewrite intervals_of_set_other.
Qed.

Lemma get_merge_entries u (grouped : JSMap.t (list BusyInterval)) :
  JSMap.get u (map merge_entry grouped)
  = option_map merge_user (JSMap.get u grouped).
Proof.
  induction grouped as [|[v l] grouped IH]; simpl; [reflexivity|].
  destruct (String.eqb u v); [reflexivity | exact IH].
Qed.

(** The merged intervals of a user, from the rows of that user alone. *)
Lemma merged_intervals u (blocks : list BusyBlockRow) :
  intervals_of u (mergeBusyIntervals blocks)
  = merge_user (map interval_of_row (kept_rows u blocks)).
Proof.
  pose proof (grouped_intervals u blocks []) as H. simpl in H.
  rewrite <- H, mergeBusyIntervals_eq. unfold intervals_of.
  rewrite get_merge_entries.
  now destruct (JSMap.get u (fold_left group_step blocks [])).
Qed.

Lemma kept_rows_proper u (blocks : list BusyBlockRow) :
  Forall proper (map interval_of_row (kept_rows u blocks)).
Proof.
  apply Forall_forall. intros iv Hin. apply in_map_iff in Hin.
  destruct Hin as [b [<- Hb]]. apply filter_In in Hb.
  destruct Hb as [_ Hb]. apply andb_true_iff in Hb. destruct Hb as [Hb _].
  apply negb_true_iff in Hb. now apply interval_of_row_ok.
Qed.

(** ** The sweep keeps the covered minutes *)

Lemma sweep_covers t (rest : list BusyInterval) :
  forall last,
    ascending (last :: rest) ->
    ((exists iv, In iv (sweep_from last rest) /\ contains t iv)
     <-> contains t last \/ exists iv, In iv rest /\ contains t iv).
Proof.
  induction rest as [|iv rest IH]; intros last Hasc; simpl.
  - split.
    + intros [x [[<- | []] H]]. now left.
    + intros [H | [x [[] _]]]. exists last. split; [now left | exact H].
  - pose proof Hasc as [Hle _].
    destruct (Qle_bool (startMinutes iv) (endMinutes last)) eqn:E1.
    + apply Qle_bool_iff in E1.
      destruct (Qle_bool (endMinutes iv) (endMinutes last)) eqn:E2; simpl.
      * apply Qle_bool_iff in E2.
        rewrite (IH last) by (eapply ascending_skip; [reflexivity | exact Hasc]).
        split.
        -- intros [H | [x [Hx Hc]]]; [now left | right].
           exists x. split; [now right | exact Hc].
        -- intros [H | [x [[<- | Hx] Hc]]]; [now left | |].
           ++ left. destruct Hc as [H1 H2]. split; lra.
           ++ right. now exists x.
      * apply Qle_bool_false in E2.
        set (last' := mkBusyInterval (startMinutes last) (endMinutes iv)
                        (iv_start_time last) (iv_end_time iv)).
        rewrite (IH last') by (eapply ascending_skip; [|exact Hasc]; reflexivity).
        unfold contains. simpl. split.
        -- intros [[H1 H2] | [x [Hx Hc]]].
           ++ destruct (Qlt_le_dec t (endMinutes last)).
              ** left. split; lra.
              ** right. exists iv. split; [now left | split; lra].
           ++ right. exists x. split; [now right | exact Hc].
        -- intros [[H1 H2] | [x [[<- | Hx] Hc]]].
           ++ left. split; lra.
           ++ left. destruct Hc as [H1 H2]. split; lra.
           ++ right. now exists x.
    + pose proof (IH iv (ascending_tail _ _ _ Hasc)) as [IH1 IH2]. split.
      * intros [x [[<- | Hx] Hc]]; [now left|].
        right. destruct IH1 as [Hc' | [y [Hy Hc']]]; [now exists x | |].
        -- exists iv. split; [now left | exact Hc'].
        -- exists y. split; [now right | exact Hc'].
      * intros [H | [x [[<- | Hx] Hc]]].
        -- exists last. split; [now left | exact H].
        -- destruct IH2 as [y Hy]; [now left|].
           exists y. split; [right|]; apply Hy.
        -- destruct IH2 as [y Hy]; [right; now exists x|].
           exists y. split; [right|]; apply Hy.
Qed.

Lemma merge_user_covers t (l : list BusyInterval) :
  (exists iv, In iv (merge_user l) /\ contains t iv)
  <-> exists iv, In iv l /\ contains t iv.
Proof.
  rewrite merge_user_sweep.
  pose proof (sort_ascending l) as Hasc.
  assert (forall iv, In iv (JSArray.sort compareIntervals l) <-> In iv l)
    as Hin by (intro; apply sort_In).
  destruct (JSArray.sort compareIntervals l) as [|x r].
  - split; intros [iv [H _]]; [destruct H | apply Hin in H; destruct H].
  - rewrite (sweep_covers t r x Hasc). split.
    + intros [H | [iv [Hr Hc]]].
      * exists x. split; [apply Hin; now left | exact H].
      * exists iv. split; [apply Hin; now right | exact Hc].
    + intros [iv [Hl Hc]]. apply Hin in Hl. destruct Hl as [<- | Hr].
      * now left.
      * right. now exists iv.
Qed.

(** Two intervals of a separated list that touch are the same interval. *)
Lemma separated_touching (l : list BusyInterval) (a b : BusyInterval) :
  separated l -> Forall proper l -> In a l -> In b l ->
  (startMinutes a <= endMinutes b)%Q -> (startMinutes b <= endMinutes a)%Q ->
  a = b.
Proof.
  induction l as [|x l IH]; intros Hsep Hp Ha Hb Hab Hba; [destruct Ha|].
  inversion Hp as [|? ? Hx Hl]; subst.
  assert (separated l) as Hsep' by (destruct l; [exact I | apply Hsep]).
  destruct Ha as [-> | Ha], Hb as [-> | Hb].
  - reflexivity.
  - pose proof (separated_all l a Hsep Hl b Hb). lra.
  - pose proof (separated_all l b Hsep Hl a Ha). lra.
  - now apply IH.
Qed.

Lemma covered_by_kept_rows u (blocks : list BusyBlockRow) t :
  (exists iv, In iv (map interval_of_row (kept_rows u blocks))
              /\ contains t iv)
  <-> busy_at u blocks t.
Proof.
  unfold busy_at, row_covers, kept_rows. split.
  - intros [iv [Hin [H1 H2]]]. apply in_map_iff in Hin.
    destruct Hin as [b [<- Hb]]. apply filter_In in Hb.
    destruct Hb as [Hb Hk]. apply andb_true_iff in Hk.
    destruct Hk as [Hs Hu]. apply String.eqb_eq in Hu.
    apply negb_true_iff, skipped_false in Hs.
    destruct Hs as [s [e [Es [Ee _]]]].
    exists b. split; [exact Hb|]. split; [exact Hu|]. exists s, e.
    unfold interval_of_row in H1, H2. simpl in H1, H2.
    rewrite Es in H1. rewrite Ee in H2. now repeat split.
  - intros [b [Hb [Hu [s [e [Es [Ee [H1 H2]]]]]]]].
    exists (interval_of_row b). split.
    + apply in_map, filter_In. split; [exact Hb|].
      apply andb_true_iff. split; [|now apply String.eqb_eq].
      apply negb_true_iff, skipped_false. exists s, e.
      split; [exact Es|]. split; [exact Ee | lra].
    + unfold contains, interval_of_row. simpl. rewrite Es, Ee. now split.
Qed.

(** The clock strings of a swept interval are those of intervals swept. *)
Lemma sweep_strings (rest : list BusyInterval) :
  forall last x,
    In x (sweep_from last rest) ->
    In (iv_start_time x) (iv_start_time last :: map iv_start_time rest)
    /\ In (iv_end_time x) (iv_end_time last :: map iv_end_time rest).
Proof.
  induction rest as [|iv rest IH]; intros last x Hx; simpl in Hx.
  - destruct Hx as [<- | []]. split; now left.
  - destruct (Qle_bool (startMinutes iv) (endMinutes last)).
    + destruct (negb (Qle_bool (endMinutes iv) (endMinutes last))).
      * destruct (IH _ x Hx) as [[H1 | H1] [H2 | H2]]; simpl in H1, H2;
          split; simpl; auto.
      * destruct (IH _ x Hx) as [[H1 | H1] [H2 | H2]]; split; simpl; auto.
    + destruct Hx as [<- | Hx]; [split; now left|].
      destruct (IH _ x Hx) as [[H1 | H1] [H2 | H2]]; split; simpl; auto.
Qed.

(** The clock strings of a merged interval are the [start_time] of a row of
    the user that is not skipped, and the [end_time] of one. *)
Lemma merged_strings (blocks : list BusyBlockRow) (u : string)
    (iv : BusyInterval) :
  In iv (intervals_of u (mergeBusyIntervals blocks)) ->
  (exists b, In b blocks /\ user_id b = u /\ skipped b = false
             /\ iv_start_time iv = start_time b)
  /\ (exists b, In b blocks /\ user_id b = u /\ skipped b = false
                /\ iv_end_time iv = end_time b).
Proof.
  rewrite merged_intervals, merge_user_sweep. intro Hin.
  set (l := map interval_of_row (kept_rows u blocks)) in *.
  assert (In (iv_start_time iv) (map iv_start_time l)
          /\ In (iv_end_time iv) (map iv_end_time l)) as [H1 H2].
  { assert (forall y, In y (JSArray.sort compareIntervals l) -> In y l)
      as Hsort by (intro; apply sort_In).
    destruct (JSArray.sort compareIntervals l) as [|x r]; [destruct Hin|].
    destruct (sweep_strings r x iv Hin) as [Hs He].
    change (In (iv_start_time iv) (map iv_start_time (x :: r))) in Hs.
    change (In (iv_end_time iv) (map iv_end_time (x :: r))) in He.
    apply in_map_iff in Hs, He.
    destruct Hs as [a [Ea Ha]], He as [b [Eb Hb]].
    split; apply in_map_iff; [exists a | exists b]; auto. }
  assert (forall y, In y l ->
            exists b, In b blocks /\ user_id b = u /\ skipped b = false
                      /\ y = interval_of_row b) as Hrow.
  { intros y Hy. apply in_map_iff in Hy. destruct Hy as [b [<- Hb]].
    apply filter_In in Hb. destruct Hb as [Hb Hk].
    apply andb_true_iff in Hk. destruct Hk as [Hs Hu].
    exists b. split; [exact Hb|]. split; [now apply String.eqb_eq|].
    split; [now apply negb_true_iff | reflexivity]. }
  apply in_map_iff in H1, H2.
  destruct H1 as [a [Ea Ha]], H2 as [b [Eb Hb]].
  destruct (Hrow a Ha) as [ra [R1 [R2 [R3 ->]]]].
  destruct (Hrow b Hb) as [rb [S1 [S2 [S3 ->]]]].
  split; [exists ra | exists rb]; repeat split; auto.
Qed.

Lemma merged_covers (blocks : list BusyBlockRow) (u : string) (t : Q) :
  (exists iv, In iv (intervals_of u (mergeBusyIntervals blocks))
              /\ contains t iv)
  <-> busy_at u blocks t.
Proof.
  rewrite merged_intervals, merge_user_covers. apply covered_by_kept_rows.
Qed.

(** A merged interval is covered by rows, and its end minute is not. *)
Lemma merged_run (blocks : list BusyBlockRow) (u : string) (iv : BusyInterval) :
  In iv (intervals_of u (mergeBusyIntervals blocks)) ->
  (forall t, (startMinutes iv <= t)%Q -> (t < endMinutes iv)%Q ->
             busy_at u blocks t)
  /\ ~ busy_at u blocks (endMinutes iv).
Proof.
  intro Hin. split.
  - intros t H1 H2. apply merged_covers.
    exists iv. split; [exact Hin | now split].
  - intro Hbusy. apply merged_covers in Hbusy.
    destruct Hbusy as [iv' [Hin' [H1 H2]]].
    destruct (intervals_of_merged blocks u)
      as [E | [_ [Hp [Hs _]]]]; [rewrite E in Hin; destruct Hin|].
    assert (iv' = iv) as ->.
    { apply (separated_touching _ iv' iv Hs Hp Hin' Hin); [exact H1|].
      rewrite Forall_forall in Hp. pose proof (Hp iv Hin) as P.
      unfold proper in P. lra. }
    lra.
Qed.

(** From a free reference minute on, no row covers a minute before the start
    of the first merged interval that starts later. *)
Lemma free_gap (blocks : list BusyBlockRow) (u : string) (ref : Q) :
  let intervals := intervals_of u (mergeBusyIntervals blocks) in
  (forall iv, In iv intervals -> ~ contains ref iv) ->
  forall t,
    (ref <= t)%Q ->
    (forall iv, In iv intervals -> later ref iv -> (t < startMinutes iv)%Q) ->
    ~ busy_at u blocks t.
Proof.
  intros intervals Hfree t Ht Hbefore Hbusy.
  apply merged_covers in Hbusy. destruct Hbusy as [iv [Hin [H1 H2]]].
  destruct (Qlt_le_dec ref (startMinutes iv)) as [Hl | Hle].
  - pose proof (Hbefore iv Hin Hl). lra.
  - apply (Hfree iv Hin). split; lra.
Qed.

End CoverageFacts.

Module MergeExtras.
Import Route Props PropsExtra Tools MergeFacts ClassifyFacts CoverageFacts.
Import Samples.

(** X1: merging neither adds nor loses busy time: a minute lies in one of the
    merged intervals of a user exactly when it lies in the window
    [[start, end)] of one of that user's rows whose two conversions are
    finite (a row with a conversion that is not finite covers nothing). *)
Theorem merge_preserves_busy_minutes
    (blocks : list BusyBlockRow) (userId : string) (minute : Q) :
  (exists iv, In iv (intervals_of userId (mergeBusyIntervals blocks))
              /\ contains minute iv)
  <-> busy_at userId blocks minute.
Proof.
  rewrite merged_intervals, merge_user_covers. apply covered_by_kept_rows.
Qed.

Lemma kept_rows_of_user u (blocks : list BusyBlockRow) :
  kept_rows u (filter (fun b => String.eqb (user_id b) u) blocks)
  = kept_rows u blocks.
Proof.
  unfold kept_rows. induction blocks as [|b blocks IH]; simpl; [reflexivity|].
  destruct (String.eqb (user_id b) u) eqn:E; simpl.
  - rewrite E, IH. reflexivity.
  - rewrite IH, andb_false_r. reflexivity.
Qed.

(** X2: users are merged independently: the intervals of a user are those
    obtained from that user's rows alone, and the map has an entry for a user
    exactly when the user has a row whose two conversions are finite, the
    converted end after the converted start. *)
Theorem merge_is_per_user (blocks : list BusyBlockRow) (userId : string) :
  intervals_of userId (mergeBusyIntervals blocks)
  = intervals_of userId
      (mergeBusyIntervals
         (filter (fun b => String.eqb (user_id b) userId) blocks))
  /\ (In userId (JSMap.keys (mergeBusyIntervals blocks))
      <-> exists block startMinutes endMinutes,
            In block blocks /\ user_id block = userId
            /\ timeToMinutes (start_time block) = JS.Num startMinutes
            /\ timeToMinutes (end_time block) = JS.Num endMinutes
            /\ (startMinutes < endMinutes)%Q).
Proof.
  split.
  - now rewrite !merged_intervals, kept_rows_of_user.
  - assert ((exists block startMinutes endMinutes,
               In block blocks /\ user_id block = userId
               /\ timeToMinutes (start_time block) = JS.Num startMinutes
               /\ timeToMinutes (end_time block) = JS.Num endMinutes
               /\ (startMinutes < endMinutes)%Q)
            <-> exists block, In block blocks /\ user_id block = userId
                              /\ skipped block = false) as ->.
    { split.
      - intros [b [s [e [Hb [Hu H]]]]]. exists b. split; [exact Hb|].
        split; [exact Hu|]. apply skipped_false. now exists s, e.
      - intros [b [Hb [Hu H]]]. apply skipped_false in H.
        destruct H as [s [e H]]. now exists b, s, e. }
    assert ((exists block, In block blocks /\ user_id block = userId
                           /\ skipped block = false)
            <-> kept_rows userId blocks <> []) as ->.
    { unfold kept_rows. split.
      - intros [b [Hb [Hu Hi]]] Hnil.
        assert (In b (filter (fun b => negb (skipped b)
                                       && String.eqb (user_id b) userId)
                        blocks)) as Hin.
        { apply filter_In. split; [exact Hb|].
          rewrite Hi. simpl. now apply String.eqb_eq. }
        rewrite Hnil in Hin. destruct Hin.
      - intro Hne.
        destruct (filter _ blocks) as [|b l] eqn:E; [congruence|].
        assert (In b (b :: l)) as Hin by now left.
        rewrite <- E in Hin. apply filter_In in Hin.
        destruct Hin as [Hb Hk]. apply andb_true_iff in Hk.
        destruct Hk as [Hi Hu]. exists b. split; [exact Hb|].
        split; [now apply String.eqb_eq | now apply negb_true_iff]. }
    pose proof (merged_intervals userId blocks) as Hm.
    destruct (merged_invariant blocks) as [_ Hall].
    unfold intervals_of in Hm.
    destruct (JSMap.get userId (mergeBusyIntervals blocks)) as [l|] eqn:G.
    + simpl in Hm. destruct (all_values_get _ _ _ _ Hall G) as [Hne _].
      split.
      * intros _ Hnil. rewrite Hnil in Hm. simpl in Hm.
        apply Hne. rewrite Hm. reflexivity.
      * intros _. assert (JSMap.get userId (mergeBusyIntervals blocks) <> None)
          as Hsome by congruence.
        rewrite get_None_not_In in Hsome.
        destruct (in_dec string_dec userId
                    (JSMap.keys (mergeBusyIntervals blocks))); tauto.
    + apply get_None_not_In in G. simpl in Hm. split; [tauto|].
      intro Hne. exfalso. symmetry in Hm.
      destruct (merge_user_invariant
                  (map interval_of_row (kept_rows userId blocks)))
        as [Hne' _]; [| apply kept_rows_proper | | contradiction].
      * destruct (kept_rows userId blocks); [congruence | discriminate].
      * apply Forall_forall. intros iv Hin. apply in_map_iff in Hin.
        destruct Hin as [b [<- Hb]]. apply filter_In in Hb.
        destruct Hb as [_ Hk]. apply andb_true_iff in Hk.
        destruct Hk as [Hs _]. apply negb_true_iff in Hs.
        apply (interval_of_row_ok b Hs).
Qed.

(** X3: a merged interval is a run of busy time that ends where it says: the
    user has a row covering every minute from its start up to its end, and no
    row covering its end minute (rows cover through finite conversions
    only). *)
Theorem merged_interval_is_a_busy_run
    (blocks : list BusyBlockRow) (userId : string) (iv : BusyInterval) :
  In iv (intervals_of userId (mergeBusyIntervals blocks)) ->
  (forall minute,
     (startMinutes iv <= minute)%Q -> (minute < endMinutes iv)%Q ->
     busy_at userId blocks minute)
  /\ ~ busy_at userId blocks (endMinutes iv).
Proof. apply merged_run. Qed.

Lemma merged_interval_is_a_busy_run_witness :
  busy_at "u" day_rows (780 # 1) /\ ~ busy_at "u" day_rows (900 # 1).
Proof.
  destruct (merged_interval_is_a_busy_run day_rows "u" morning_run)
    as [H1 H2].
  - vm_compute. left. reflexivity.
  - split; [|exact H2]. apply H1; vm_compute; congruence.
Defined.

(** X4: the answer given for a member is sound for the rows read from the
    store.  For a member listed as busy, [busy_until] is the label of the
    [end_time] of one of the member's rows; with the boundary the minute
    that [end_time] converts to, the member's rows cover every minute from
    the reference up to the boundary, and none covers the boundary.  For a
    member listed as free with a [free_until], that is the label of the
    [start_time] of one of the member's rows; its boundary is after the
    reference, no row covers a minute from the reference up to it, and a row
    covers it.  Listed as free without one, no row covers any minute from the
    reference on.  A member is listed as unknown only when absent from the
    uploads.  (A label shows hours and minutes only, so it need not tell
    the boundary to the second.) *)
Theorem answer_is_sound_for_the_rows
    (blocks : list BusyBlockRow) (uploadedSet : list string)
    (referenceMinutes : Q) (member : MemberRow) :
  let maps :=
    build_maps (JS.Num referenceMinutes) (mergeBusyIntervals blocks) in
  let uid := member_user_id member in
  match classify_member uploadedSet maps member with
  | Unknown _ => Set_has uid uploadedSet = false
  | Busy e =>
      exists block boundary,
        In block blocks /\ user_id block = uid
        /\ busy_until e = formatTime (end_time block)
        /\ timeToMinutes (end_time block) = JS.Num boundary
        /\ (referenceMinutes < boundary)%Q
        /\ (forall minute,
              (referenceMinutes <= minute)%Q -> (minute < boundary)%Q ->
              busy_at uid blocks minute)
        /\ ~ busy_at uid blocks boundary
  | Free e =>
      match free_until e with
      | Some shown =>
          exists block boundary,
            In block blocks /\ user_id block = uid
            /\ shown = formatTime (start_time block)
            /\ timeToMinutes (start_time block) = JS.Num boundary
            /\ (referenceMinutes < boundary)%Q
            /\ (forall minute,
                  (referenceMinutes <= minute)%Q -> (minute < boundary)%Q ->
                  ~ busy_at uid blocks minute)
            /\ busy_at uid blocks boundary
      | None =>
          forall minute,
            (referenceMinutes <= minute)%Q -> ~ busy_at uid blocks minute
      end
  end.
Proof.
  intros maps uid.
  set (merged := mergeBusyIntervals blocks) in *.
  set (intervals := intervals_of uid merged).
  destruct (merged_invariant blocks) as [Hnd _].
  destruct (build_maps_get referenceMinutes uid merged Hnd) as [Hb Hn].
  fold maps intervals in Hb, Hn.
  assert (forall iv, In iv intervals -> proper iv /\ consistent iv) as Hok.
  { intros iv Hin.
    destruct (intervals_of_merged blocks uid) as [E | [_ [Hp [_ Hc]]]].
    - fold merged intervals in E. rewrite E in Hin. destruct Hin.
    - fold merged intervals in Hp, Hc. rewrite Forall_forall in Hp, Hc.
      split; [now apply Hp | now apply Hc]. }
  rewrite classify_member_eq. cbv zeta. fold uid.
  destruct (Set_has uid uploadedSet) eqn:Hup; simpl negb; cbv iota;
    [|reflexivity].
  rewrite Hb, Hn.
  destruct (busy_of referenceMinutes intervals) as [b|] eqn:Eb.
  - (* busy *)
    unfold busy_of in Eb.
    destruct (busy_fold referenceMinutes intervals None) as [_ H].
    destruct (H b Eb) as [? | [iv [Hin [[Hc1 Hc2] ->]]]]; [discriminate|].
    destruct (Hok iv Hin) as [Hp [_ Hend]].
    destruct (merged_run blocks uid iv Hin) as [Hrun Hstop].
    destruct (merged_strings blocks uid iv Hin)
      as [_ [row [Hrow [Hu [_ Es]]]]].
    exists row, (endMinutes iv). simpl. rewrite <- Es.
    split; [exact Hrow|]. split; [exact Hu|]. split; [reflexivity|].
    split; [exact Hend|]. split; [exact Hc2|]. split; [|exact Hstop].
    intros t H1 H2. apply Hrun; [lra | exact H2].
  - (* free *)
    pose proof (proj1 (busy_of_None _ _) Eb) as Hfree. simpl free_until.
    destruct (next_of referenceMinutes intervals) as [n|] eqn:En; simpl.
    + unfold next_of in En.
      destruct (next_fold referenceMinutes intervals None) as [_ H].
      destruct (H n En) as [[? | [iv [Hin [Hl ->]]]] [Hmin _]];
        [discriminate|].
      destruct (Hok iv Hin) as [Hp [Hstart _]]. simpl in Hmin.
      destruct (merged_strings blocks uid iv Hin)
        as [[row [Hrow [Hu [_ Es]]]] _].
      exists row, (startMinutes iv). simpl. rewrite <- Es.
      split; [exact Hrow|]. split; [exact Hu|]. split; [reflexivity|].
      split; [exact Hstart|]. split; [exact Hl|]. split.
      * intros t H1 H2.
        apply (free_gap blocks uid referenceMinutes Hfree t H1).
        intros iv' Hin' Hl'. pose proof (Hmin iv' Hin' Hl'). lra.
      * apply merged_covers. exists iv. split; [exact Hin|].
        unfold proper in Hp. split; lra.
    + pose proof (proj1 (next_of_None _ _) En) as Hnone. intros t Ht.
      apply (free_gap blocks uid referenceMinutes Hfree t Ht).
      intros iv Hin Hl. exfalso. exact (Hnone iv Hin Hl).
Qed.

End MergeExtras.

(* ================================================================== *)
(** * Beyond the specification: the availability handler *)
(* ================================================================== *)

Module HandlerFacts.
Import Route Props PropsIcs PropsHandler Tools ClassifyFacts TimeParamFacts.
Import ParseIcsFacts.

(** Open [GET] branch by branch. *)
Ltac GET_branches :=
  unfold GET; cbv zeta;
  repeat match goal with
  | |- context [match claims_sub ?r with _ => _ end] =>
      destruct (claims_sub r) as [[|? ?]|] eqn:?
  | |- context [match timeParam ?r with _ => _ end] =>
      destruct (timeParam r) as [[|? ?]|] eqn:?
  | |- context [match parseTimeParam ?x with _ => _ end] =>
      destruct (parseTimeParam x) eqn:?
  | |- context [if error ?x then _ else _] => destruct (error x) eqn:?
  | |- context [match data ?x with _ => _ end] => destruct (data x) eqn:?
  | |- context [match map ?f ?l with _ => _ end] => destruct (map f l) eqn:?
  | |- context [if ?a && ?b then _ else _] => destruct (a && b) eqn:?
  | |- context [classify ?a ?b ?c] =>
      destruct (classify a b c) as [[? ?] ?] eqn:?
  end.

Lemma current_weekday off instant :
  weekday (getCurrentTimeParts off instant) = weekdayOf off instant.
Proof.
  unfold getCurrentTimeParts, Intl.nowParts, Intl.find_value. simpl.
  pose proof (getWeekdayInZone_weekdayOf off instant) as H.
  unfold ParseIcs.getWeekdayInZone in H.
  unfold weekdayOf, Intl.weekdayShort in *.
  set (k := (Intl.localDay off instant + 3) mod 7) in *.
  assert (0 <= k < 7) as Hk by (apply Z.mod_pos_bound; lia).
  assert (k = 0 \/ k = 1 \/ k = 2 \/ k = 3 \/ k = 4 \/ k = 5 \/ k = 6)
    as Hcases by lia.
  destruct Hcases as [-> | [-> | [-> | [-> | [-> | [-> | ->]]]]]];
    reflexivity.
Qed.

Lemma Number_value_two_digit (n : Z) :
  0 <= n < 100 -> (Number_value (Intl.two_digit n) == inject_Z n)%Q.
Proof.
  intro Hn. unfold Number_value.
  destruct (Number_two_digit n Hn) as [q [-> Hq]]. exact Hq.
Qed.

Lemma current_hours off instant :
  (hours (getCurrentTimeParts off instant)
   == inject_Z (Intl.localHour off instant))%Q.
Proof.
  unfold getCurrentTimeParts, Intl.nowParts, Intl.find_value. simpl.
  apply Number_value_two_digit. unfold Intl.localHour.
  generalize (Intl.localMillis off instant). intro x.
  Z.div_mod_to_equations. lia.
Qed.

Lemma current_minutes off instant :
  (minutes_now (getCurrentTimeParts off instant)
   == inject_Z (Intl.localMinute off instant))%Q.
Proof.
  unfold getCurrentTimeParts, Intl.nowParts, Intl.find_value. simpl.
  apply Number_value_two_digit. unfold Intl.localMinute.
  generalize (Intl.localMillis off instant). intro x.
  Z.div_mod_to_equations. lia.
Qed.

Lemma minuteOfDay_range off instant : 0 <= minuteOfDay off instant < 1440.
Proof.
  unfold minuteOfDay. generalize (Intl.localMillis off instant). intro x.
  Z.div_mod_to_equations. lia.
Qed.

Lemma parseTimeParam_None s :
  parseTimeParam (Some s) = None <-> ~ clock_form s.
Proof.
  pose proof (parseTimeParam_accepted s) as H. split.
  - intros Hnone Hform. apply clock_form_accepted in Hform.
    apply H in Hform. contradiction.
  - intro Hnot. destruct (parseTimeParam (Some s)) eqn:E; [|reflexivity].
    exfalso. apply Hnot, accepted_clock_form, H. congruence.
Qed.

Lemma classify_permutation members uploadedSet maps :
  Permutation (map member_user_id members)
    (let '(free, busy, unknown) := classify members uploadedSet maps in
     map free_user_id free ++ map busy_user_id busy
     ++ map unknown_user_id unknown).
Proof.
  rewrite classify_eq. cbv zeta.
  unfold free_entries, busy_entries, unknown_entries.
  induction members as [|m members IH]; [constructor|].
  cbn [map flat_map]. rewrite classify_member_eq. cbv zeta.
  destruct (negb (Set_has (member_user_id m) uploadedSet)).
  - cbn [app map]. rewrite app_assoc. apply Permutation_cons_app.
    rewrite <- app_assoc. exact IH.
  - destruct (JSMap.get (member_user_id m) (fst maps)).
    + cbn [app map]. apply Permutation_cons_app. exact IH.
    + cbn [app map]. constructor. exact IH.
Qed.

Lemma GET_early_answers off request store :
  forall status message reads,
    GET off request store = (ErrorResponse status message, reads) ->
    (status = 401 -> ~ authenticated request /\ reads = [])
    /\ (status = 400 ->
        (exists s, timeParam request = Some s /\ s <> "" /\ ~ clock_form s)
        /\ reads = []).
Proof.
  GET_branches; intros status message reads Heq;
    inversion Heq; subst; clear Heq;
    (split; intro Hs; [try discriminate Hs | try discriminate Hs]).
  - split; [|reflexivity]. intros [c [rest Hc]]. congruence.
  - split; [|reflexivity]. eexists. split; [reflexivity|].
    split; [discriminate|]. now apply parseTimeParam_None.
  - split; [|reflexivity]. intros [c [rest Hc]]. congruence.
Qed.

Lemma GET_reads_prefix off request store :
  exists n,
    (n <= 4)%nat
    /\ snd (GET off request store)
       = firstn n (all_reads (weekdayOf off (now request)))
    /\ (n = 4%nat -> 1 <= weekdayOf off (now request) <= 5).
Proof.
  rewrite <- current_weekday.
  GET_branches;
    first [ exists 0%nat; split; [lia|]; split; [reflexivity | discriminate]
          | exists 1%nat; split; [lia|]; split; [reflexivity | discriminate]
          | exists 2%nat; split; [lia|]; split; [reflexivity | discriminate]
          | exists 3%nat; split; [lia|]; split; [reflexivity | discriminate]
          | exists 4%nat; split; [lia|]; split; [reflexivity | intros _; lia] ].
Qed.

End HandlerFacts.

Module HandlerExtras.
Import Route Props PropsIcs PropsHandler Tools ClassifyFacts TimeParamFacts.
Import ParseIcsFacts HandlerFacts Samples SamplesIcs.

(** X5: a request that is answered lists every member of the group exactly
    once: the user ids of [free], [busy] and [unknown] together are a
    permutation of the user ids of the member rows. *)
Theorem every_member_is_listed_once off request store payload reads :
  GET off request store = (OkResponse payload, reads) ->
  exists memberRows,
    data (group_members store) = Some memberRows
    /\ Permutation (map raw_user_id memberRows) (payload_user_ids payload)
    /\ (List.length (free payload) + List.length (busy payload)
        + List.length (unknown payload) = List.length memberRows)%nat.
Proof.
  intro H. destruct (Claims.GET_ok _ _ _ _ _ H) as [rows [Hrows Hcases]].
  exists rows. split; [exact Hrows|].
  assert (Permutation (map raw_user_id rows) (payload_user_ids payload))
    as Hperm.
  { destruct Hcases as [[-> [Hf [Hb [Hu _]]]] | [_ [blocks [_ Hc]]]].
    - unfold payload_user_ids. rewrite Hf, Hb, Hu. constructor.
    - pose proof (classify_permutation (map normalize_member rows)
                    (or_else (data (calendar_uploads store)) [])
                    (build_maps (reference off request)
                       (mergeBusyIntervals blocks))) as P.
      rewrite Hc in P. rewrite map_map in P. exact P. }
  split; [exact Hperm|].
  apply Permutation_length in Hperm. unfold payload_user_ids in Hperm.
  rewrite !length_app, !length_map in Hperm. lia.
Qed.

Lemma every_member_is_listed_once_witness :
  exists memberRows,
    data (group_members sample_store) = Some memberRows
    /\ Permutation (map raw_user_id memberRows)
         (payload_user_ids saturday_payload)
    /\ (List.length (free saturday_payload)
        + List.length (busy saturday_payload)
        + List.length (unknown saturday_payload)
        = List.length memberRows)%nat.
Proof.
  apply (every_member_is_listed_once cst saturday_request sample_store
           saturday_payload [ReadMembership; ReadMembers; ReadUploads]).
  vm_compute. reflexivity.
Defined.

(** X6: validation comes before the store.  A request without a signed-in
    user is answered 401, and a signed-in request whose [time] parameter is
    non-empty and not of the clock form is answered 400, both without a single
    read; no other request is answered 400. *)
Theorem requests_are_validated_before_reads off request store :
  (~ authenticated request ->
   GET off request store = (ErrorResponse 401 "Unauthorized", []))
  /\ (authenticated request ->
      ((exists s, timeParam request = Some s /\ s <> "" /\ ~ clock_form s)
       <-> exists message reads,
             GET off request store = (ErrorResponse 400 message, reads)))
  /\ (forall status message reads,
        GET off request store = (ErrorResponse status message, reads) ->
        status = 401 \/ status = 400 -> reads = []).
Proof.
  split; [|split].
  - intro Hno. unfold GET.
    destruct (claims_sub request) as [[|c rest]|] eqn:E; try reflexivity.
    exfalso. apply Hno. now exists c, rest.
  - intros [c [rest Hc]]. split.
    + intros [s [Hs [Hne Hform]]]. apply parseTimeParam_None in Hform.
      exists "Invalid time format. Use HH:MM.", []. unfold GET.
      rewrite Hc, Hs, Hform. destruct s; [congruence | reflexivity].
    + intros [message [reads H]].
      apply (proj2 (GET_early_answers _ _ _ _ _ _ H) eq_refl).
  - intros status message reads H [-> | ->].
    + apply (proj1 (GET_early_answers _ _ _ _ _ _ H) eq_refl).
    + apply (proj2 (GET_early_answers _ _ _ _ _ _ H) eq_refl).
Qed.

Lemma requests_are_validated_before_reads_witness :
  GET cst (mkRequest None (Some "12:30") saturday_morning) sample_store
  = (ErrorResponse 401 "Unauthorized", [])
  /\ exists message reads,
       GET cst (mkRequest (Some "u") (Some "25:00") saturday_morning)
         sample_store
       = (ErrorResponse 400 message, reads).
Proof.
  split.
  - apply (proj1 (requests_are_validated_before_reads cst
                    (mkRequest None (Some "12:30") saturday_morning)
                    sample_store)).
    intros [c [rest H]]. discriminate H.
  - apply (proj1 (proj2 (requests_are_validated_before_reads cst
                           (mkRequest (Some "u") (Some "25:00")
                              saturday_morning) sample_store))).
    + exists "u"%char, "". reflexivity.
    + exists "25:00". split; [reflexivity|]. split; [discriminate|].
      apply HandlerFacts.parseTimeParam_None. reflexivity.
Defined.

(** X7: the reads of a request are always an initial part of the sequence
    membership, members, uploads, busy blocks of the current weekday of the
    civil zone; the busy blocks are read only when that weekday is Monday to
    Friday, and of no other weekday. *)
Theorem reads_follow_one_sequence off request store :
  (exists n,
     snd (GET off request store)
     = firstn n (all_reads (weekdayOf off (now request))))
  /\ forall w,
       In (ReadBusyBlocks w) (snd (GET off request store)) ->
       w = weekdayOf off (now request) /\ 1 <= w <= 5.
Proof.
  destruct (GET_reads_prefix off request store) as [n [Hle [Hn Hw]]].
  split; [now exists n|].
  intros w Hin. rewrite Hn in Hin.
  destruct n as [|[|[|[|[|n]]]]]; [| | | | |lia]; simpl in Hin;
    repeat (destruct Hin as [Hin | Hin]; [discriminate Hin|]);
    try (now destruct Hin).
  destruct Hin as [Hin | []]. injection Hin as <-.
  split; [reflexivity | now apply Hw].
Qed.

Lemma reads_follow_one_sequence_witness :
  3 = weekdayOf cst wednesday_10_00 /\ 1 <= 3 <= 5.
Proof.
  apply (proj2 (reads_follow_one_sequence cst
                  (mkRequest (Some "u") (Some "12:30") wednesday_10_00)
                  sample_store) 3).
  vm_compute. right. right. right. left. reflexivity.
Defined.

(** X8: [getCurrentTimeParts] reads the formatter back exactly: its weekday
    is the weekday of the instant in the civil zone (1 to 7, never the
    fallback), its hours and minutes are the hour and minute of the civil day,
    so the minute of "now" is the minute of the civil day, from 0 to 1439; and
    the weekday is the one the normaliser gives a one-off event that starts at
    that instant. *)
Theorem current_time_parts_are_the_civil_clock off instant :
  let parts := getCurrentTimeParts off instant in
  weekday parts = weekdayOf off instant
  /\ 1 <= weekday parts <= 7
  /\ (hours parts == inject_Z (Intl.localHour off instant))%Q
  /\ (minutes_now parts == inject_Z (Intl.localMinute off instant))%Q
  /\ (hours parts * 60 + minutes_now parts
      == inject_Z (minuteOfDay off instant))%Q
  /\ 0 <= minuteOfDay off instant < 1440
  /\ forall event,
       rule_codes event = [] -> ParseIcs.start event = Some instant ->
       ParseIcs.extractWeekdays off event = [weekday parts].
Proof.
  intro parts. unfold parts.
  pose proof (current_weekday off instant) as Hw.
  pose proof (current_hours off instant) as Hh.
  pose proof (current_minutes off instant) as Hm.
  split; [exact Hw|]. split; [rewrite Hw; apply weekdayOf_range|].
  split; [exact Hh|]. split; [exact Hm|]. split; [|split].
  - rewrite Hh, Hm, <- hour_minute_of_day.
    rewrite inject_Z_plus, inject_Z_mult. reflexivity.
  - apply minuteOfDay_range.
  - intros event Hcodes Hstart. rewrite extractWeekdays_eq. cbv zeta.
    rewrite add_entries_codes. fold (rule_codes event).
    rewrite Hcodes, Hstart, Hw. reflexivity.
Qed.

Lemma current_time_parts_are_the_civil_clock_witness :
  ParseIcs.extractWeekdays cst wednesday_meeting
  = [weekday (getCurrentTimeParts cst wednesday_10_00)].
Proof.
  apply (proj2 (proj2 (proj2 (proj2 (proj2 (proj2
           (current_time_parts_are_the_civil_clock cst wednesday_10_00)))))))
    ; reflexivity.
Defined.

End HandlerExtras.

Module InstantExtras.
Import Route Props PropsIcs PropsHandler HandlerFacts Samples.

Lemma same_minute_same_clock off a b :
  minuteOfDay off a = minuteOfDay off b ->
  Intl.localHour off a = Intl.localHour off b
  /\ Intl.localMinute off a = Intl.localMinute off b.
Proof.
  unfold minuteOfDay, Intl.localHour, Intl.localMinute.
  generalize (Intl.localMillis off a), (Intl.localMillis off b).
  intros x y H. Z.div_mod_to_equations. lia.
Qed.

Lemma same_minute_same_parts off a b :
  minuteOfDay off a = minuteOfDay off b ->
  hours (getCurrentTimeParts off a) = hours (getCurrentTimeParts off b)
  /\ minutes_now (getCurrentTimeParts off a)
     = minutes_now (getCurrentTimeParts off b).
Proof.
  intro H. destruct (same_minute_same_clock off a b H) as [Hh Hm].
  unfold getCurrentTimeParts, Intl.nowParts, Intl.find_value. simpl.
  now rewrite Hh, Hm.
Qed.

(** X9: the instant of a request matters only through the civil zone.  Two
    requests of the same user with the same [time] parameter are answered
    alike, reads included, when their instants fall on the same weekday of the
    civil zone and either the [time] parameter is accepted (the reference
    minute is then the parameter's; the weekday is still today's) or they fall
    in the same minute of the civil day. *)
Theorem instant_matters_through_weekday_and_minute
    off (first second : Request) (store : Store) :
  claims_sub first = claims_sub second ->
  timeParam first = timeParam second ->
  weekdayOf off (now first) = weekdayOf off (now second) ->
  parseTimeParam (timeParam first) <> None
  \/ minuteOfDay off (now first) = minuteOfDay off (now second) ->
  GET off first store = GET off second store.
Proof.
  intros Hc Ht Hw Hm. unfold GET. rewrite <- Hc, <- Ht.
  destruct (claims_sub first) as [[|c rest]|]; try reflexivity.
  cbv zeta. rewrite !current_weekday, <- Hw.
  destruct (parseTimeParam (timeParam first)) as [t|] eqn:Ep; cbv iota beta.
  - reflexivity.
  - destruct Hm as [Hm | Hm]; [congruence|].
    destruct (same_minute_same_parts off _ _ Hm) as [-> ->]. reflexivity.
Qed.

Lemma instant_matters_through_weekday_and_minute_witness :
  GET cst (mkRequest (Some "u") None saturday_morning) sample_store
  = GET cst (mkRequest (Some "u") None (saturday_morning + 59999))
      sample_store
  /\ GET cst (mkRequest (Some "u") (Some "12:30") saturday_morning)
       sample_store
     = GET cst (mkRequest (Some "u") (Some "12:30")
                  (saturday_morning + 3600000)) sample_store.
Proof.
  split.
  - apply instant_matters_through_weekday_and_minute;
      [reflexivity | reflexivity | reflexivity | right; reflexivity].
  - apply instant_matters_through_weekday_and_minute;
      [reflexivity | reflexivity | reflexivity | left; discriminate].
Defined.

End InstantExtras.

Module NameExtras.
Import Route Props PropsHandler Tools ClassifyFacts Samples.

Lemma member_name_cases (member : MemberRow) :
  member_name member
  = match profiles member with
    | Some p =>
        match display_name p with
        | Some n => if String.eqb (trimmed n) "" then member_user_id member
                    else trimmed n
        | None => member_user_id member
        end
    | None => member_user_id member
    end.
Proof.
  unfold member_name, trimmed.
  destruct (profiles member) as [p|]; [|reflexivity].
  destruct (display_name p) as [n|]; [|reflexivity].
  now destruct (string_of_list_ascii (JS.trim (list_ascii_of_string n))).
Qed.

Lemma member_name_not_blank (member : MemberRow) :
  member_user_id member <> "" -> member_name member <> "".
Proof.
  intro Hid. rewrite member_name_cases.
  destruct (profiles member) as [p|]; [|exact Hid].
  destruct (display_name p) as [n|]; [|exact Hid].
  destruct (String.eqb (trimmed n) "") eqn:E; [exact Hid|].
  now apply String.eqb_neq.
Qed.

(** A white-space character is stripped from the start. *)
Lemma strip_character (c rest : list ascii) (fuel : nat) :
  In c white_space_characters ->
  JS.strip JS.white_space_prefix (S fuel) (c ++ rest)
  = JS.strip JS.white_space_prefix fuel rest.
Proof.
  intro Hc. unfold white_space_characters in Hc. simpl in Hc.
  repeat (destruct Hc as [<- | Hc]; [reflexivity|]). destruct Hc.
Qed.

Lemma character_length (c : list ascii) :
  In c white_space_characters -> (1 <= List.length c)%nat.
Proof.
  intro Hc. unfold white_space_characters in Hc. simpl in Hc.
  repeat (destruct Hc as [<- | Hc]; [simpl; lia|]). destruct Hc.
Qed.

Lemma strip_blank (characters : list (list ascii)) :
  Forall (fun c => In c white_space_characters) characters ->
  forall fuel,
    (List.length (List.concat characters) <= fuel)%nat ->
    JS.strip JS.white_space_prefix fuel (List.concat characters) = [].
Proof.
  induction 1 as [|c cs Hc Hcs IH]; intros fuel Hfuel.
  - now destruct fuel.
  - simpl in *. rewrite length_app in Hfuel.
    pose proof (character_length c Hc).
    destruct fuel as [|fuel]; [lia|].
    rewrite (strip_character c _ fuel Hc). apply IH. lia.
Qed.

Lemma trimmed_blank (s : string) : blank s -> trimmed s = "".
Proof.
  intros [cs [Hcs E]]. unfold trimmed, JS.trim. rewrite E.
  now rewrite (strip_blank cs Hcs _ (le_n _)).
Qed.

(** X10: the name shown for a member is the trimmed display name of the
    profile when that is not empty, and the user id otherwise: without a
    profile, without a display name, or with a display name made of white
    space only (no-break and ideographic spaces included).  So when every
    member has a non-empty user id, no entry of [free], [busy] or [unknown]
    has a blank name. *)
Theorem shown_names_are_never_blank
    (members : list MemberRow) (uploadedSet : list string) (maps : Maps) :
  (forall member,
     member_name member
     = match profiles member with
       | Some p =>
           match display_name p with
           | Some n => if String.eqb (trimmed n) "" then member_user_id member
                       else trimmed n
           | None => member_user_id member
           end
       | None => member_user_id member
       end)
  /\ (forall member p n,
        profiles member = Some p -> display_name p = Some n -> blank n ->
        member_name member = member_user_id member)
  /\ ((forall member, In member members -> member_user_id member <> "") ->
      let '(free, busy, unknown) := classify members uploadedSet maps in
      (forall e, In e free -> free_display_name e <> "")
      /\ (forall e, In e busy -> busy_display_name e <> "")
      /\ (forall e, In e unknown -> unknown_display_name e <> "")).
Proof.
  split; [apply member_name_cases|]. split.
  { intros member p n Hp Hn Hblank.
    rewrite member_name_cases, Hp, Hn, (trimmed_blank n Hblank).
    reflexivity. }
  intro Hids.
  assert (forall m, In m members -> member_name m <> "") as Hname
    by (intros m Hm; now apply member_name_not_blank, Hids).
  rewrite classify_eq. cbv zeta. split; [|split]; intros e He.
  - apply In_free_entries, in_map_iff in He. destruct He as [m [Hst Hm]].
    rewrite classify_member_eq in Hst. cbv zeta in Hst.
    destruct (negb _); [discriminate|].
    destruct (JSMap.get _ _); [discriminate|].
    injection Hst as <-. simpl. now apply Hname.
  - apply In_busy_entries, in_map_iff in He. destruct He as [m [Hst Hm]].
    rewrite classify_member_eq in Hst. cbv zeta in Hst.
    destruct (negb _); [discriminate|].
    destruct (JSMap.get _ _); [|discriminate].
    injection Hst as <-. simpl. now apply Hname.
  - apply In_unknown_entries, in_map_iff in He. destruct He as [m [Hst Hm]].
    rewrite classify_member_eq in Hst. cbv zeta in Hst.
    destruct (negb _); [|destruct (JSMap.get _ _); discriminate].
    injection Hst as <-. simpl. now apply Hname.
Qed.

Lemma shown_names_are_never_blank_witness :
  member_name
    (mkMemberRow "v"
       (Some (mkProfile
                (Some (no_break_space ++ " " ++ ideographic_space)%string))))
  = "v"
  /\ snd (classify
            [mkMemberRow "v" (Some (mkProfile (Some no_break_space)))]
            ["u"] ([], []))
     = [mkUnknownEntry "v" "v"]
  /\ unknown_display_name (mkUnknownEntry "v" "v") <> "".
Proof.
  pose proof (shown_names_are_never_blank
                [mkMemberRow "v" (Some (mkProfile (Some no_break_space)))]
                ["u"] ([], [])) as [_ [Hblank Hlists]].
  split; [|split; [reflexivity|]].
  - apply (Hblank
             (mkMemberRow "v"
                (Some (mkProfile
                         (Some (no_break_space ++ " "
                                  ++ ideographic_space)%string))))
             _ _ eq_refl eq_refl).
    exists [utf8 [194; 160]%nat; utf8 [32]%nat; utf8 [227; 128; 128]%nat].
    split; [|reflexivity].
    repeat constructor; unfold white_space_characters; simpl; tauto.
  - simpl in Hlists. apply Hlists; [|now left].
    intros m [<- | []]. discriminate.
Defined.

End NameExtras.

(* ================================================================== *)
(** * Beyond the specification: the leave route and its button *)
(* ================================================================== *)

Module LeaveExtras.
Import Leave SamplesLeave.

(** The three ways [POST] can go once the user is signed in. *)
Lemma POST_signed_in request store c rest :
  claims_sub request = Some (String c rest) ->
  let userId := String c rest in
  (* the group is not found *)
  ((Route.error (group store) = true \/ Route.data (group store) = None)
   /\ POST request store
      = (ErrorResponse 404 "Group not found", [SelectGroup]))
  \/ (exists g,
        Route.error (group store) = false
        /\ Route.data (group store) = Some g
        /\ ((* the user owns the group *)
            (created_by g = Some userId
             /\ POST request store
                = (ErrorResponse 400
                     "Group owners cannot leave their own group.",
                   [SelectGroup]))
            \/ ((* the delete is issued *)
                created_by g <> Some userId
                /\ fst (POST request store)
                   = (if Route.error (deletedRows store)
                      then ErrorResponse 500 "Failed to leave group"
                      else match Route.data (deletedRows store) with
                           | None | Some [] =>
                               ErrorResponse 404
                                 "You are not a member of this group"
                           | Some (_ :: _) => LeftResponse (groupId request)
                           end)
                /\ snd (POST request store)
                   = [SelectGroup; DeleteMembership]))).
Proof.
  intros Hc userId. subst userId. unfold POST. rewrite Hc. cbv zeta.
  destruct (Route.error (group store)) eqn:Ee.
  { left. split; [now left|]. now destruct (Route.data (group store)). }
  destruct (Route.data (group store)) as [g|] eqn:Ed.
  2:{ left. split; [now right | reflexivity]. }
  right. exists g. split; [reflexivity|]. split; [reflexivity|].
  destruct (created_by g) as [owner|] eqn:Eo.
  - destruct (String.eqb owner (String c rest)) eqn:E.
    + apply String.eqb_eq in E. subst owner. left. now split.
    + apply String.eqb_neq in E. right.
      split; [congruence|].
      destruct (Route.error (deletedRows store)); [now split|].
      destruct (Route.data (deletedRows store)) as [[|? ?]|]; now split.
  - right. split; [discriminate|].
    destruct (Route.error (deletedRows store)); [now split|].
    destruct (Route.data (deletedRows store)) as [[|? ?]|]; now split.
Qed.

Lemma POST_signed_out request store :
  claims_sub request = None \/ claims_sub request = Some "" ->
  POST request store = (ErrorResponse 401 "Unauthorized", []).
Proof. unfold POST. intros [-> | ->]; reflexivity. Qed.

Lemma signed_in_or_out request :
  (claims_sub request = None \/ claims_sub request = Some "")
  \/ exists c rest, claims_sub request = Some (String c rest).
Proof.
  destruct (claims_sub request) as [[|c rest]|]; auto.
  right. now exists c, rest.
Qed.

(** X11: the delete on [group_members] is issued exactly for a signed-in user
    and a group that was found and is not owned by that user, once, and after
    the group was read; in particular the owner of a group never leaves it. *)
Theorem leave_deletes_only_for_a_non_owner (request : Request) (store : Store) :
  (In DeleteMembership (snd (POST request store))
   <-> exists userId g,
         claims_sub request = Some userId /\ userId <> ""
         /\ Route.error (group store) = false
         /\ Route.data (group store) = Some g
         /\ created_by g <> Some userId)
  /\ (snd (POST request store) = []
      \/ snd (POST request store) = [SelectGroup]
      \/ snd (POST request store) = [SelectGroup; DeleteMembership]).
Proof.
  destruct (signed_in_or_out request) as [Hout | [c [rest Hc]]].
  - rewrite (POST_signed_out request store Hout). simpl. split; [|now left].
    split; [intros []|].
    intros [u [g [H1 [H2 _]]]]. destruct Hout; congruence.
  - destruct (POST_signed_in request store c rest Hc)
      as [[Hmiss ->] | [g [He [Hd [[Ho ->] | [Ho [_ Hs]]]]]]]; simpl.
    + split; [|right; now left]. split.
      * intros [H | []]. discriminate H.
      * intros [u [g [_ [_ [H3 [H4 _]]]]]]. destruct Hmiss; congruence.
    + split; [|right; now left]. split.
      * intros [H | []]. discriminate H.
      * intros [u [g' [H1 [_ [_ [H4 H5]]]]]]. congruence.
    + rewrite Hs. split; [|right; now right]. split.
      * intros _. exists (String c rest), g.
        repeat split; try assumption. discriminate.
      * intros _. right. now left.
Qed.

(** X12: the answer is 200 exactly when the delete was issued, did not fail
    and returned at least one row; the answer then carries the requested group
    id.  A delete that returns no row is answered 404, never 200. *)
Theorem leave_succeeds_iff_a_row_was_deleted
    (request : Request) (store : Store) :
  ((exists g, fst (POST request store) = LeftResponse g)
   <-> In DeleteMembership (snd (POST request store))
       /\ Route.error (deletedRows store) = false
       /\ exists row rows,
            Route.data (deletedRows store) = Some (row :: rows))
  /\ (forall g, fst (POST request store) = LeftResponse g ->
                g = groupId request).
Proof.
  destruct (signed_in_or_out request) as [Hout | [c [rest Hc]]].
  - rewrite (POST_signed_out request store Hout). simpl.
    split; [|discriminate]. split; [intros [g H]; discriminate H|].
    intros [[] _].
  - destruct (POST_signed_in request store c rest Hc)
      as [[Hmiss ->] | [g [He [Hd [[Ho ->] | [Ho [Hf Hs]]]]]]]; simpl.
    + split; [|discriminate]. split; [intros [g H]; discriminate H|].
      intros [[H | []] _]. discriminate H.
    + split; [|discriminate]. split; [intros [g' H]; discriminate H|].
      intros [[H | []] _]. discriminate H.
    + rewrite Hf, Hs.
      destruct (Route.error (deletedRows store)).
      * split; [|discriminate]. split; [intros [g' H]; discriminate H|].
        intros [_ [H _]]. discriminate H.
      * destruct (Route.data (deletedRows store)) as [[|row rows]|].
        -- split; [|discriminate]. split; [intros [g' H]; discriminate H|].
           intros [_ [_ [r [rs H]]]]. discriminate H.
        -- split; [|now intros g' [= <-]]. split.
           ++ intros _. split; [right; now left|].
              split; [reflexivity | now exists row, rows].
           ++ intros _. now eexists.
        -- split; [|discriminate]. split; [intros [g' H]; discriminate H|].
           intros [_ [_ [r [rs H]]]]. discriminate H.
Qed.

Lemma leave_succeeds_iff_a_row_was_deleted_witness :
  "g" = groupId (leave_request "member").
Proof.
  apply (proj2 (leave_succeeds_iff_a_row_was_deleted
                  (leave_request "member") member_store) "g").
  reflexivity.
Defined.

End LeaveExtras.

Module ButtonExtras.
Import LeaveGroupButton SamplesLeave.

(** X13: however the request ends, [onLeave] leaves the button enabled, and
    what it leaves does not depend on the earlier state (a message from an
    earlier attempt never stays).  It navigates, to the dashboard and then a
    refresh, exactly when the answer was ok, and then shows no message;
    otherwise it stays and sets a message. *)
Theorem onLeave_settles (outcome : Outcome) (st : State) :
  let '(st', navigation) := onLeave outcome st in
  isLeaving st' = false
  /\ onLeave outcome st = onLeave outcome (mkState false None)
  /\ ((exists payload, outcome = Responded true payload)
      /\ navigation = [Push "/dashboard"; Refresh] /\ error st' = None
      \/ (forall payload, outcome <> Responded true payload)
         /\ navigation = [] /\ exists message, error st' = Some message).
Proof.
  destruct outcome as [|[|] payload]; simpl.
  - split; [reflexivity|]. split; [reflexivity|]. right.
    split; [discriminate|]. split; [reflexivity | now eexists].
  - split; [reflexivity|]. split; [reflexivity|]. left.
    split; [now exists payload | now split].
  - split; [reflexivity|]. split; [reflexivity|]. right.
    split; [discriminate|]. split; [reflexivity | now eexists].
Qed.

(** X14: the button against the leave route.  Whatever the route answers,
    the button navigates exactly when the answer is the 200 one, and otherwise
    shows the message of the route itself, never one of its own fallbacks. *)
Theorem button_shows_the_answer_of_the_route
    (request : Leave.Request) (store : Leave.Store) (st : State) :
  let '(st', navigation) :=
    onLeave (outcome_of (fst (Leave.POST request store))) st in
  match fst (Leave.POST request store) with
  | Leave.LeftResponse _ =>
      navigation = [Push "/dashboard"; Refresh] /\ shown_error st' = None
  | Leave.ErrorResponse _ message =>
      navigation = [] /\ shown_error st' = Some message
  end.
Proof.
  destruct (LeaveExtras.signed_in_or_out request) as [Hout | [c [rest Hc]]].
  - rewrite (LeaveExtras.POST_signed_out request store Hout). now split.
  - destruct (LeaveExtras.POST_signed_in request store c rest Hc)
      as [[Hmiss ->] | [g [He [Hd [[Ho ->] | [Ho [Hf Hs]]]]]]];
      [now split | now split |].
    rewrite Hf.
    destruct (Route.error (Leave.deletedRows store)); [now split|].
    destruct (Route.data (Leave.deletedRows store)) as [[|row rows]|];
      now split.
Qed.

End ButtonExtras.

(* ================================================================== *)
(** * Beyond the specification: clock strings *)
(* ================================================================== *)

Module ClockExtras.
Import Route Props PropsIcs PropsClock Tools TimeParamFacts ParseIcsFacts.
Import ClockFacts ClockTables.

(** X15: what [parseTimeParam] returns for an accepted string.  With [h],
    [m] and [sec] the hour, minute and second fields (the seconds [00] when
    absent) and [k = h * 60 + m], [minutes] is a finite number from [k] up
    to, not including, [k + 1], so it lies in the day (from 0, below 1440).
    It is [k] itself when the seconds are zero; otherwise it is the binary64
    result of [k + sec / 60], above [k] and within [2^-41] of the exact
    value.  The label is the one of [h:m]: seconds do not show. *)
Theorem time_param_minutes_lie_in_the_day (s : string) (r : ParsedTime) :
  parseTimeParam (Some s) = Some r ->
  exists h m sec q,
    hour_field h /\ sixty_field m /\ sixty_field sec
    /\ ((s = h ++ ":" ++ m /\ sec = "00")
        \/ s = h ++ ":" ++ m ++ ":" ++ sec)%string
    /\ minutes r = JS.Num q
    /\ (let k := inject_Z (decimal_value h * 60 + decimal_value m) in
        (k <= q)%Q /\ (q < k + 1)%Q
        /\ (decimal_value sec = 0 -> q = k)
        /\ (0 < decimal_value sec -> (k < q)%Q)
        /\ (q - (k + inject_Z (decimal_value sec) / 60)
            <= 1 # 2199023255552)%Q
        /\ (k + inject_Z (decimal_value sec) / 60 - q
            <= 1 # 2199023255552)%Q)
    /\ (0 <= q)%Q /\ (q < 1440)%Q
    /\ label r = formatTime (h ++ ":" ++ m)
    /\ label r
       = twelve_hour_label (decimal_value h) (decimal_value m).
Proof.
  intro Hparse.
  destruct (parseTimeParam_fields s r Hparse)
    as [h [m [sec [Hh [Hm [Hs [Hshape ->]]]]]]].
  pose proof (timeToMinutes_fields h m sec Hh Hm Hs) as Hval.
  pose proof (formatTime_fields h m sec Hh Hm) as Hlabel.
  pose proof Hh as [Hhl [Hhd Hhv]]. pose proof Hm as [Hml [Hmd Hmv]].
  pose proof Hs as [Hsl [Hsd Hsv]].
  destruct (Number_field h Hhl Hhd) as [_ Hh0].
  destruct (Number_field m (or_intror Hml) Hmd) as [_ Hm0].
  destruct (Number_field sec (or_intror Hsl) Hsd) as [_ Hs0].
  destruct (clock_minutes_value (decimal_value h) (decimal_value m)
              (decimal_value sec))
    as [q [Eq [H1 [H2 [H3 [H4 [H5 H6]]]]]]]; try lia.
  exists h, m, sec, q. split; [exact Hh|]. split; [exact Hm|].
  split; [exact Hs|]. split; [exact Hshape|].
  cbn [minutes label]. rewrite Hval.
  split; [exact Eq|]. split; [now repeat split|].
  assert (0 <= inject_Z (decimal_value h * 60 + decimal_value m))%Q as K0
    by (change 0%Q with (inject_Z 0); rewrite <- Zle_Qle; lia).
  assert (inject_Z (decimal_value h * 60 + decimal_value m) <= 1439)%Q as K1
    by (change 1439%Q with (inject_Z 1439); rewrite <- Zle_Qle; lia).
  split; [lra|]. split; [lra|]. split; [|exact Hlabel].
  apply formatTime_ignores_seconds; now apply digits_no_colon.
Qed.

Lemma time_param_minutes_lie_in_the_day_witness :
  exists h m sec q,
    hour_field h /\ sixty_field m /\ sixty_field sec
    /\ (("9:05:20" = h ++ ":" ++ m /\ sec = "00")
        \/ "9:05:20" = h ++ ":" ++ m ++ ":" ++ sec)%string
    /\ JS.Num (4796802728110763 # 8796093022208) = JS.Num q
    /\ (let k := inject_Z (decimal_value h * 60 + decimal_value m) in
        (k <= q)%Q /\ (q < k + 1)%Q
        /\ (decimal_value sec = 0 -> q = k)
        /\ (0 < decimal_value sec -> (k < q)%Q)
        /\ (q - (k + inject_Z (decimal_value sec) / 60)
            <= 1 # 2199023255552)%Q
        /\ (k + inject_Z (decimal_value sec) / 60 - q
            <= 1 # 2199023255552)%Q)
    /\ (0 <= q)%Q /\ (q < 1440)%Q
    /\ "9:05AM" = formatTime (h ++ ":" ++ m)
    /\ "9:05AM" = twelve_hour_label (decimal_value h) (decimal_value m).
Proof.
  apply (time_param_minutes_lie_in_the_day "9:05:20"
           (mkParsedTime (JS.Num (4796802728110763 # 8796093022208))
              "9:05AM")).
  vm_compute. reflexivity.
Defined.

(** X16: [formatTime] on a clock string [HH:MM:SS] of the store, hours 00 to
    23 and minutes 00 to 59, whatever follows the second colon: the label is
    the hour of the 12-hour clock (12 for midnight and noon, never 0), the
    minute on two digits, and [AM] before noon, [PM] from noon on. *)
Theorem clock_strings_get_twelve_hour_labels (h m : Z) (sec : string) :
  0 <= h < 24 -> 0 <= m < 60 ->
  formatTime (Intl.two_digit h ++ ":" ++ Intl.two_digit m ++ ":" ++ sec)
  = twelve_hour_label h m
  /\ 1 <= twelve_hour h <= 12
  /\ (twelve_hour h = 12 <-> h = 0 \/ h = 12).
Proof.
  intros Hh Hm.
  destruct (two_digit_field h ltac:(lia)) as [_ [H2 _]].
  destruct (two_digit_field m ltac:(lia)) as [_ [M2 _]].
  split; [|unfold twelve_hour; split; [|split; intro]; 
           Z.div_mod_to_equations; lia].
  rewrite formatTime_ignores_seconds by now apply digits_no_colon.
  rewrite <- (formatTime_clock_string h m Hh Hm). unfold clock_string.
  symmetry. apply formatTime_ignores_seconds; now apply digits_no_colon.
Qed.

Lemma clock_strings_get_twelve_hour_labels_witness :
  formatTime "00:05:59" = "12:05AM" /\ formatTime "12:00:00" = "12:00PM".
Proof.
  split.
  - apply (proj1 (clock_strings_get_twelve_hour_labels 0 5 "59"
                    ltac:(lia) ltac:(lia))).
  - apply (proj1 (clock_strings_get_twelve_hour_labels 12 0 "00"
                    ltac:(lia) ltac:(lia))).
Defined.

End ClockExtras.

(* ================================================================== *)
(** * Beyond the specification: ICS normalisation *)
(* ================================================================== *)

Module IcsExtras.
Import ParseIcs PropsIcs PropsClock ParseIcsFacts ClockFacts ClockTables.
Import SamplesIcs.

Section Zone.
Variable off : Z -> Z.

Lemma entry_step_app blocks entry :
  entry_step off blocks entry = blocks ++ entry_step off [] entry.
Proof.
  destruct (entry_step_cases off blocks entry)
    as [Heq | [event [s [e [-> [Ht _]]]]]].
  - destruct (entry_step_cases off [] entry)
      as [Heq' | [event [s [e [-> [Ht _]]]]]].
    + now rewrite Heq, Heq', app_nil_r.
    + rewrite !(entry_step_timed off _ event s e Ht).
      destruct (e <=? s); [now rewrite app_nil_r | reflexivity].
  - rewrite !(entry_step_timed off _ event s e Ht).
    destruct (e <=? s); [now rewrite app_nil_r | reflexivity].
Qed.

Lemma parse_from (parsed : list (option ParsedEvent)) :
  forall blocks,
    fold_left (entry_step off) parsed blocks
    = blocks ++ parseIcsToBusyBlocks off parsed.
Proof.
  unfold parseIcsToBusyBlocks.
  induction parsed as [|entry parsed IH]; intro blocks; simpl.
  - now rewrite app_nil_r.
  - rewrite (IH (entry_step off blocks entry)), (IH (entry_step off [] entry)).
    rewrite (entry_step_app blocks entry). now rewrite app_assoc.
Qed.

(** X17: entries are normalised one by one: the blocks of a calendar are the
    blocks of its entries, in the order of the entries, so the blocks of two
    calendars put end to end are the blocks of the first followed by the
    blocks of the second. *)
Theorem normalisation_is_per_entry (first second : list (option ParsedEvent)) :
  parseIcsToBusyBlocks off (first ++ second)
  = parseIcsToBusyBlocks off first ++ parseIcsToBusyBlocks off second
  /\ parseIcsToBusyBlocks off first
     = flat_map (fun entry => entry_step off [] entry) first.
Proof.
  split.
  - unfold parseIcsToBusyBlocks at 1. rewrite fold_left_app.
    fold (parseIcsToBusyBlocks off first). apply parse_from.
  - induction first as [|entry first IH]; [reflexivity|].
    unfold parseIcsToBusyBlocks. simpl.
    rewrite parse_from, IH. reflexivity.
Qed.

Lemma extractWeekdays_NoDup event : NoDup (extractWeekdays off event).
Proof.
  rewrite extractWeekdays_eq. cbv zeta.
  destruct (add_entries_spec (rule_entries event) [] (NoDup_nil _))
    as [Hnd _].
  destruct (fold_left add_entry (rule_entries event) []); [|exact Hnd].
  destruct (start event); repeat constructor; intros [].
Qed.

Lemma business_days_are_few (l : list Z) :
  NoDup l -> (forall w, In w l -> in_business_week w = true) ->
  (List.length l <= 5)%nat.
Proof.
  intros Hnd Hall.
  apply (NoDup_incl_length (l' := [1; 2; 3; 4; 5]) Hnd).
  intros w Hw. specialize (Hall w Hw).
  unfold in_business_week, WEEKDAY_MIN, WEEKDAY_MAX in Hall.
  apply negb_true_iff, orb_false_iff in Hall. destruct Hall as [H1 H2].
  apply Z.ltb_ge in H1, H2. simpl.
  assert (w = 1 \/ w = 2 \/ w = 3 \/ w = 4 \/ w = 5) as Hc by lia.
  intuition.
Qed.

(** X18: one event adds at most five blocks, one per weekday with no weekday
    twice, after the blocks already there; all of them carry the wall clocks
    of the start and the end of the event. *)
Theorem event_blocks_are_few_and_distinct
    (blocks : list BusyBlockInput) (event : ParsedEvent) :
  exists added,
    entry_step off blocks (Some event) = blocks ++ added
    /\ NoDup (map weekday added)
    /\ (List.length added <= 5)%nat
    /\ forall b, In b added ->
         exists s e,
           start event = Some s /\ end_ event = Some e
           /\ start_time b = formatTime off s
           /\ end_time b = formatTime off e.
Proof.
  destruct (entry_step_cases off blocks (Some event))
    as [Heq | [ev [s [e [[= <-] [Ht [Hlt Heq]]]]]]].
  - exists []. rewrite Heq, app_nil_r. split; [reflexivity|].
    split; [constructor|]. split; [simpl; lia | intros b []].
  - eexists. split; [exact Heq|].
    set (days := filter in_business_week (extractWeekdays off event)).
    assert (NoDup days) as Hnd
      by (apply NoDup_filter, extractWeekdays_NoDup).
    rewrite map_map. simpl. rewrite map_id, length_map.
    split; [exact Hnd|]. split.
    + apply business_days_are_few; [exact Hnd|].
      intros w Hw. apply filter_In in Hw. apply Hw.
    + intros b Hb. apply in_map_iff in Hb. destruct Hb as [w [<- _]].
      exists s, e. destruct Ht as [_ [Hs [He _]]]. now repeat split.
Qed.

Lemma formatTime_form instant : Props.clock_form (formatTime off instant).
Proof.
  rewrite formatTime_clock. apply clock_string_form.
  - unfold Intl.localHour. generalize (Intl.localMillis off instant).
    intro x. Z.div_mod_to_equations. lia.
  - unfold Intl.localMinute. generalize (Intl.localMillis off instant).
    intro x. Z.div_mod_to_equations. lia.
Qed.

Lemma formatTime_label instant :
  Route.formatTime (formatTime off instant)
  = twelve_hour_label (Intl.localHour off instant)
      (Intl.localMinute off instant).
Proof.
  rewrite formatTime_clock. apply formatTime_clock_string.
  - unfold Intl.localHour. generalize (Intl.localMillis off instant).
    intro x. Z.div_mod_to_equations. lia.
  - unfold Intl.localMinute. generalize (Intl.localMillis off instant).
    intro x. Z.div_mod_to_equations. lia.
Qed.

(** X19: the clock strings the normaliser writes are read back exactly by the
    availability route.  For every emitted block, [start_time] and [end_time]
    have the clock form [parseTimeParam] accepts, [timeToMinutes] gives the
    minute of the civil day of the event's start and end instants, and the
    route's [formatTime] gives the 12-hour label of their hour and minute. *)
Theorem emitted_clock_strings_are_read_back
    (parsed : list (option ParsedEvent)) (b : BusyBlockInput) :
  In b (parseIcsToBusyBlocks off parsed) ->
  exists event s e,
    In (Some event) parsed /\ start event = Some s /\ end_ event = Some e
    /\ Props.clock_form (start_time b) /\ Props.clock_form (end_time b)
    /\ Route.timeToMinutes (start_time b)
       = JS.Num (inject_Z (minuteOfDay off s))
    /\ Route.timeToMinutes (end_time b)
       = JS.Num (inject_Z (minuteOfDay off e))
    /\ Route.formatTime (start_time b)
       = twelve_hour_label (Intl.localHour off s) (Intl.localMinute off s)
    /\ Route.formatTime (end_time b)
       = twelve_hour_label (Intl.localHour off e) (Intl.localMinute off e).
Proof.
  intro Hin.
  destruct (parsed_block_origin off parsed [] b Hin)
    as [[] | [event [s [e [w [H1 [[_ [Hs [He _]]] [_ [_ [_ ->]]]]]]]]]].
  exists event, s, e. simpl.
  split; [exact H1|]. split; [exact Hs|]. split; [exact He|].
  split; [apply formatTime_form|]. split; [apply formatTime_form|].
  split; [apply formatTime_minutes|]. split; [apply formatTime_minutes|].
  split; apply formatTime_label.
Qed.

(** X20: the normaliser and the merge, end to end.  The row stored for an
    event is skipped by [mergeBusyIntervals] exactly when the minute of the
    civil day of the end instant is not after that of the start instant (the
    event wraps past midnight, or starts and ends within the same minute);
    such a row changes nothing in the merged output. *)
Theorem merge_skips_wrapped_blocks (userId : string) (s e : Z) :
  let stored :=
    Route.mkBusyBlockRow userId (formatTime off s) (formatTime off e) in
  Props.inverted stored = (minuteOfDay off e <=? minuteOfDay off s)
  /\ Props.skipped stored = (minuteOfDay off e <=? minuteOfDay off s)
  /\ (minuteOfDay off e <= minuteOfDay off s ->
      forall before after,
        Route.mergeBusyIntervals (before ++ stored :: after)
        = Route.mergeBusyIntervals (before ++ after)).
Proof.
  intro stored.
  assert (Props.inverted stored = (minuteOfDay off e <=? minuteOfDay off s))
    as Hinv.
  { unfold Props.inverted, stored. simpl.
    rewrite (formatTime_minutes off s), (formatTime_minutes off e). simpl.
    destruct (Z.leb_spec (minuteOfDay off e) (minuteOfDay off s)) as [H | H].
    - apply Qle_bool_iff. now rewrite <- Zle_Qle.
    - apply Tools.Qle_bool_false. now rewrite <- Zlt_Qlt. }
  assert (Props.skipped stored = (minuteOfDay off e <=? minuteOfDay off s))
    as Hskip.
  { unfold Props.skipped. rewrite Hinv. unfold stored. simpl.
    now rewrite (formatTime_minutes off s), (formatTime_minutes off e). }
  split; [exact Hinv|]. split; [exact Hskip|].
  intros Hwrap before after. apply Z.leb_le in Hwrap.
  rewrite <- Hskip in Hwrap.
  unfold Route.mergeBusyIntervals. rewrite !fold_left_app. simpl.
  now rewrite MergeFacts.group_step_eq, Hwrap.
Qed.

End Zone.

Lemma event_blocks_are_few_and_distinct_witness :
  exists s e,
    start tue_thu_class = Some s /\ end_ tue_thu_class = Some e
    /\ "10:00:00" = formatTime Samples.cst s
    /\ "11:15:00" = formatTime Samples.cst e.
Proof.
  destruct (event_blocks_are_few_and_distinct Samples.cst [] tue_thu_class)
    as [added [Heq [_ [_ H]]]].
  apply (H (mkBusyBlockInput 2 "10:00:00" "11:15:00")).
  vm_compute in Heq. rewrite <- Heq. left. reflexivity.
Defined.

Lemma emitted_clock_strings_are_read_back_witness :
  exists event s e,
    In (Some event) [Some night_shift]
    /\ start event = Some s /\ end_ event = Some e
    /\ Props.clock_form "23:00:00" /\ Props.clock_form "01:00:00"
    /\ Route.timeToMinutes "23:00:00"
       = JS.Num (inject_Z (minuteOfDay Samples.cst s))
    /\ Route.timeToMinutes "01:00:00"
       = JS.Num (inject_Z (minuteOfDay Samples.cst e))
    /\ Route.formatTime "23:00:00"
       = twelve_hour_label (Intl.localHour Samples.cst s)
           (Intl.localMinute Samples.cst s)
    /\ Route.formatTime "01:00:00"
       = twelve_hour_label (Intl.localHour Samples.cst e)
           (Intl.localMinute Samples.cst e).
Proof.
  apply (emitted_clock_strings_are_read_back Samples.cst [Some night_shift]
           (mkBusyBlockInput 1 "23:00:00" "01:00:00")).
  vm_compute. left. reflexivity.
Defined.

Lemma merge_skips_wrapped_blocks_witness :
  Route.mergeBusyIntervals
    (Samples.lunch_rows
       ++ Route.mkBusyBlockRow "u" "23:00:00" "01:00:00" :: [])
  = Route.mergeBusyIntervals (Samples.lunch_rows ++ []).
Proof.
  apply (proj2 (proj2 (merge_skips_wrapped_blocks Samples.cst "u"
                         monday_23_00 tuesday_01_00))).
  vm_compute. discriminate.
Defined.

End IcsExtras.
